(** * SonicVision Studio: the generation client and the pipeline orchestrator

    A shallow embedding of [geminiService.ts] (class [GeminiService]) and of
    the React component [App] (its state, [handleFileUpload], [processAudio],
    [reset] and the conditions under which its controls are rendered),
    followed by the properties of the three-phase pipeline.

    Conventions.
    - A JavaScript [number] is an IEEE double.  Timestamps are only ever
      compared, through the sign of [a.timestamp - b.timestamp]; on doubles
      that sign is the sign of the exact difference (a difference of two
      distinct finite doubles never rounds to zero, overflow keeps the sign),
      so a finite number is carried as the rational it denotes.  The progress
      percentage is computed with real double arithmetic ([PrimFloat]).
    - A promise is run to completion: an [async] function is a computation
      over the outside world that returns or throws.
    - The generative service is external.  Its reply to the n-th request is
      an arbitrary function [service] of n.
    - The [retries] argument of [generateImage] is a number like any
      other: the loop is modelled for NaN, -Infinity and every finite
      value, whole or not. *)

From Stdlib Require Import ZArith QArith Qround List String Ascii Bool Lia.
From Stdlib Require Import Permutation Sorted Floats Uint63.
Import ListNotations.

Local Open Scope string_scope.
Local Open Scope list_scope.

(* ===================================================================== *)
(** ** JavaScript values                                                  *)
(* ===================================================================== *)

Module Js.

(** A thrown [Error]; only its [message] is ever read (by [processAudio]).
    A thrown value without a message is the error with the empty message. *)
Record JsError := mkError { message : string }.

(** How the evaluation of an expression or the settling of a promise ends. *)
Inductive Completion (A : Type) : Type :=
| Ok (v : A)
| Throw (e : JsError).
Arguments Ok {A} v.
Arguments Throw {A} e.

(** The message of a [TypeError] or [SyntaxError] raised by the engine
    itself is engine specific. *)
Definition TypeError : JsError := mkError "TypeError".
Definition SyntaxError : JsError := mkError "SyntaxError".

(** A number other than NaN.  [JSON.parse] produces exactly these (a
    literal too large for a double parses to an infinity). *)
Inductive number : Type :=
| NegInfinity
| Finite (q : Q)
| Infinity.

(** A number or NaN ([None]). *)
Definition numeric := option number.

(** Sign of the double [a - b]: [None] when the difference is NaN. *)
Definition subtract_sign (a b : numeric) : option comparison :=
  match a, b with
  | Some (Finite x), Some (Finite y) => Some (x ?= y)%Q
  | Some Infinity, Some Infinity => None
  | Some NegInfinity, Some NegInfinity => None
  | Some Infinity, Some _ => Some Gt
  | Some NegInfinity, Some _ => Some Lt
  | Some (Finite _), Some Infinity => Some Lt
  | Some (Finite _), Some NegInfinity => Some Gt
  | _, _ => None
  end.

(** [a <= b] on numbers. *)
Definition number_le (a b : number) : Prop :=
  match a, b with
  | NegInfinity, _ => True
  | _, Infinity => True
  | Finite x, Finite y => (x <= y)%Q
  | _, _ => False
  end.

Definition number_leb (a b : number) : bool :=
  match a, b with
  | NegInfinity, _ => true
  | _, Infinity => true
  | Finite x, Finite y => Qle_bool x y
  | _, _ => false
  end.

(** The result of [JSON.parse]: objects keep their keys in order, and a
    key is read through its first binding. *)
#[warnings="-register-all"]
Inductive json : Type :=
| JNull
| JBool (b : bool)
| JNumber (n : number)
| JString (s : string)
| JArray (items : list json)
| JObject (fields : list (string * json)).

Fixpoint field (fs : list (string * json)) (key : string) : option json :=
  match fs with
  | [] => None
  | (k, v) :: fs' => if String.eqb k key then Some v else field fs' key
  end.

Fixpoint set_field (fs : list (string * json)) (key : string) (v : json)
  : list (string * json) :=
  match fs with
  | [] => []
  | (k, old) :: fs' =>
      if String.eqb k key then (k, v) :: fs' else (k, old) :: set_field fs' key v
  end.

(** [value.key], for the keys the client reads ([scenes], [timestamp]),
    which no primitive and no array defines: reading them off [null]
    throws, off anything but an object gives [undefined] ([None]). *)
Definition member (value : json) (key : string) : Completion (option json) :=
  match value with
  | JNull => Throw TypeError
  | JObject fs => Ok (field fs key)
  | _ => Ok None
  end.

(** The object after the array held under [key] was reordered in place. *)
Definition with_member (value : json) (key : string) (v : json) : json :=
  match value with
  | JObject fs => JObject (set_field fs key v)
  | _ => value
  end.

(** ToBoolean. *)
Definition truthy (v : option json) : bool :=
  match v with
  | None => false
  | Some JNull => false
  | Some (JBool b) => b
  | Some (JNumber (Finite q)) => negb (Qeq_bool q 0)
  | Some (JNumber _) => true
  | Some (JString s) => negb (String.eqb s EmptyString)
  | Some (JArray _) => true
  | Some (JObject _) => true
  end.

(** Whether the conversion of a parsed array or object to a primitive
    throws.  With the built-in prototypes, [toString] is what finally
    gives the primitive ([valueOf] returns the object itself); a property
    of that name shadows it, and in a parsed value a property is never a
    function: then no method is left and the conversion throws.  An array
    is joined from its elements, which are converted the same way. *)
Fixpoint unconvertible (j : json) : bool :=
  match j with
  | JObject fs =>
      match field fs "toString" with
      | Some _ => true
      | None => false
      end
  | JArray items => existsb unconvertible items
  | _ => false
  end.

Section Engine.

(** The number that ToNumber makes of a string, an array or an object
    when the conversion returns: it goes through the engine's
    string-to-number conversion, and is taken as given. *)
Variable coerce : json -> numeric.

Definition ToNumber (v : option json) : Completion numeric :=
  match v with
  | None => Ok None
  | Some JNull => Ok (Some (Finite 0))
  | Some (JBool true) => Ok (Some (Finite 1))
  | Some (JBool false) => Ok (Some (Finite 0))
  | Some (JNumber n) => Ok (Some n)
  | Some other =>
      if unconvertible other then Throw TypeError else Ok (coerce other)
  end.

(** [(a, b) => a.timestamp - b.timestamp], then SortCompare: a NaN
    result counts as +0.  Both properties are read before either is
    converted. *)
Definition comparefn (a b : json) : Completion comparison :=
  match member a "timestamp" with
  | Throw e => Throw e
  | Ok ta =>
      match member b "timestamp" with
      | Throw e => Throw e
      | Ok tb =>
          match ToNumber ta with
          | Throw e => Throw e
          | Ok x =>
              match ToNumber tb with
              | Throw e => Throw e
              | Ok y =>
                  match subtract_sign x y with
                  | Some c => Ok c
                  | None => Ok Eq
                  end
              end
          end
      end
  end.

(** [Array.prototype.sort(comparefn)].  The standard requires a stable
    sort and leaves the algorithm open; a throwing comparison aborts it.
    Here: stable insertion, which compares every element of an array of
    two or more at least once.  With a consistent comparison (numeric
    timestamps) every conforming algorithm yields this same array. *)
Fixpoint insert (x : json) (sorted : list json) : Completion (list json) :=
  match sorted with
  | [] => Ok [x]
  | y :: rest =>
      match comparefn x y with
      | Throw e => Throw e
      | Ok Gt =>
          match insert x rest with
          | Throw e => Throw e
          | Ok rest' => Ok (y :: rest')
          end
      | Ok _ => Ok (x :: sorted)
      end
  end.

Fixpoint sort (items : list json) : Completion (list json) :=
  match items with
  | [] => Ok []
  | x :: rest =>
      match sort rest with
      | Throw e => Throw e
      | Ok sorted => insert x sorted
      end
  end.

End Engine.

(** [s.split(',')]. *)
Fixpoint split_comma (s : string) : list string :=
  match s with
  | EmptyString => [EmptyString]
  | String c s' =>
      if Ascii.eqb c ","%char then EmptyString :: split_comma s'
      else match split_comma s' with
           | first :: others => String c first :: others
           | [] => [String c EmptyString]
           end
  end.

(** [Math.round] of a double, as an integer: the floor of [x + 1/2],
    computed exactly from the mantissa and exponent of [x].  (Of NaN and
    the infinities, which the progress computation never produces, 0.) *)
Definition Math_round (x : float) : Z :=
  match Prim2SF x with
  | S754_finite sign m e =>
      let num := if sign then Z.neg m else Z.pos m in
      if (0 <=? e)%Z then (num * 2 ^ e)%Z
      else ((2 * num + 2 ^ (- e)) / (2 * 2 ^ (- e)))%Z
  | _ => 0%Z
  end.

Definition number_of_nat (n : nat) : float :=
  PrimFloat.of_uint63 (Uint63.of_Z (Z.of_nat n)).

End Js.
Export Js.

(* ===================================================================== *)
(** ** types.ts                                                           *)
(* ===================================================================== *)

Module VisualElement.
Record t := mk {
  name : string;
  description : string;
  imageUrl : option string
}.
End VisualElement.

Module Scene.
Record t := mk {
  timestamp : number;
  description : string;
  visual_prompt : string;
  timing_rationale : string;
  imageUrl : option string
}.
End Scene.

Inductive AppState : Type :=
| IDLE
| ANALYZING
| DESIGNING_ELEMENTS
| GENERATING_IMAGES
| READY
| ERROR.

Module ProductionDesign.
Record t := mk {
  art_style : string;
  recurring_elements : list VisualElement.t
}.
End ProductionDesign.

Module Storyboard.
Record t := mk {
  title : string;
  production_design : ProductionDesign.t;
  scenes : list Scene.t
}.
End Storyboard.

(** When a parsed value inhabits the declared type [Storyboard] (the cast
    [result as Storyboard] itself checks nothing). *)
Module Shape.

Definition as_string (v : option json) : option string :=
  match v with
  | Some (JString s) => Some s
  | _ => None
  end.

(** An optional string property: absent, or a string. *)
Definition as_optional_string (v : option json) : option (option string) :=
  match v with
  | None => Some None
  | Some (JString s) => Some (Some s)
  | Some _ => None
  end.

Definition as_number (v : option json) : option number :=
  match v with
  | Some (JNumber n) => Some n
  | _ => None
  end.

Fixpoint all_of {A : Type} (read : json -> option A) (items : list json)
  : option (list A) :=
  match items with
  | [] => Some []
  | j :: rest =>
      match read j, all_of read rest with
      | Some a, Some others => Some (a :: others)
      | _, _ => None
      end
  end.

Definition as_VisualElement (j : json) : option VisualElement.t :=
  match j with
  | JObject fs =>
      match as_string (field fs "name"),
            as_string (field fs "description"),
            as_optional_string (field fs "imageUrl") with
      | Some n, Some d, Some i => Some (VisualElement.mk n d i)
      | _, _, _ => None
      end
  | _ => None
  end.

Definition as_Scene (j : json) : option Scene.t :=
  match j with
  | JObject fs =>
      match as_number (field fs "timestamp"),
            as_string (field fs "description"),
            as_string (field fs "visual_prompt"),
            as_string (field fs "timing_rationale"),
            as_optional_string (field fs "imageUrl") with
      | Some t, Some d, Some v, Some r, Some i => Some (Scene.mk t d v r i)
      | _, _, _, _, _ => None
      end
  | _ => None
  end.

Definition as_ProductionDesign (v : option json) : option ProductionDesign.t :=
  match v with
  | Some (JObject fs) =>
      match as_string (field fs "art_style"), field fs "recurring_elements" with
      | Some style, Some (JArray items) =>
          match all_of as_VisualElement items with
          | Some elements => Some (ProductionDesign.mk style elements)
          | None => None
          end
      | _, _ => None
      end
  | _ => None
  end.

Definition as_Storyboard (j : json) : option Storyboard.t :=
  match j with
  | JObject fs =>
      match as_string (field fs "title"),
            as_ProductionDesign (field fs "production_design"),
            field fs "scenes" with
      | Some t, Some design, Some (JArray items) =>
          match all_of as_Scene items with
          | Some scenes => Some (Storyboard.mk t design scenes)
          | None => None
          end
      | _, _, _ => None
      end
  | _ => None
  end.

Definition is_present (v : option json) : bool :=
  match v with
  | Some _ => true
  | None => false
  end.

(** The three properties the response schema marks [required] at top level. *)
Definition has_required_fields (j : json) : bool :=
  match j with
  | JObject fs =>
      is_present (field fs "title")
      && is_present (field fs "production_design")
      && is_present (field fs "scenes")
  | _ => false
  end.

End Shape.

(* ===================================================================== *)
(** ** geminiService.ts                                                   *)
(* ===================================================================== *)

Module GeminiService.

(** What [ai.models.generateContent] is asked.  The instruction prompt of
    the analysis and the model names and configuration are constants of
    the source and are left out. *)
Inductive Request : Type :=
| AnalyzeRequest (data mimeType : string)
| ImageRequest (inlineData : list string) (prompt : string).

(** One part of a candidate: its [inlineData.data], when it has any. *)
Record Part := mkPart { inlineData : option string }.

(** A candidate with its [content?.parts || []]. *)
Record Candidate := mkCandidate { parts : list Part }.

(** What [JSON.parse] makes of a non-empty response text. *)
Inductive Body : Type :=
| Unparseable
| Parsed (j : json).

(** A response: [text] is [None] when the text is absent or empty;
    [candidates] is empty when the property is absent. *)
Record Response := mkResponse {
  text : option Body;
  candidates : list Candidate
}.

Inductive Reply : Type :=
| Rejected (e : JsError)
| Resolved (r : Response).

(** The world outside the program: the requests sent so far and the
    delays slept through so far (both oldest first), and the number of
    object URLs handed out. *)
Record World := mkWorld {
  requests : list Request;
  timers : list Z;
  objectURLs : nat
}.

(** An asynchronous computation, run to completion. *)
Definition Async (A : Type) : Type := World -> World * Completion A.

Definition ret {A : Type} (v : A) : Async A := fun w => (w, Ok v).

Definition throw {A : Type} (e : JsError) : Async A := fun w => (w, Throw e).

Definition bind {A B : Type} (c : Async A) (k : A -> Async B) : Async B :=
  fun w =>
    match c w with
    | (w', Ok v) => k v w'
    | (w', Throw e) => (w', Throw e)
    end.

Definition try_catch {A : Type} (c : Async A) (handler : JsError -> Async A)
  : Async A :=
  fun w =>
    match c w with
    | (w', Ok v) => (w', Ok v)
    | (w', Throw e) => handler e w'
    end.

Definition of_completion {A : Type} (c : Completion A) : Async A :=
  fun w => (w, c).

Declare Scope async_scope.
Delimit Scope async_scope with async.
Notation "x <- c ;; k" := (bind c (fun x => k))
  (at level 61, c at next level, right associativity) : async_scope.
Local Open Scope async_scope.

(** [await new Promise(r => setTimeout(r, ms))]. *)
Definition sleep (ms : Z) : Async unit :=
  fun w => (mkWorld (requests w) (timers w ++ [ms]) (objectURLs w), Ok tt).

Section Client.

Variable coerce : json -> numeric.

(** The service: its reply to the n-th request (counting from 0). *)
Variable service : nat -> Reply.

(** [await this.ai.models.generateContent(...)]. *)
Definition generateContent (req : Request) : Async Response :=
  fun w =>
    let w' := mkWorld (requests w ++ [req]) (timers w) (objectURLs w) in
    match service (List.length (requests w)) with
    | Rejected e => (w', Throw e)
    | Resolved r => (w', Ok r)
    end.

(** [JSON.parse(response.text || "{}")]. *)
Definition JSON_parse_text (t : option Body) : Completion json :=
  match t with
  | None => Ok (JObject [])
  | Some Unparseable => Throw SyntaxError
  | Some (Parsed j) => Ok j
  end.

(** The body of the [try] block of [analyzeAudio]. *)
Definition interpret (t : option Body) : Completion json :=
  match JSON_parse_text t with
  | Throw e => Throw e
  | Ok result =>
      match member result "scenes" with
      | Throw e => Throw e
      | Ok scenes =>
          if truthy scenes then
            match scenes with
            | Some (JArray items) =>
                match sort coerce items with
                | Throw e => Throw e
                | Ok sorted => Ok (with_member result "scenes" (JArray sorted))
                end
            | _ => Throw TypeError   (* [sort] is not a function *)
            end
          else Ok result
      end
  end.

(** Phase 1: analyzes audio to create a textual production design and
    storyboard. *)
Definition analyzeAudio (audioBase64 mimeType : string) : Async json :=
  response <- generateContent (AnalyzeRequest audioBase64 mimeType) ;;
  try_catch (of_completion (interpret (text response)))
    (fun _ => throw (mkError "Failed to interpret audio storyboard.")).

(** [img.split(',')[1] || img]. *)
Definition reference_data (img : string) : string :=
  match nth_error (split_comma img) 1 with
  | Some piece => if String.eqb piece EmptyString then img else piece
  | None => img
  end.

Definition has_inlineData (p : Part) : bool :=
  match inlineData p with
  | Some _ => true
  | None => false
  end.

(** What one attempt makes of the response it received. *)
Definition extract_image (response : Response) : Completion string :=
  match candidates response with
  | [] => Throw (mkError "No output candidate.")
  | candidate :: _ =>
      match find has_inlineData (parts candidate) with
      | Some (mkPart (Some data)) => Ok ("data:image/png;base64," ++ data)%string
      | _ => Throw (mkError "No image data in response.")
      end
  end.

(** The body of the [try] block of [generateImage]: one attempt. *)
Definition attempt_once (prompt : string) (referenceImages : list string)
  : Async string :=
  response <- generateContent
                (ImageRequest (map reference_data referenceImages) prompt) ;;
  of_completion (extract_image response).

(** The [retries] argument.  It is a JS number, and nothing makes it a
    whole one: NaN, -Infinity, or a finite number, carried as the rational
    it denotes.  ([Infinity] is left out.  With it the loop has no last
    attempt, and a call whose attempts all fail never settles: it is not a
    computation that runs to completion.) *)
Inductive Retries : Type :=
| NaN
| MinusInfinity
| Exactly (q : Q).

(** The number a whole number is; [retries = 2] is [integer 2]. *)
Definition integer (z : Z) : Retries := Exactly (inject_Z z).

(** [attempt <= retries], for the whole number [attempt]. *)
Definition within (attempt : Z) (retries : Retries) : bool :=
  match retries with
  | Exactly q => Qle_bool (inject_Z attempt) q
  | _ => false
  end.

(** [attempt === retries]. *)
Definition is_last (attempt : Z) (retries : Retries) : bool :=
  match retries with
  | Exactly q => Qeq_bool (inject_Z attempt) q
  | _ => false
  end.

(** The values of [attempt], from 0 on, that pass the loop condition:
    none for NaN, -Infinity and the negative numbers, else 0, ...,
    floor(retries). *)
Definition iterations (retries : Retries) : nat :=
  match retries with
  | Exactly q => Z.to_nat (Qfloor q + 1)
  | _ => O
  end.

(** How the retry loop is left. *)
Inductive Exit : Type :=
| Returned (image : string)            (* [return] inside the loop *)
| Rethrown (attempt : Z) (err : JsError)  (* [throw err] in the [catch] *)
| FellThrough.                         (* the loop condition failed *)

(** [for (let attempt = 0; attempt <= retries; attempt++)], from the given
    value of [attempt].  [fuel] bounds the evaluations of the loop
    condition; [generateImage] supplies one more than can succeed, so the
    loop is always left by its own tests and never for want of fuel. *)
Fixpoint retry_loop (prompt : string) (referenceImages : list string)
  (retries : Retries) (fuel : nat) (attempt : Z) (w : World) : World * Exit :=
  match fuel with
  | O => (w, FellThrough)
  | S fuel' =>
      if within attempt retries then
        match attempt_once prompt referenceImages w with
        | (w', Ok image) => (w', Returned image)
        | (w', Throw err) =>
            if is_last attempt retries then (w', Rethrown attempt err)
            else
              match sleep (1500 * (attempt + 1)) w' with
              | (w'', _) =>
                  retry_loop prompt referenceImages retries fuel'
                    (attempt + 1) w''
              end
        end
      else (w, FellThrough)
  end.

Definition generateImage_exit (prompt : string) (referenceImages : list string)
  (retries : Retries) : World -> World * Exit :=
  retry_loop prompt referenceImages retries (S (iterations retries)) 0.

(** Generates a single image (for an element or a scene). *)
Definition generateImage (prompt : string) (referenceImages : list string)
  (retries : Retries) : Async string :=
  fun w =>
    match generateImage_exit prompt referenceImages retries w with
    | (w', Returned image) => (w', Ok image)
    | (w', Rethrown _ err) => (w', Throw err)
    | (w', FellThrough) => (w', Throw (mkError "Generation failed."))
    end.

End Client.

End GeminiService.

(* ===================================================================== *)
(** ** App.tsx                                                            *)
(* ===================================================================== *)

Module File.
(** A [File]: [type] is its declared media type, [base64] the payload that
    [FileReader.readAsDataURL] yields after the comma of the data URL. *)
Record t := mk {
  name : string;
  type : string;
  base64 : string
}.
End File.

Module App.
Import GeminiService.
Local Open Scope async_scope.

(** The value of [URL.createObjectURL(file)]: a fresh URL for that file. *)
Record ObjectURL := mkObjectURL { blob : File.t; serial : nat }.

(** The React state of the component at one render: what a subscriber of
    the pipeline sees. *)
Record Snapshot := mkSnapshot {
  state : AppState;
  audioFile : option File.t;
  audioUrl : option ObjectURL;
  storyboard : option Storyboard.t;
  currentSceneIndex : nat;
  progress : Z;
  error : option string
}.

(** [useState] initial values. *)
Definition initial : Snapshot :=
  mkSnapshot IDLE None None None 0 0 None.

Definition setState (v : AppState) (s : Snapshot) : Snapshot :=
  mkSnapshot v (audioFile s) (audioUrl s) (storyboard s)
    (currentSceneIndex s) (progress s) (error s).

Definition setAudioFile (v : option File.t) (s : Snapshot) : Snapshot :=
  mkSnapshot (state s) v (audioUrl s) (storyboard s)
    (currentSceneIndex s) (progress s) (error s).

Definition setAudioUrl (v : option ObjectURL) (s : Snapshot) : Snapshot :=
  mkSnapshot (state s) (audioFile s) v (storyboard s)
    (currentSceneIndex s) (progress s) (error s).

(** [setStoryboard(prev => ...)]; a plain value is the constant update. *)
Definition setStoryboard (f : option Storyboard.t -> option Storyboard.t)
  (s : Snapshot) : Snapshot :=
  mkSnapshot (state s) (audioFile s) (audioUrl s) (f (storyboard s))
    (currentSceneIndex s) (progress s) (error s).

Definition setCurrentSceneIndex (v : nat) (s : Snapshot) : Snapshot :=
  mkSnapshot (state s) (audioFile s) (audioUrl s) (storyboard s)
    v (progress s) (error s).

Definition setProgress (v : Z) (s : Snapshot) : Snapshot :=
  mkSnapshot (state s) (audioFile s) (audioUrl s) (storyboard s)
    (currentSceneIndex s) v (error s).

Definition setError (v : option string) (s : Snapshot) : Snapshot :=
  mkSnapshot (state s) (audioFile s) (audioUrl s) (storyboard s)
    (currentSceneIndex s) (progress s) v.

(** [URL.createObjectURL(file)]. *)
Definition createObjectURL (file : File.t) (w : World) : World * ObjectURL :=
  (mkWorld (requests w) (timers w) (S (objectURLs w)),
   mkObjectURL file (objectURLs w)).

(** [handleFileUpload]; [file] is [e.target.files?.[0]]. *)
Definition handleFileUpload (file : option File.t) (s : Snapshot) (w : World)
  : Snapshot * World :=
  match file with
  | None => (s, w)
  | Some f =>
      if negb (String.prefix "audio/" (File.type f)) then
        (setError (Some "Please upload a valid audio file.") s, w)
      else
        match createObjectURL f w with
        | (w', url) =>
            (setError None (setAudioUrl (Some url) (setAudioFile (Some f) s)), w')
        end
  end.

(** [reset]. *)
Definition reset (s : Snapshot) : Snapshot :=
  setError None
    (setProgress 0
       (setCurrentSceneIndex 0
          (setStoryboard (fun _ => None)
             (setAudioUrl None (setAudioFile None (setState IDLE s)))))).

(** [Math.round((done / total) * 100)], in double arithmetic. *)
Definition percent (done total : nat) : Z :=
  Math_round
    (PrimFloat.mul (PrimFloat.div (number_of_nat done) (number_of_nat total))
       (number_of_nat 100)).

(** A run of [processAudio] so far: the current React state, the states it
    went through before (newest first; a state is pushed there by every
    setter call, so a renderer that batches updates publishes a
    sub-sequence of them), and the outside world. *)
Record Run := mkRun {
  now : Snapshot;
  past : list Snapshot;
  world : World
}.

(** Every state of the run, oldest first. *)
Definition timeline (r : Run) : list Snapshot := rev (now r :: past r).

Definition Task (A : Type) : Type := Run -> Run * Completion A.

(** A setter call: the state it produces becomes the current one. *)
Definition push (f : Snapshot -> Snapshot) (r : Run) : Run :=
  mkRun (f (now r)) (now r :: past r) (world r).

Definition update (f : Snapshot -> Snapshot) : Task unit :=
  fun r => (push f r, Ok tt).

Definition await {A : Type} (c : Async A) : Task A :=
  fun r =>
    match c (world r) with
    | (w', res) => (mkRun (now r) (past r) w', res)
    end.

Definition and_then {A B : Type} (c : Task A) (k : A -> Task B) : Task B :=
  fun r =>
    match c r with
    | (r', Ok v) => k v r'
    | (r', Throw e) => (r', Throw e)
    end.

Definition done {A : Type} (v : A) : Task A := fun r => (r, Ok v).

Declare Scope task_scope.
Delimit Scope task_scope with task.
Notation "x <~ c ;; k" := (and_then c (fun x => k))
  (at level 61, c at next level, right associativity) : task_scope.
Notation "c ;; k" := (and_then c (fun _ => k))
  (at level 61, right associativity) : task_scope.
Local Open Scope task_scope.

Definition newline : string := String (ascii_of_nat 10) EmptyString.
Definition quote : string := String (ascii_of_nat 34) EmptyString.

Definition element_prompt (sb : Storyboard.t) (el : VisualElement.t) : string :=
  ("Production Design: Element Reference Sheet. " ++ newline
   ++ "        Style: "
   ++ ProductionDesign.art_style (Storyboard.production_design sb) ++ ". "
   ++ newline
   ++ "        Subject: " ++ VisualElement.name el ++ ". " ++ newline
   ++ "        Description: " ++ VisualElement.description el ++ ". "
   ++ newline
   ++ "        Show only this subject against a neutral background for reference."
  )%string.

Definition scene_prompt (sb : Storyboard.t) (scene : Scene.t) : string :=
  ("Using the provided visual references for character/element consistency and following the style "
   ++ quote ++ ProductionDesign.art_style (Storyboard.production_design sb)
   ++ quote ++ ", create this scene: " ++ Scene.visual_prompt scene
   ++ ". Maintain perfect visual coherence with the references.")%string.

(** [{ ...el, imageUrl }] and [{ ...scene, imageUrl }]. *)
Definition element_with_image (el : VisualElement.t) (imageUrl : string)
  : VisualElement.t :=
  VisualElement.mk (VisualElement.name el) (VisualElement.description el)
    (Some imageUrl).

Definition scene_with_image (scene : Scene.t) (imageUrl : string) : Scene.t :=
  Scene.mk (Scene.timestamp scene) (Scene.description scene)
    (Scene.visual_prompt scene) (Scene.timing_rationale scene) (Some imageUrl).

(** [{ ...prev, production_design: { ...prev.production_design,
       recurring_elements: updatedElements } }]. *)
Definition with_elements (updatedElements : list VisualElement.t)
  (prev : Storyboard.t) : Storyboard.t :=
  Storyboard.mk (Storyboard.title prev)
    (ProductionDesign.mk
       (ProductionDesign.art_style (Storyboard.production_design prev))
       updatedElements)
    (Storyboard.scenes prev).

(** [{ ...prev, scenes }]. *)
Definition with_scenes (scenes : list Scene.t) (prev : Storyboard.t)
  : Storyboard.t :=
  Storyboard.mk (Storyboard.title prev) (Storyboard.production_design prev)
    scenes.

(** [.map(e => e.imageUrl).filter(Boolean)]: the images that are present
    and not the empty string. *)
Fixpoint present_images (elements : list VisualElement.t) : list string :=
  match elements with
  | [] => []
  | e :: rest =>
      match VisualElement.imageUrl e with
      | Some url =>
          if String.eqb url EmptyString then present_images rest
          else url :: present_images rest
      | None => present_images rest
      end
  end.

Section Pipeline.

(** The client's [analyzeAudio], at its declared type
    [Promise<Storyboard>]; the orchestrator is modelled, as it is typed,
    on values of type [Storyboard]. *)
Variable analyzeAudio : string -> string -> Async Storyboard.t.

Variable service : nat -> Reply.

(** Phase 2, the loop over [sb.production_design.recurring_elements]:
    [pending] are the elements from index [i] on.  [updatedElements] is one
    array shared by all the storyboards published here; it only changes
    (by [push]) right before the next publication, so every published
    state holds it as it is at that moment. *)
Fixpoint design_elements (sb : Storyboard.t) (total : nat)
  (pending : list VisualElement.t) (i : nat)
  (updatedElements : list VisualElement.t) : Task (list VisualElement.t) :=
  match pending with
  | [] => done updatedElements
  | el :: rest =>
      update (setProgress (percent (i + 1) total)) ;;
      imageUrl <~ await (generateImage service (element_prompt sb el) [] (integer 2)) ;;
      let updatedElements := updatedElements ++ [element_with_image el imageUrl] in
      update (setStoryboard (option_map (with_elements updatedElements))) ;;
      design_elements sb total rest (i + 1) updatedElements
  end.

(** Phase 3, the loop over [sb.scenes]: [pending] are the scenes from
    index [i] on. *)
Fixpoint generate_scenes (sb : Storyboard.t) (refImages : list string)
  (total : nat) (pending : list Scene.t) (i : nat)
  (updatedScenes : list Scene.t) : Task unit :=
  match pending with
  | [] => done tt
  | scene :: rest =>
      update (setProgress (percent (i + 1) total)) ;;
      imageUrl <~ await (generateImage service (scene_prompt sb scene) refImages (integer 2)) ;;
      let updatedScenes := updatedScenes ++ [scene_with_image scene imageUrl] in
      update (setStoryboard
                (option_map
                   (with_scenes (updatedScenes ++ skipn (i + 1) (Storyboard.scenes sb))))) ;;
      generate_scenes sb refImages total rest (i + 1) updatedScenes
  end.

(** The [try] block of [processAudio]. *)
Definition pipeline (file : File.t) : Task unit :=
  update (setState ANALYZING) ;;
  update (setError None) ;;
  update (setProgress 5) ;;
  sb <~ await (analyzeAudio (File.base64 file) (File.type file)) ;;
  update (setStoryboard (fun _ => Some sb)) ;;
  (* --- PHASE 2: GENERATE ELEMENT REFERENCES --- *)
  update (setState DESIGNING_ELEMENTS) ;;
  let elements := ProductionDesign.recurring_elements (Storyboard.production_design sb) in
  updatedElements <~ design_elements sb (List.length elements) elements 0 [] ;;
  (* --- PHASE 3: GENERATE COHERENT SCENES --- *)
  update (setState GENERATING_IMAGES) ;;
  let refImages := present_images updatedElements in
  let total := List.length (Storyboard.scenes sb) in
  generate_scenes sb refImages total (Storyboard.scenes sb) 0 [] ;;
  update (setState READY).

(** [err.message || "An error occurred."]. *)
Definition error_text (err : JsError) : string :=
  if String.eqb (message err) EmptyString then "An error occurred."
  else message err.

(** [processAudio], from the state and world it is called in, followed to
    its end.  This covers the runs in which every awaited promise settles
    (the file reader delivers [File.base64]) and in which what is thrown
    is not [null] or [undefined] (the [catch] reads [err.message]); in
    any other run the handler stops in the working state it had
    reached. *)
Definition processAudio (s : Snapshot) (w : World) : Run :=
  let start := mkRun s [] w in
  match audioFile s with
  | None => start
  | Some file =>
      match pipeline file start with
      | (r, Ok _) => r
      | (r, Throw err) =>
          fst ((update (setError (Some (error_text err))) ;;
                update (setState ERROR)) r)
      end
  end.

(** The handler of [onTimeUpdate]:
    [scenes.reduce((p, c, i) => time >= c.timestamp ? i : p, 0)]. *)
Fixpoint scene_at (time : number) (scenes : list Scene.t) (i p : nat) : nat :=
  match scenes with
  | [] => p
  | c :: rest =>
      scene_at time rest (i + 1)
        (if number_leb (Scene.timestamp c) time then i else p)
  end.

Definition onTimeUpdate (time : number) (s : Snapshot) : Snapshot :=
  match storyboard s with
  | None => s
  | Some sb =>
      let idx := scene_at time (Storyboard.scenes sb) 0 0 in
      if Nat.eqb idx (currentSceneIndex s) then s
      else setCurrentSceneIndex idx s
  end.

(** What the user (or the audio element) can make the component do. *)
Inductive Event : Type :=
| FileChosen (file : option File.t)   (* the file input's [onChange] *)
| StartProduction                     (* the button bound to [processAudio] *)
| ResetClicked                        (* either button bound to [reset] *)
| TimeUpdated (time : number).        (* the audio element's [onTimeUpdate] *)

Definition is_state (a b : AppState) : bool :=
  match a, b with
  | IDLE, IDLE | ANALYZING, ANALYZING
  | DESIGNING_ELEMENTS, DESIGNING_ELEMENTS
  | GENERATING_IMAGES, GENERATING_IMAGES
  | READY, READY | ERROR, ERROR => true
  | _, _ => false
  end.

Definition is_some {A : Type} (o : option A) : bool :=
  match o with
  | Some _ => true
  | None => false
  end.

(** [storyboard.scenes[currentSceneIndex]], with a storyboard. *)
Definition shown_scene (s : Snapshot) : option Scene.t :=
  match storyboard s with
  | Some sb => nth_error (Storyboard.scenes sb) (currentSceneIndex s)
  | None => None
  end.

(** Which controls the JSX renders in a state, hence which events can
    occur in it.  The block of the Ready state reads
    [storyboard.scenes[currentSceneIndex].timestamp]: with no scene at
    that index the render of the component throws, and nothing of it is
    rendered, neither the reset button nor the audio element. *)
Definition rendered (s : Snapshot) (e : Event) : bool :=
  match e with
  | FileChosen _ => is_state (state s) IDLE
  | StartProduction => is_state (state s) IDLE && is_some (audioFile s)
  | ResetClicked =>
      is_state (state s) ERROR
      || (is_state (state s) READY && is_some (shown_scene s))
  | TimeUpdated _ => is_state (state s) READY && is_some (shown_scene s)
  end.

(** The state and world once the handler of an event has finished. *)
Definition dispatch (e : Event) (s : Snapshot) (w : World) : Snapshot * World :=
  match e with
  | FileChosen file => handleFileUpload file s w
  | StartProduction =>
      let r := processAudio s w in (now r, world r)
  | ResetClicked => (reset s, w)
  | TimeUpdated time => (onTimeUpdate time s, w)
  end.

End Pipeline.

End App.


(* ===================================================================== *)
(** ** Vocabulary of the properties                                       *)
(* ===================================================================== *)

Import GeminiService App.

(** The outcome of the attempt whose request is the n-th one sent. *)
Definition attempt_result (service : nat -> Reply) (n : nat) : Completion string :=
  match service n with
  | Rejected e => Throw e
  | Resolved r => extract_image r
  end.

(** The first [k] delays of the linear backoff: 1500, 3000, ..., 1500 k. *)
Definition backoff (k : nat) : list Z :=
  map (fun j => (1500 * (Z.of_nat j + 1))%Z) (seq 0 k).

(** The iterations the loop of [generateImage] can still take at [attempt]. *)
Definition iterations_left (retries attempt : Z) : nat :=
  Z.to_nat (retries + 1 - attempt).

(** The world after [n] more image requests [req] and the given delays. *)
Definition after_attempts (w : World) (req : Request) (n : nat) (slept : list Z)
  : World :=
  mkWorld (requests w ++ repeat req n) (timers w ++ slept) (objectURLs w).

(** The timestamp an array element is ordered by when it is a scene. *)
Definition scene_timestamp (j : json) : option number :=
  match Shape.as_Scene j with
  | Some scene => Some (Scene.timestamp scene)
  | None => None
  end.

Definition json_by_timestamp (a b : json) : Prop :=
  match scene_timestamp a, scene_timestamp b with
  | Some x, Some y => number_le x y
  | _, _ => False
  end.

Definition by_timestamp (a b : Scene.t) : Prop :=
  number_le (Scene.timestamp a) (Scene.timestamp b).

(** The response of the scenario: scenes at timestamps 5 and 0. *)
Definition scene_json (t : Z) (caption : string) : json :=
  JObject [("timestamp", JNumber (Finite (inject_Z t)));
           ("timing_rationale", JString "beat");
           ("description", JString caption);
           ("visual_prompt", JString caption)].

Definition scenario_body : json :=
  JObject [("title", JString "X");
           ("production_design",
             JObject [("art_style", JString "noir");
                      ("recurring_elements",
                        JArray [JObject [("name", JString "Hero");
                                         ("description", JString "...")]])]);
           ("scenes", JArray [scene_json 5 "late"; scene_json 0 "early"])].

Definition replies_with (body : json) : nat -> Reply :=
  fun _ => Resolved (mkResponse (Some (Parsed body)) []).

Definition no_coercion : json -> numeric := fun _ => None.

Definition fresh_world : World := mkWorld [] [] 0.

(** A service that rejects every request. *)
Definition always_rejects : nat -> Reply :=
  fun _ => Rejected (mkError "503").

(** A service whose every response carries one inline image. *)
Definition always_draws : nat -> Reply :=
  fun _ => Resolved (mkResponse None [mkCandidate [mkPart (Some "AAAA")]]).

(** *** Runs of the pipeline *)

(** The run with the outside world replaced (an [await] has completed). *)
Definition at_world (r : Run) (w : World) : Run := mkRun (now r) (past r) w.

(** The run when the analysis request is about to be sent. *)
Definition begun (s : Snapshot) (w : World) : Run :=
  push (setProgress 5) (push (setError None) (push (setState ANALYZING) (mkRun s [] w))).

(** The [catch] block of [processAudio]. *)
Definition fail_with (err : JsError) (r : Run) : Run :=
  push (setState ERROR) (push (setError (Some (error_text err))) r).

(** The run when Phase 2 is entered with the storyboard [sb]. *)
Definition designing (sb : Storyboard.t) (r : Run) : Run :=
  push (setState DESIGNING_ELEMENTS) (push (setStoryboard (fun _ => Some sb)) r).

(** Consecutive repetitions removed. *)
Fixpoint compress (l : list AppState) : list AppState :=
  match l with
  | [] => []
  | a :: rest =>
      match rest with
      | [] => [a]
      | b :: _ => if is_state a b then compress rest else a :: compress rest
      end
  end.

(** The pipeline states a run went through, in order, each listed once
    per visit. *)
Definition phases (r : Run) : list AppState :=
  rev (compress (map state (now r :: past r))).

(** The image of the k-th entry, when there is such an entry and it has
    one. *)
Definition image_of_element (elements : list VisualElement.t) (k : nat)
  : option string :=
  match nth_error elements k with
  | Some el => VisualElement.imageUrl el
  | None => None
  end.

Definition image_of_scene (scenes : list Scene.t) (k : nat) : option string :=
  match nth_error scenes k with
  | Some sc => Scene.imageUrl sc
  | None => None
  end.

Definition elements_of (b : Storyboard.t) : list VisualElement.t :=
  ProductionDesign.recurring_elements (Storyboard.production_design b).

Definition element_image (s : Snapshot) (k : nat) : option string :=
  match storyboard s with
  | Some b => image_of_element (elements_of b) k
  | None => None
  end.

Definition scene_image (s : Snapshot) (k : nat) : option string :=
  match storyboard s with
  | Some b => image_of_scene (Storyboard.scenes b) k
  | None => None
  end.

(** From [old] to [new], every entry that Phase 1 delivered without an
    image and that carries one in [old] carries the same one in [new]. *)
Definition keeps_images (sb : Storyboard.t) (old new : Snapshot) : Prop :=
  (forall (k : nat) (u : string),
      image_of_element (elements_of sb) k = None ->
      element_image old k = Some u -> element_image new k = Some u)
  /\ (forall (k : nat) (u : string),
         image_of_scene (Storyboard.scenes sb) k = None ->
         scene_image old k = Some u -> scene_image new k = Some u).

(** [newer] and [older] as they follow each other in [now :: past]. *)
Definition kept_since (sb : Storyboard.t) (newer older : Snapshot) : Prop :=
  keeps_images sb older newer.

(** The storyboard held in the state while Phase 2 has completed the
    elements [updatedElements]. *)
Definition stored_in_phase2 (sb : Storyboard.t)
  (updatedElements : list VisualElement.t) : Storyboard.t :=
  match updatedElements with
  | [] => sb
  | _ :: _ => with_elements updatedElements sb
  end.

(** [el'] is [el] with a generated image attached. *)
Definition attached (el el' : VisualElement.t) : Prop :=
  exists url, el' = element_with_image el url.

(** A storyboard with two recurring elements and two scenes, none with an
    image, and a client whose analysis returns it. *)
Definition hero : VisualElement.t := VisualElement.mk "Hero" "a tired detective" None.
Definition villain : VisualElement.t := VisualElement.mk "Villain" "a tall shadow" None.

Definition opening : Scene.t :=
  Scene.mk (Finite (inject_Z 0)) "rain" "Hero under a street lamp" "first chord" None.
Definition chase : Scene.t :=
  Scene.mk (Finite (inject_Z 5)) "chase" "Villain runs, Hero follows" "drums enter" None.

Definition two_element_board : Storyboard.t :=
  Storyboard.mk "X" (ProductionDesign.mk "noir" [hero; villain]) [opening; chase].

Definition one_element_board : Storyboard.t :=
  Storyboard.mk "X" (ProductionDesign.mk "noir" [hero]) [opening; chase].

Definition analysis_returns (sb : Storyboard.t) : string -> string -> Async Storyboard.t :=
  fun data mimeType w =>
    (mkWorld (requests w ++ [AnalyzeRequest data mimeType]) (timers w) (objectURLs w),
     Ok sb).

Definition song : File.t := File.mk "song.mp3" "audio/mpeg" "SUQzBAA".

(** The state in which the start button is pressed: Idle, a file chosen. *)
Definition ready_to_start : Snapshot :=
  mkSnapshot IDLE (Some song) (Some (mkObjectURL song 0)) None 0 0 None.

(** What remains true in each of the four ways a run goes. *)
Inductive Outcome (analyzeAudio : string -> string -> Async Storyboard.t)
  (service : nat -> Reply) (s : Snapshot) (w : World) (run : Run) : Prop :=
| AnalysisFailed (f : File.t) (w1 : World) (e : JsError) :
    audioFile s = Some f ->
    analyzeAudio (File.base64 f) (File.type f) w = (w1, Throw e) ->
    phases run = [IDLE; ANALYZING; ERROR] ->
    (forall x, In x (now run :: past run) -> storyboard x = storyboard s) ->
    Outcome analyzeAudio service s w run
| DesignFailed (f : File.t) (w1 : World) (sb : Storyboard.t)
    (completed : list VisualElement.t) :
    audioFile s = Some f ->
    analyzeAudio (File.base64 f) (File.type f) w = (w1, Ok sb) ->
    phases run = [IDLE; ANALYZING; DESIGNING_ELEMENTS; ERROR] ->
    (storyboard s = None -> Sorted (kept_since sb) (now run :: past run)) ->
    Forall2 attached (firstn (List.length completed) (elements_of sb)) completed ->
    (List.length completed < List.length (elements_of sb))%nat ->
    storyboard (now run) = Some (stored_in_phase2 sb completed) ->
    progress (now run)
    = percent (List.length completed + 1) (List.length (elements_of sb)) ->
    Outcome analyzeAudio service s w run
| ScenesFailed (f : File.t) (w1 : World) (sb : Storyboard.t) :
    audioFile s = Some f ->
    analyzeAudio (File.base64 f) (File.type f) w = (w1, Ok sb) ->
    phases run = [IDLE; ANALYZING; DESIGNING_ELEMENTS; GENERATING_IMAGES; ERROR] ->
    (storyboard s = None -> Sorted (kept_since sb) (now run :: past run)) ->
    Outcome analyzeAudio service s w run
| Completed (f : File.t) (w1 : World) (sb : Storyboard.t) :
    audioFile s = Some f ->
    analyzeAudio (File.base64 f) (File.type f) w = (w1, Ok sb) ->
    phases run = [IDLE; ANALYZING; DESIGNING_ELEMENTS; GENERATING_IMAGES; READY] ->
    (storyboard s = None -> Sorted (kept_since sb) (now run :: past run)) ->
    Outcome analyzeAudio service s w run.

(** The states the component can be in: the initial one, and the state
    left by the handler of any event whose control was rendered (the
    service may behave differently each time). *)
Inductive reachable : Snapshot -> Prop :=
| reachable_initial : reachable initial
| reachable_event (analyzeAudio : string -> string -> Async Storyboard.t)
    (service : nat -> Reply) (s : Snapshot) (e : Event) (w : World) :
    reachable s ->
    rendered s e = true ->
    reachable (fst (dispatch analyzeAudio service e s w)).

(** [typed] is the client's [analyzeAudio] seen at its declared type: it
    throws when the client throws, and returns the Storyboard the client
    returned whenever what the client returned is one. *)
Definition typed_view (untyped : string -> string -> Async json)
  (typed : string -> string -> Async Storyboard.t) : Prop :=
  forall (data mimeType : string) (w : World),
    match untyped data mimeType w with
    | (w', Ok j) =>
        forall sb, Shape.as_Storyboard j = Some sb ->
                   typed data mimeType w = (w', Ok sb)
    | (w', Throw e) => typed data mimeType w = (w', Throw e)
    end.

(** *** Further vocabulary *)

(** The data URL [generateImage] builds around a payload. *)
Definition data_url (data : string) : string :=
  ("data:image/png;base64," ++ data)%string.

Fixpoint has_comma (s : string) : bool :=
  match s with
  | EmptyString => false
  | String c s' => Ascii.eqb c ","%char || has_comma s'
  end.

(** [el'] is [el] with a data URL attached as its image. *)
Definition element_drawn (el el' : VisualElement.t) : Prop :=
  exists data, el' = element_with_image el (data_url data).

Definition scene_drawn (sc sc' : Scene.t) : Prop :=
  exists data, sc' = scene_with_image sc (data_url data).

(** A published scene against the scene Phase 1 delivered: the same, or
    the same with an image attached. *)
Definition scene_progress (sc sc' : Scene.t) : Prop :=
  sc' = sc \/ scene_drawn sc sc'.

(** The published elements against those Phase 1 delivered: the same
    list, or the first ones of it, each with an image attached. *)
Definition elements_progress (original published : list VisualElement.t) : Prop :=
  published = original
  \/ exists drawn_from pending,
       original = drawn_from ++ pending
       /\ Forall2 element_drawn drawn_from published.

Definition design_kept (sb b : Storyboard.t) : Prop :=
  Storyboard.title b = Storyboard.title sb
  /\ ProductionDesign.art_style (Storyboard.production_design b)
     = ProductionDesign.art_style (Storyboard.production_design sb)
  /\ elements_progress (elements_of sb) (elements_of b).

(** A storyboard published in a run whose Phase 1 delivered [sb]. *)
Definition evolved (sb b : Storyboard.t) : Prop :=
  design_kept sb b
  /\ Forall2 scene_progress (Storyboard.scenes sb) (Storyboard.scenes b).

(** The parts of the state a run does not own, as they are in [s]. *)
Definition same_frame (s x : Snapshot) : Prop :=
  audioFile x = audioFile s
  /\ audioUrl x = audioUrl s
  /\ currentSceneIndex x = currentSceneIndex s.

(** A state published by a run started in [s] whose Phase 1 delivered
    [sb]. *)
Definition published_shape (s : Snapshot) (sb : Storyboard.t) (x : Snapshot)
  : Prop :=
  same_frame s x
  /\ (storyboard x = storyboard s
      \/ exists b, storyboard x = Some b /\ evolved sb b).

(** Before Phase 1 has delivered anything. *)
Definition untouched (s x : Snapshot) : Prop :=
  same_frame s x /\ storyboard x = storyboard s.

(** What holds of every state the component can be in. *)
Record consistent (s : Snapshot) : Prop := mkConsistent {
  idle_clean :
    state s = IDLE ->
    storyboard s = None /\ progress s = 0%Z /\ currentSceneIndex s = 0%nat;
  file_is_audio :
    forall f, audioFile s = Some f ->
              String.prefix "audio/" (File.type f) = true
              /\ exists n, audioUrl s = Some (mkObjectURL f n);
  url_has_file : audioFile s = None -> audioUrl s = None;
  ready_complete :
    state s = READY ->
    exists b, storyboard s = Some b
              /\ error s = None
              /\ Forall (fun el => exists data,
                             VisualElement.imageUrl el = Some (data_url data))
                   (elements_of b)
              /\ Forall (fun sc => exists data,
                             Scene.imageUrl sc = Some (data_url data))
                   (Storyboard.scenes b)
              /\ (Storyboard.scenes b <> [] ->
                  (currentSceneIndex s < List.length (Storyboard.scenes b))%nat);
  error_shown :
    state s = ERROR -> exists msg, error s = Some msg /\ msg <> EmptyString
}.

(** A delay of the backoff of a call with the default two retries. *)
Definition default_delay (ms : Z) : Prop := ms = 1500%Z \/ ms = 3000%Z.

(** A request for the reference sheet of one of the given elements: no
    reference image, the element's prompt. *)
Definition element_request (sb : Storyboard.t) (elements : list VisualElement.t)
  (q : Request) : Prop :=
  exists el, In el elements /\ q = ImageRequest [] (element_prompt sb el).

(** A request for the image of one of the given scenes, with the given
    reference payloads. *)
Definition scene_request (sb : Storyboard.t) (refs : list string)
  (scenes : list Scene.t) (q : Request) : Prop :=
  exists sc, In sc scenes /\ q = ImageRequest refs (scene_prompt sb sc).

(** *** The retry loop at any number of retries *)

(** The number is a whole one. *)
Definition whole (q : Q) : Prop := inject_Z (Qfloor q) == q.

(** The attempts answering the [n] requests from the [first]-th on all
    fail. *)
Definition all_fail (service : nat -> Reply) (first n : nat) : Prop :=
  forall j, (j < n)%nat ->
            exists e, attempt_result service (first + j) = Throw e.

(** The values of [attempt], from the given one on, that pass the loop
    condition. *)
Definition iterations_from (retries : Retries) (attempt : Z) : nat :=
  match retries with
  | Exactly q => Z.to_nat (Qfloor q + 1 - attempt)
  | _ => O
  end.

(** The delays slept after the attempts [attempt], ..., [attempt + k - 1]. *)
Definition delays_from (attempt : Z) (k : nat) : list Z :=
  map (fun j => (1500 * (attempt + Z.of_nat j + 1))%Z) (seq 0 k).

(** *** Bodies that [analyzeAudio] can sort *)

(** An array element on which the comparison throws: [null], off which
    [timestamp] cannot be read, or an element whose [timestamp] cannot be
    converted to a number. *)
Definition incomparable (j : json) : bool :=
  match member j "timestamp" with
  | Throw _ => true
  | Ok (Some v) => unconvertible v
  | Ok None => false
  end.

(* ===================================================================== *)
(** ** The retry loop of [generateImage]                                  *)
(* ===================================================================== *)

(** The loop tests at a whole number of retries. *)
Lemma within_integer (attempt retries : Z) :
  within attempt (integer retries) = (attempt <=? retries)%Z.
Proof.
  unfold within, integer. apply eq_true_iff_eq.
  rewrite Qle_bool_iff, Z.leb_le, Zle_Qle. reflexivity.
Qed.

Lemma is_last_integer (attempt retries : Z) :
  is_last attempt (integer retries) = (attempt =? retries)%Z.
Proof.
  unfold is_last, integer. apply eq_true_iff_eq.
  rewrite Qeq_bool_iff, Z.eqb_eq. apply inject_Z_injective.
Qed.

Lemma iterations_integer (retries : Z) :
  iterations (integer retries) = Z.to_nat (retries + 1).
Proof. unfold iterations, integer. rewrite Qfloor_Z. reflexivity. Qed.

Ltac loop_step :=
  cbn [retry_loop]; rewrite ?within_integer, ?is_last_integer.

Ltac loop_step_in H :=
  cbn [retry_loop] in H; rewrite ?within_integer, ?is_last_integer in H.

Section RetryLoop.

Variable service : nat -> Reply.
Variable prompt : string.
Variable referenceImages : list string.
Variable retries : Z.

Let req : Request := ImageRequest (map reference_data referenceImages) prompt.

Lemma attempt_once_run (w : World) :
  attempt_once service prompt referenceImages w =
  (after_attempts w req 1 [], attempt_result service (List.length (requests w))).
Proof.
  unfold attempt_once, bind, generateContent, of_completion, attempt_result,
    after_attempts.
  rewrite app_nil_r. simpl repeat.
  destruct (service (List.length (requests w))); reflexivity.
Qed.

Lemma after_attempts_requests (w : World) (r : Request) (n : nat) (d : list Z) :
  List.length (requests (after_attempts w r n d)) = (List.length (requests w) + n)%nat.
Proof.
  unfold after_attempts. simpl. rewrite length_app, repeat_length. reflexivity.
Qed.

Lemma after_attempts_compose (w : World) (r : Request) (n m : nat) (d e : list Z) :
  after_attempts (after_attempts w r n d) r m e = after_attempts w r (n + m) (d ++ e).
Proof.
  unfold after_attempts. simpl. rewrite repeat_app, !app_assoc. reflexivity.
Qed.

(** One iteration that fails before the last attempt: sleep, then go on. *)
Lemma retry_loop_failed_step (fuel : nat) (attempt : Z) (w : World) (e : JsError) :
  (attempt < retries)%Z ->
  attempt_result service (List.length (requests w)) = Throw e ->
  retry_loop service prompt referenceImages (integer retries) (S fuel) attempt w =
  retry_loop service prompt referenceImages (integer retries) fuel (attempt + 1)
    (after_attempts w req 1 [(1500 * (attempt + 1))%Z]).
Proof.
  intros Hlt Hfail. loop_step.
  replace (attempt <=? retries)%Z with true by (symmetry; apply Z.leb_le; lia).
  rewrite attempt_once_run, Hfail.
  replace (attempt =? retries)%Z with false by (symmetry; apply Z.eqb_neq; lia).
  unfold sleep, after_attempts. simpl. rewrite app_nil_r. reflexivity.
Qed.

(** The fuel [generateImage] supplies is never what ends the loop: any
    amount that covers the iterations left gives the same run. *)
Lemma retry_loop_enough_fuel (f1 f2 : nat) :
  forall (attempt : Z) (w : World),
    (iterations_left retries attempt <= f1)%nat ->
    (iterations_left retries attempt <= f2)%nat ->
    retry_loop service prompt referenceImages (integer retries) f1 attempt w =
    retry_loop service prompt referenceImages (integer retries) f2 attempt w.
Proof.
  revert f2. induction f1 as [|f1 IH]; intros f2 attempt w H1 H2.
  - destruct f2 as [|f2]; [reflexivity|]. loop_step.
    unfold iterations_left in H1.
    replace (attempt <=? retries)%Z with false
      by (symmetry; apply Z.leb_gt; lia).
    reflexivity.
  - destruct f2 as [|f2].
    + loop_step. unfold iterations_left in H2.
      replace (attempt <=? retries)%Z with false
        by (symmetry; apply Z.leb_gt; lia).
      reflexivity.
    + loop_step. destruct (attempt <=? retries)%Z eqn:Hle; [|reflexivity].
      apply Z.leb_le in Hle.
      destruct (attempt_once service prompt referenceImages w) as [w' [image|err]];
        [reflexivity|].
      destruct (attempt =? retries)%Z eqn:Heq; [reflexivity|].
      apply Z.eqb_neq in Heq.
      destruct (sleep (1500 * (attempt + 1)) w') as [w'' u].
      apply IH; unfold iterations_left in *; lia.
Qed.

Lemma backoff_from_shift (a : Z) (k : nat) :
  (1500 * (a + 1))%Z
    :: map (fun j => (1500 * (a + 1 + Z.of_nat j + 1))%Z) (seq 0 k)
  = map (fun j => (1500 * (a + Z.of_nat j + 1))%Z) (seq 0 (S k)).
Proof.
  change (seq 0 (S k)) with (0%nat :: seq 1 k). rewrite map_cons.
  f_equal; [f_equal; lia|].
  rewrite <- seq_shift, map_map. apply map_ext. intros j. f_equal. lia.
Qed.

(** [k] failures from [attempt] on, then a success. *)
Lemma retry_loop_succeeds_after (k : nat) :
  forall (fuel : nat) (attempt : Z) (w : World) (image : string),
    (0 <= attempt)%Z ->
    (attempt + Z.of_nat k <= retries)%Z ->
    (k < fuel)%nat ->
    (forall j, (j < k)%nat ->
               exists e, attempt_result service (List.length (requests w) + j) = Throw e) ->
    attempt_result service (List.length (requests w) + k) = Ok image ->
    retry_loop service prompt referenceImages (integer retries) fuel attempt w =
    (after_attempts w req (k + 1)
       (map (fun j => (1500 * (attempt + Z.of_nat j + 1))%Z) (seq 0 k)),
     Returned image).
Proof.
  induction k as [|k IH]; intros fuel attempt w image H0 Hle Hfuel Hfail Hok.
  - destruct fuel as [|fuel]; [lia|]. loop_step.
    replace (attempt <=? retries)%Z with true by (symmetry; apply Z.leb_le; lia).
    rewrite attempt_once_run. rewrite Nat.add_0_r in Hok. rewrite Hok.
    reflexivity.
  - destruct fuel as [|fuel]; [lia|].
    destruct (Hfail 0%nat ltac:(lia)) as [e He]. rewrite Nat.add_0_r in He.
    rewrite (retry_loop_failed_step fuel attempt w e) by (assumption || lia).
    rewrite (IH fuel (attempt + 1)%Z _ image).
    + rewrite after_attempts_compose. f_equal. f_equal.
      simpl app. apply backoff_from_shift.
    + lia.
    + lia.
    + lia.
    + intros j Hj. rewrite after_attempts_requests.
      destruct (Hfail (S j) ltac:(lia)) as [e' He'].
      exists e'. rewrite <- He'. f_equal. lia.
    + rewrite after_attempts_requests. rewrite <- Hok. f_equal. lia.
Qed.

(** Failures at every attempt from [attempt] to the last. *)
Lemma retry_loop_exhausted (k : nat) :
  forall (fuel : nat) (attempt : Z) (w : World) (e : JsError),
    (0 <= attempt)%Z ->
    (attempt + Z.of_nat k = retries)%Z ->
    (k < fuel)%nat ->
    (forall j, (j < k)%nat ->
               exists e', attempt_result service (List.length (requests w) + j) = Throw e') ->
    attempt_result service (List.length (requests w) + k) = Throw e ->
    retry_loop service prompt referenceImages (integer retries) fuel attempt w =
    (after_attempts w req (k + 1)
       (map (fun j => (1500 * (attempt + Z.of_nat j + 1))%Z) (seq 0 k)),
     Rethrown retries e).
Proof.
  induction k as [|k IH]; intros fuel attempt w e H0 Hle Hfuel Hfail Hlast.
  - destruct fuel as [|fuel]; [lia|]. loop_step.
    replace (attempt <=? retries)%Z with true by (symmetry; apply Z.leb_le; lia).
    rewrite attempt_once_run. rewrite Nat.add_0_r in Hlast. rewrite Hlast.
    replace (attempt =? retries)%Z with true by (symmetry; apply Z.eqb_eq; lia).
    replace attempt with retries by lia. reflexivity.
  - destruct fuel as [|fuel]; [lia|].
    destruct (Hfail 0%nat ltac:(lia)) as [e0 He0]. rewrite Nat.add_0_r in He0.
    rewrite (retry_loop_failed_step fuel attempt w e0) by (assumption || lia).
    rewrite (IH fuel (attempt + 1)%Z _ e).
    + rewrite after_attempts_compose. f_equal. f_equal.
      simpl app. apply backoff_from_shift.
    + lia.
    + lia.
    + lia.
    + intros j Hj. rewrite after_attempts_requests.
      destruct (Hfail (S j) ltac:(lia)) as [e' He'].
      exists e'. rewrite <- He'. f_equal. lia.
    + rewrite after_attempts_requests. rewrite <- Hlast. f_equal. lia.
Qed.

(** However the attempts turn out, a loop entered with [attempt <= retries]
    and fuel for the iterations left is left from inside: by [return], or
    by the [throw err] of the last attempt. *)
Lemma retry_loop_exits_inside (fuel : nat) :
  forall (attempt : Z) (w w' : World) (exit : Exit),
    (0 <= attempt <= retries)%Z ->
    (iterations_left retries attempt <= fuel)%nat ->
    retry_loop service prompt referenceImages (integer retries) fuel attempt w
    = (w', exit) ->
    (exists image, exit = Returned image)
    \/ (exists err,
          exit = Rethrown retries err
          /\ attempt_result service
               (List.length (requests w) + Z.to_nat (retries - attempt)) = Throw err).
Proof.
  induction fuel as [|fuel IH]; intros attempt w w' exit Ha Hfuel Hrun.
  - unfold iterations_left in Hfuel. lia.
  - loop_step_in Hrun.
    replace (attempt <=? retries)%Z with true in Hrun
      by (symmetry; apply Z.leb_le; lia).
    rewrite attempt_once_run in Hrun.
    destruct (attempt_result service (List.length (requests w)))
      as [image|err] eqn:Hres.
    + injection Hrun as _ <-. left. eauto.
    + destruct (attempt =? retries)%Z eqn:Heq.
      * apply Z.eqb_eq in Heq. injection Hrun as _ <-. right.
        exists err. subst attempt. split; [reflexivity|].
        rewrite Z.sub_diag, Nat.add_0_r. exact Hres.
      * apply Z.eqb_neq in Heq.
        destruct (sleep (1500 * (attempt + 1)) (after_attempts w req 1 []))
          as [w'' u] eqn:Hsleep.
        apply IH in Hrun; [| lia | unfold iterations_left in *; lia].
        destruct Hrun as [Hret | [err' [Hex Hlast]]]; [left; exact Hret|].
        right. exists err'. split; [exact Hex|].
        unfold sleep in Hsleep. injection Hsleep as <-.
        simpl in Hlast. rewrite length_app in Hlast. simpl in Hlast.
        rewrite <- Hlast. f_equal.
        replace (retries - attempt)%Z with (Z.succ (retries - (attempt + 1)))%Z by lia.
        rewrite Z2Nat.inj_succ by lia. lia.
Qed.

End RetryLoop.

(** C2. For [maxRetries >= 0]: when the first [k <= maxRetries] attempts
    fail and the next one succeeds, [generateImage] returns that success
    value (after [k + 1] requests and the delays 1500, ..., 1500 k); when
    all [maxRetries + 1] attempts fail, it sends exactly [maxRetries + 1]
    requests, throws the error of the last attempt, and has slept
    1500 ms times the attempt number (1500, 3000, ..., 1500 maxRetries)
    between consecutive attempts. *)
Theorem generateImage_retry_contract :
  forall (service : nat -> Reply) (prompt : string)
         (referenceImages : list string) (maxRetries : Z) (w : World),
    (0 <= maxRetries)%Z ->
    let first := List.length (requests w) in
    let req := ImageRequest (map reference_data referenceImages) prompt in
    (forall (k : nat) (image : string),
        (Z.of_nat k <= maxRetries)%Z ->
        (forall j, (j < k)%nat ->
                   exists e, attempt_result service (first + j) = Throw e) ->
        attempt_result service (first + k) = Ok image ->
        generateImage service prompt referenceImages (integer maxRetries) w =
        (after_attempts w req (k + 1) (backoff k), Ok image))
    /\
    (forall (e : JsError),
        (forall j, (j < Z.to_nat maxRetries)%nat ->
                   exists e', attempt_result service (first + j) = Throw e') ->
        attempt_result service (first + Z.to_nat maxRetries) = Throw e ->
        generateImage service prompt referenceImages (integer maxRetries) w =
        (after_attempts w req (Z.to_nat maxRetries + 1)
           (backoff (Z.to_nat maxRetries)),
         Throw e)).
Proof.
  intros service prompt referenceImages maxRetries w Hpos first req. split.
  - intros k image Hk Hfail Hok.
    unfold generateImage, generateImage_exit. rewrite iterations_integer.
    rewrite (retry_loop_succeeds_after service prompt referenceImages
               maxRetries k _ 0%Z w image); try assumption; try lia.
    reflexivity.
  - intros e Hfail Hlast.
    unfold generateImage, generateImage_exit. rewrite iterations_integer.
    rewrite (retry_loop_exhausted service prompt referenceImages
               maxRetries (Z.to_nat maxRetries) _ 0%Z w e);
      try assumption; try lia.
    reflexivity.
Qed.

Lemma generateImage_retry_contract_witness :
  (0 <= 2)%Z
  /\ generateImage always_rejects "a lighthouse" [] (integer 2) fresh_world =
     (mkWorld (repeat (ImageRequest [] "a lighthouse") 3) [1500; 3000]%Z 0,
      Throw (mkError "503")).
Proof.
  split; [lia|].
  apply (proj2 (generateImage_retry_contract always_rejects "a lighthouse" []
                  2 fresh_world ltac:(lia))).
  - intros j _. exists (mkError "503"). reflexivity.
  - reflexivity.
Defined.

(** As stated, C10 fails: [retries] is a number, not a count.  At
    [retries = 0.5], which is [>= 0], the one attempt made is numbered 0;
    when it fails, [attempt === retries] does not hold, the call sleeps
    1500 ms, the loop condition [1 <= 0.5] fails, and the caller observes
    the generic error of the [throw] after the loop. *)
Lemma generateImage_falls_through_at_a_half :
  (0 <= 1 # 2)%Q
  /\ generateImage_exit always_rejects "a lighthouse" [] (Exactly (1 # 2))
       fresh_world
     = (mkWorld [ImageRequest [] "a lighthouse"] [1500%Z] 0, FellThrough)
  /\ generateImage always_rejects "a lighthouse" [] (Exactly (1 # 2))
       fresh_world
     = (mkWorld [ImageRequest [] "a lighthouse"] [1500%Z] 0,
        Throw (mkError "Generation failed."))
  /\ attempt_result always_rejects 0 = Throw (mkError "503").
Proof.
  split; [discriminate|]. repeat split.
Qed.

(** C10, amended.  For a whole number [retries >= 0] the loop of
    [generateImage] is always left from inside: the call returns an
    image, or rethrows, at the attempt numbered [retries], the error of
    that attempt.  Then the [throw] after the loop is never reached. *)
Theorem generateImage_never_falls_through :
  forall (service : nat -> Reply) (prompt : string)
         (referenceImages : list string) (retries : Z)
         (w w' : World) (exit : Exit),
    (0 <= retries)%Z ->
    generateImage_exit service prompt referenceImages (integer retries) w
    = (w', exit) ->
    exit <> FellThrough
    /\ ((exists image,
            exit = Returned image
            /\ generateImage service prompt referenceImages (integer retries) w
               = (w', Ok image))
        \/ (exists err,
               exit = Rethrown retries err
               /\ attempt_result service
                    (List.length (requests w) + Z.to_nat retries) = Throw err
               /\ generateImage service prompt referenceImages (integer retries) w
                  = (w', Throw err))).
Proof.
  intros service prompt referenceImages retries w w' exit Hpos Hrun.
  pose proof Hrun as Hcase. unfold generateImage_exit in Hcase.
  rewrite iterations_integer in Hcase.
  apply retry_loop_exits_inside in Hcase;
    [| lia | unfold iterations_left; lia].
  rewrite Z.sub_0_r in Hcase.
  destruct Hcase as [[image ->] | [err [-> Hlast]]].
  - split; [discriminate|]. left. exists image. split; [reflexivity|].
    unfold generateImage. rewrite Hrun. reflexivity.
  - split; [discriminate|]. right. exists err.
    split; [reflexivity|]. split; [exact Hlast|].
    unfold generateImage. rewrite Hrun. reflexivity.
Qed.

Lemma generateImage_never_falls_through_witness :
  (0 <= 2)%Z
  /\ generateImage_exit always_rejects "a lighthouse" [] (integer 2) fresh_world
     = (mkWorld (repeat (ImageRequest [] "a lighthouse") 3) [1500; 3000]%Z 0,
        Rethrown 2 (mkError "503"))
  /\ Rethrown 2 (mkError "503") <> FellThrough.
Proof.
  split; [lia|]. split; [reflexivity|].
  exact (proj1 (generateImage_never_falls_through always_rejects
                  "a lighthouse" [] 2 fresh_world _ _ ltac:(lia) eq_refl)).
Defined.

(* ===================================================================== *)
(** ** [handleFileUpload] and [reset]                                     *)
(* ===================================================================== *)

(** C9. A file whose declared media type is not an audio type is rejected
    on the spot: the pipeline state is untouched (Idle, where the file
    input is rendered), the outside world is untouched (no request is
    sent), neither the file nor a URL for it is stored, and the
    validation message becomes the error. *)
Theorem non_audio_file_is_rejected :
  forall (f : File.t) (s : Snapshot) (w : World),
    String.prefix "audio/" (File.type f) = false ->
    let result := handleFileUpload (Some f) s w in
    state (fst result) = state s
    /\ (rendered s (FileChosen (Some f)) = true -> state (fst result) = IDLE)
    /\ snd result = w
    /\ audioFile (fst result) = audioFile s
    /\ audioUrl (fst result) = audioUrl s
    /\ storyboard (fst result) = storyboard s
    /\ progress (fst result) = progress s
    /\ error (fst result) = Some "Please upload a valid audio file.".
Proof.
  intros f s w Htype. unfold handleFileUpload. rewrite Htype. simpl.
  repeat split.
  intros Hidle. destruct (state s); try discriminate Hidle. reflexivity.
Qed.

Lemma non_audio_file_is_rejected_witness :
  String.prefix "audio/" (File.type (File.mk "cover.png" "image/png" "iVBORw0KGgo")) = false
  /\ state (fst (handleFileUpload
                   (Some (File.mk "cover.png" "image/png" "iVBORw0KGgo"))
                   initial fresh_world)) = IDLE
  /\ snd (handleFileUpload
            (Some (File.mk "cover.png" "image/png" "iVBORw0KGgo"))
            initial fresh_world) = fresh_world.
Proof.
  split; [reflexivity|].
  destruct (non_audio_file_is_rejected
              (File.mk "cover.png" "image/png" "iVBORw0KGgo")
              initial fresh_world eq_refl) as (_ & Hidle & Hworld & _).
  split; [exact (Hidle eq_refl) | exact Hworld].
Defined.

(** C8. [reset] yields the same state whatever the state it is called in:
    pipeline state Idle, no storyboard, progress 0, no error (and no audio
    file, no audio URL, scene index 0); hence a second [reset] changes
    nothing. *)
Theorem reset_from_any_state :
  forall s : Snapshot,
    reset s = initial
    /\ state (reset s) = IDLE
    /\ storyboard (reset s) = None
    /\ progress (reset s) = 0%Z
    /\ error (reset s) = None
    /\ reset (reset s) = reset s.
Proof.
  intros s. unfold reset, initial.
  repeat split.
Qed.

(* ===================================================================== *)
(** ** Sorting the scenes in [analyzeAudio]                               *)
(* ===================================================================== *)

Lemma number_le_refl (a : number) : number_le a a.
Proof. destruct a; simpl; auto. apply Qle_refl. Qed.

Lemma number_le_trans (a b c : number) :
  number_le a b -> number_le b c -> number_le a c.
Proof.
  destruct a, b, c; simpl; auto; try contradiction.
  apply Qle_trans.
Qed.

Lemma field_set_field_same (fs : list (string * json)) (k : string) (v0 v : json) :
  field fs k = Some v0 -> field (set_field fs k v) k = Some v.
Proof.
  induction fs as [|[k' v'] fs IH]; simpl; [discriminate|].
  destruct (String.eqb k' k) eqn:Hk; simpl; rewrite Hk; auto.
Qed.

Lemma field_set_field_other (fs : list (string * json)) (k k' : string) (v : json) :
  k' <> k -> field (set_field fs k v) k' = field fs k'.
Proof.
  intros Hne. induction fs as [|[k0 v0] fs IH]; simpl; [reflexivity|].
  destruct (String.eqb k0 k) eqn:Hk; simpl.
  - apply String.eqb_eq in Hk. subst k0.
    replace (String.eqb k k') with false; [reflexivity|].
    symmetry. apply String.eqb_neq. congruence.
  - destruct (String.eqb k0 k'); auto.
Qed.

Lemma field_set_field_present (fs : list (string * json)) (k k' : string) (v v0 : json) :
  field fs k = Some v0 ->
  Shape.is_present (field (set_field fs k v) k') = Shape.is_present (field fs k').
Proof.
  intros Hk. destruct (string_dec k' k) as [->|Hne].
  - rewrite (field_set_field_same fs k v0 v Hk), Hk. reflexivity.
  - rewrite field_set_field_other by assumption. reflexivity.
Qed.

(** An array element that is a scene carries its timestamp as a number. *)
Lemma scene_timestamp_member (a : json) (x : number) :
  scene_timestamp a = Some x ->
  member a "timestamp" = Ok (Some (JNumber x)).
Proof.
  unfold scene_timestamp, Shape.as_Scene. intros H.
  destruct a; try discriminate H. simpl.
  destruct (field fields "timestamp") as [[| | n | | |]|]; simpl in H;
    try discriminate H.
  destruct (Shape.as_string (field fields "description")); try discriminate H.
  destruct (Shape.as_string (field fields "visual_prompt")); try discriminate H.
  destruct (Shape.as_string (field fields "timing_rationale")); try discriminate H.
  destruct (Shape.as_optional_string (field fields "imageUrl")); try discriminate H.
  simpl in H. congruence.
Qed.

Section Sorting.

Variable coerce : json -> numeric.

(** On scenes the comparison never throws and decides the order. *)
Lemma comparefn_on_scenes (a b : json) (x y : number) :
  scene_timestamp a = Some x ->
  scene_timestamp b = Some y ->
  exists c, comparefn coerce a b = Ok c
            /\ (c = Gt -> number_le y x)
            /\ (c <> Gt -> number_le x y).
Proof.
  intros Ha Hb. unfold comparefn.
  rewrite (scene_timestamp_member a x Ha), (scene_timestamp_member b y Hb).
  simpl ToNumber.
  destruct x as [|p|], y as [|q|]; simpl;
    try (eexists; split; [reflexivity|]; split; intros; simpl; auto; congruence).
  exists (p ?= q)%Q. split; [reflexivity|]. split.
  - intros Hgt. apply Qlt_le_weak. rewrite Qgt_alt in *. exact Hgt.
  - intros Hngt. apply Qle_alt. exact Hngt.
Qed.

Lemma insert_permutation (x : json) (l l' : list json) :
  insert coerce x l = Ok l' -> Permutation (x :: l) l'.
Proof.
  revert l'. induction l as [|y l IH]; intros l' H; simpl in H.
  - injection H as <-. apply Permutation_refl.
  - destruct (comparefn coerce x y) as [c|e]; [|discriminate H].
    destruct c; try (injection H as <-; apply Permutation_refl).
    destruct (insert coerce x l) as [r|e]; [|discriminate H].
    injection H as <-.
    eapply Permutation_trans; [apply perm_swap|].
    apply perm_skip. apply IH. reflexivity.
Qed.

Lemma sort_permutation (l l' : list json) :
  sort coerce l = Ok l' -> Permutation l l'.
Proof.
  revert l'. induction l as [|x l IH]; intros l' H; simpl in H.
  - injection H as <-. apply perm_nil.
  - destruct (sort coerce l) as [s|e]; [|discriminate H].
    eapply Permutation_trans; [apply perm_skip, IH; reflexivity|].
    apply insert_permutation. exact H.
Qed.

Lemma insert_keeps_order (x : json) (l l' : list json) :
  (exists t, scene_timestamp x = Some t) ->
  Forall (fun j => exists t, scene_timestamp j = Some t) l ->
  Sorted json_by_timestamp l ->
  insert coerce x l = Ok l' ->
  Sorted json_by_timestamp l'
  /\ (forall z, json_by_timestamp z x -> HdRel json_by_timestamp z l ->
                HdRel json_by_timestamp z l').
Proof.
  intros [tx Hx]. revert l'.
  induction l as [|y l IH]; intros l' Hall Hsorted H; simpl in H.
  - injection H as <-. split; [repeat constructor|].
    intros z Hz _. constructor. exact Hz.
  - inversion Hall as [|? ? [ty Hy] Hall']; subst.
    inversion Hsorted as [|? ? Hsl Hhd]; subst.
    destruct (comparefn_on_scenes x y tx ty Hx Hy) as [c [Hc [Hgt Hle]]].
    rewrite Hc in H.
    assert (Hfront : c <> Gt -> l' = x :: y :: l).
    { intros Hn. destruct c; try congruence. }
    destruct c.
    + rewrite (Hfront ltac:(discriminate)). split.
      * constructor; [assumption|]. constructor.
        unfold json_by_timestamp. rewrite Hx, Hy. apply Hle. discriminate.
      * intros z Hz _. constructor. exact Hz.
    + rewrite (Hfront ltac:(discriminate)). split.
      * constructor; [assumption|]. constructor.
        unfold json_by_timestamp. rewrite Hx, Hy. apply Hle. discriminate.
      * intros z Hz _. constructor. exact Hz.
    + destruct (insert coerce x l) as [r|e] eqn:Hins; [|discriminate H].
      injection H as <-.
      destruct (IH r Hall' Hsl eq_refl) as [Hsr Hhdr].
      split.
      * constructor; [exact Hsr|]. apply Hhdr; [|exact Hhd].
        unfold json_by_timestamp. rewrite Hx, Hy. apply Hgt. reflexivity.
      * intros z _ Hzl. inversion Hzl; subst. constructor. assumption.
Qed.

Lemma sort_sorts (l l' : list json) :
  Forall (fun j => exists t, scene_timestamp j = Some t) l ->
  sort coerce l = Ok l' ->
  Sorted json_by_timestamp l'.
Proof.
  revert l'. induction l as [|x l IH]; intros l' Hall H; simpl in H.
  - injection H as <-. constructor.
  - inversion Hall as [|? ? Hx Hall']; subst.
    destruct (sort coerce l) as [s|e] eqn:Hs; [|discriminate H].
    apply (insert_keeps_order x s l' Hx); [| apply IH; auto | exact H].
    eapply Permutation_Forall; [apply sort_permutation; exact Hs | exact Hall'].
Qed.

(** The comparison throws exactly when one of the two elements is
    incomparable. *)
Lemma ToNumber_throws (v : option json) (e : JsError) :
  ToNumber coerce v = Throw e ->
  exists u, v = Some u /\ unconvertible u = true.
Proof.
  destruct v as [u|]; [|discriminate]. intros H. exists u. split; [reflexivity|].
  destruct u as [|[|]| | | |]; simpl in H; try discriminate H;
    match type of H with
    | (if ?c then _ else _) = _ => destruct c eqn:Hc
    end; try discriminate H; simpl; try exact Hc; discriminate Hc.
Qed.

Lemma ToNumber_unconvertible (u : json) :
  unconvertible u = true -> ToNumber coerce (Some u) = Throw TypeError.
Proof.
  intros H. destruct u as [|[|]| | | |]; try discriminate H;
    unfold ToNumber; rewrite H; reflexivity.
Qed.

Lemma comparefn_throws (a b : json) (e : JsError) :
  comparefn coerce a b = Throw e ->
  incomparable a = true \/ incomparable b = true.
Proof.
  unfold comparefn, incomparable. intros H.
  destruct (member a "timestamp") as [ta|ea]; [|left; reflexivity].
  destruct (member b "timestamp") as [tb|eb]; [|right; reflexivity].
  destruct (ToNumber coerce ta) as [x|ex] eqn:Hx.
  - destruct (ToNumber coerce tb) as [y|ey] eqn:Hy.
    + destruct (subtract_sign x y); discriminate H.
    + right. destruct (ToNumber_throws tb ey Hy) as [u [-> Hu]]. exact Hu.
  - left. destruct (ToNumber_throws ta ex Hx) as [u [-> Hu]]. exact Hu.
Qed.

Lemma comparefn_incomparable (a b : json) :
  incomparable a = true \/ incomparable b = true ->
  exists e, comparefn coerce a b = Throw e.
Proof.
  unfold comparefn, incomparable. intros H.
  destruct (member a "timestamp") as [ta|ea]; [|eauto].
  destruct (member b "timestamp") as [tb|eb]; [|eauto].
  destruct H as [H|H].
  - destruct ta as [u|]; [|discriminate H].
    rewrite (ToNumber_unconvertible u H). eauto.
  - destruct tb as [u|]; [|discriminate H].
    rewrite (ToNumber_unconvertible u H).
    destruct (ToNumber coerce ta); eauto.
Qed.

Lemma insert_throws (x : json) (l : list json) (e : JsError) :
  insert coerce x l = Throw e ->
  l <> []
  /\ (incomparable x = true \/ Exists (fun j => incomparable j = true) l).
Proof.
  induction l as [|y l IH]; intros H; simpl in H; [discriminate H|].
  split; [discriminate|].
  destruct (comparefn coerce x y) as [c|e'] eqn:Hc.
  - destruct c; try discriminate H.
    destruct (insert coerce x l) as [rest|e''] eqn:Hi; [discriminate H|].
    destruct (IH H) as [_ [Hx|Hin]];
      [left; exact Hx|right; apply Exists_cons_tl; exact Hin].
  - destruct (comparefn_throws x y e' Hc) as [Hx|Hy];
      [left; exact Hx|right; apply Exists_cons_hd; exact Hy].
Qed.

Lemma exists_permutation {A : Type} (P : A -> Prop) (l l' : list A) :
  Permutation l l' -> Exists P l -> Exists P l'.
Proof.
  intros Hperm H. apply Exists_exists in H. destruct H as [x [Hin Hx]].
  apply Exists_exists. exists x. split; [|exact Hx].
  eapply Permutation_in; eassumption.
Qed.

(** [sort] fails only on an array of two or more elements one of which
    is incomparable ... *)
Lemma sort_throws (l : list json) (e : JsError) :
  sort coerce l = Throw e ->
  (2 <= List.length l)%nat /\ Exists (fun j => incomparable j = true) l.
Proof.
  induction l as [|x rest IH]; intros H; simpl in H; [discriminate H|].
  destruct (sort coerce rest) as [s|e'] eqn:Hs.
  - pose proof (sort_permutation rest s Hs) as Hperm.
    destruct (insert_throws x s e H) as [Hne Hbad].
    split.
    + destruct s as [|y s']; [contradiction|].
      apply Permutation_length in Hperm. simpl in *. lia.
    + destruct Hbad as [Hx|Hin]; [apply Exists_cons_hd; exact Hx|].
      apply Exists_cons_tl.
      eapply exists_permutation; [apply Permutation_sym; exact Hperm|exact Hin].
  - destruct (IH H) as [Hlen Hin].
    split; [simpl; lia|apply Exists_cons_tl; exact Hin].
Qed.

(** ... and on every such array: whatever the order of the comparisons,
    each element of an array of two or more is compared at least once. *)
Lemma sort_with_incomparable_throws (l : list json) :
  Exists (fun j => incomparable j = true) l ->
  (2 <= List.length l)%nat ->
  exists e, sort coerce l = Throw e.
Proof.
  induction l as [|x rest IH]; intros Hin Hlen; [inversion Hin|].
  simpl. destruct (sort coerce rest) as [s|e] eqn:Hs; [|eauto].
  pose proof (sort_permutation rest s Hs) as Hperm.
  destruct s as [|y s'].
  { apply Permutation_sym, Permutation_nil in Hperm. subst rest.
    simpl in Hlen. lia. }
  simpl. inversion Hin as [? ? Hx|? ? Hrest]; subst.
  - destruct (comparefn_incomparable x y (or_introl Hx)) as [e ->]. eauto.
  - destruct rest as [|r1 [|r2 rest']].
    + inversion Hrest.
    + apply Permutation_length_1_inv in Hperm. injection Hperm as -> ->.
      inversion Hrest as [? ? Hr|? ? Hnil]; subst; [|inversion Hnil].
      destruct (comparefn_incomparable x r1 (or_intror Hr)) as [e ->]. eauto.
    + destruct (IH Hrest ltac:(simpl; lia)) as [e He]. congruence.
Qed.

(** An array of two or more with a [null] in it cannot be sorted: the
    comparison reads [timestamp] off the [null]. *)
Lemma sort_with_null_throws (l : list json) :
  In JNull l -> (2 <= List.length l)%nat -> exists e, sort coerce l = Throw e.
Proof.
  intros Hin Hlen. apply sort_with_incomparable_throws; [|exact Hlen].
  apply Exists_exists. exists JNull. split; [exact Hin|reflexivity].
Qed.

Lemma sort_returns (l : list json) :
  (List.length l < 2)%nat \/ Forall (fun j => incomparable j = false) l ->
  exists sorted, sort coerce l = Ok sorted /\ Permutation l sorted.
Proof.
  intros Hcan. destruct (sort coerce l) as [sorted|e] eqn:Hs.
  - exists sorted. split; [reflexivity|]. apply sort_permutation. exact Hs.
  - exfalso. destruct (sort_throws l e Hs) as [Hlen Hbad].
    destruct Hcan as [Hshort|Hall]; [lia|].
    apply Exists_exists in Hbad. destruct Hbad as [j [Hin Hj]].
    rewrite Forall_forall in Hall. rewrite (Hall j Hin) in Hj. discriminate Hj.
Qed.

End Sorting.

Lemma json_by_timestamp_trans : Relations_1.Transitive json_by_timestamp.
Proof.
  intros a b c. unfold json_by_timestamp.
  destruct (scene_timestamp a), (scene_timestamp b), (scene_timestamp c);
    try contradiction; auto.
  apply number_le_trans.
Qed.

Lemma all_of_scenes_members (l : list json) (scs : list Scene.t) :
  Shape.all_of Shape.as_Scene l = Some scs ->
  Forall (fun j => exists t, scene_timestamp j = Some t) l.
Proof.
  revert scs. induction l as [|j l IH]; intros scs H; [constructor|].
  simpl in H. destruct (Shape.as_Scene j) as [sc|] eqn:Hj; [|discriminate H].
  destruct (Shape.all_of Shape.as_Scene l) as [rest|]; [|discriminate H].
  constructor; [|eapply IH; reflexivity].
  exists (Scene.timestamp sc). unfold scene_timestamp. rewrite Hj. reflexivity.
Qed.

Lemma all_of_scenes_sorted (l : list json) (scs : list Scene.t) :
  Shape.all_of Shape.as_Scene l = Some scs ->
  StronglySorted json_by_timestamp l ->
  StronglySorted by_timestamp scs.
Proof.
  revert scs. induction l as [|j l IH]; intros scs H Hs; simpl in H.
  - injection H as <-. constructor.
  - destruct (Shape.as_Scene j) as [sc|] eqn:Hj; [|discriminate H].
    destruct (Shape.all_of Shape.as_Scene l) as [rest|] eqn:Hl; [|discriminate H].
    injection H as <-. inversion Hs as [|? ? Hsl Hall]; subst.
    constructor; [apply IH; auto|].
    clear IH Hs Hsl. revert rest Hl.
    induction l as [|j' l IH']; intros rest Hl; simpl in Hl.
    + injection Hl as <-. constructor.
    + destruct (Shape.as_Scene j') as [sc'|] eqn:Hj'; [|discriminate Hl].
      destruct (Shape.all_of Shape.as_Scene l) as [rest'|]; [|discriminate Hl].
      injection Hl as <-. inversion Hall as [|? ? Hjj' Hall']; subst.
      constructor; [|apply IH'; auto].
      unfold json_by_timestamp, scene_timestamp in Hjj'.
      rewrite Hj, Hj' in Hjj'. exact Hjj'.
Qed.

Lemma all_of_permutation {A : Type} (read : json -> option A) (l l' : list json) :
  Permutation l l' ->
  forall xs, Shape.all_of read l = Some xs ->
             exists xs', Shape.all_of read l' = Some xs' /\ Permutation xs xs'.
Proof.
  induction 1 as [| j l l' Hp IH | a b l | l l' l'' Hp1 IH1 Hp2 IH2]; intros xs H.
  - exists xs. split; [exact H|]. simpl in H. injection H as <-. constructor.
  - simpl in H. destruct (read j) as [x|] eqn:Hj; [|discriminate H].
    destruct (Shape.all_of read l) as [rest|]; [|discriminate H].
    injection H as <-. destruct (IH rest eq_refl) as [rest' [Hr Hperm]].
    exists (x :: rest'). simpl. rewrite Hj, Hr. split; [reflexivity|].
    apply perm_skip. exact Hperm.
  - simpl in H. destruct (read b) as [y|] eqn:Hb; [|discriminate H].
    destruct (read a) as [x|] eqn:Ha; [|discriminate H].
    destruct (Shape.all_of read l) as [rest|] eqn:Hl; [|discriminate H].
    injection H as <-. exists (x :: y :: rest). simpl.
    rewrite Ha, Hb, Hl. split; [reflexivity|]. apply perm_swap.
  - destruct (IH1 xs H) as [ys [Hy Hp]].
    destruct (IH2 ys Hy) as [zs [Hz Hq]].
    exists zs. split; [exact Hz|]. eapply Permutation_trans; eassumption.
Qed.

Lemma strongly_sorted_by_index {A : Type} (R : A -> A -> Prop) (l : list A) :
  StronglySorted R l ->
  forall (i j : nat) (a b : A),
    (i < j)%nat -> nth_error l i = Some a -> nth_error l j = Some b -> R a b.
Proof.
  induction 1 as [|x l Hs IH Hall]; intros i j a b Hij Ha Hb.
  - destruct i; discriminate Ha.
  - destruct j as [|j]; [lia|]. simpl in Hb. destruct i as [|i].
    + simpl in Ha. injection Ha as <-.
      rewrite Forall_forall in Hall. apply Hall.
      eapply nth_error_In. exact Hb.
    + simpl in Ha. apply (IH i j); auto. lia.
Qed.

(* ===================================================================== *)
(** ** [analyzeAudio]                                                     *)
(* ===================================================================== *)

Section Analysis.

Variable coerce : json -> numeric.
Variable service : nat -> Reply.

(** One request, no delay; what is thrown inside the [try] is replaced by
    the analysis error, a rejection of the request is not. *)
Lemma analyzeAudio_run (audioBase64 mimeType : string) (w : World) :
  analyzeAudio coerce service audioBase64 mimeType w =
  (mkWorld (requests w ++ [AnalyzeRequest audioBase64 mimeType]) (timers w)
     (objectURLs w),
   match service (List.length (requests w)) with
   | Rejected e => Throw e
   | Resolved r =>
       match interpret coerce (text r) with
       | Ok result => Ok result
       | Throw _ => Throw (mkError "Failed to interpret audio storyboard.")
       end
   end).
Proof.
  unfold analyzeAudio, bind, generateContent, try_catch, of_completion, throw.
  destruct (service (List.length (requests w))) as [e|r]; [reflexivity|].
  destruct (interpret coerce (text r)); reflexivity.
Qed.

(** The two ways [interpret] returns: the parsed value as it is, its
    [scenes] being falsy; or an object whose [scenes] array was sorted. *)
Lemma interpret_returns (t : option Body) (result : json) :
  interpret coerce t = Ok result ->
  exists body,
    JSON_parse_text t = Ok body
    /\ ((exists scenes, member body "scenes" = Ok scenes
                        /\ truthy scenes = false /\ result = body)
        \/ (exists fs items sorted,
               body = JObject fs
               /\ field fs "scenes" = Some (JArray items)
               /\ sort coerce items = Ok sorted
               /\ result = JObject (set_field fs "scenes" (JArray sorted)))).
Proof.
  unfold interpret. intros H.
  destruct (JSON_parse_text t) as [body|e]; [|discriminate H].
  exists body. split; [reflexivity|].
  destruct (member body "scenes") as [scenes|e] eqn:Hm; [|discriminate H].
  destruct (truthy scenes) eqn:Ht.
  - right. destruct scenes as [[| | | |items|]|]; try discriminate H.
    destruct (sort coerce items) as [sorted|e] eqn:Hs; [|discriminate H].
    injection H as <-.
    destruct body; simpl in Hm; try discriminate Hm.
    injection Hm as Hm. exists fields, items, sorted. auto.
  - left. injection H as <-. exists scenes. auto.
Qed.

End Analysis.

(** C1. Whenever [analyzeAudio] returns a Storyboard, its scenes are in
    ascending order of timestamp (for all i < j, the timestamp of scene i
    is at most that of scene j), whatever order the service sent them in:
    they are the scenes received, rearranged, and title and production
    design are as received.  The response of the scenario, with scenes at
    timestamps 5 and 0, is returned with its scenes in the order 0, 5. *)
Theorem analyzeAudio_sorts_scenes :
  (forall (coerce : json -> numeric) (service : nat -> Reply)
          (audioBase64 mimeType : string) (w w' : World)
          (result : json) (sb : Storyboard.t),
      analyzeAudio coerce service audioBase64 mimeType w = (w', Ok result) ->
      Shape.as_Storyboard result = Some sb ->
      (forall (i j : nat) (a b : Scene.t),
          (i < j)%nat ->
          nth_error (Storyboard.scenes sb) i = Some a ->
          nth_error (Storyboard.scenes sb) j = Some b ->
          number_le (Scene.timestamp a) (Scene.timestamp b))
      /\ (exists (r : Response) (body : json) (received : Storyboard.t),
             service (List.length (requests w)) = Resolved r
             /\ text r = Some (Parsed body)
             /\ Shape.as_Storyboard body = Some received
             /\ Permutation (Storyboard.scenes received) (Storyboard.scenes sb)
             /\ Storyboard.title sb = Storyboard.title received
             /\ Storyboard.production_design sb
                = Storyboard.production_design received))
  /\ (exists (w' : World) (result : json) (sb : Storyboard.t),
         analyzeAudio no_coercion (replies_with scenario_body)
           "SUQzBAA" "audio/mpeg" fresh_world = (w', Ok result)
         /\ Shape.as_Storyboard result = Some sb
         /\ map Scene.timestamp (Storyboard.scenes sb)
            = [Finite (inject_Z 0); Finite (inject_Z 5)]).
Proof.
  split.
  - intros coerce service audioBase64 mimeType w w' result sb Hrun Hshape.
    rewrite analyzeAudio_run in Hrun. injection Hrun as _ Hres.
    destruct (service (List.length (requests w))) as [e|r] eqn:Hsvc;
      [discriminate Hres|].
    destruct (interpret coerce (text r)) as [res|e] eqn:Hint;
      [|discriminate Hres].
    injection Hres as ->.
    apply interpret_returns in Hint.
    destruct Hint as [body [Hparse [[scenes [Hm [Hfalsy ->]]] | Hsorted]]].
    + (* a value with falsy [scenes] is no Storyboard *)
      exfalso. unfold Shape.as_Storyboard in Hshape.
      destruct body as [| | | | |fs]; try discriminate Hshape.
      simpl in Hm. injection Hm as <-.
      destruct (Shape.as_string (field fs "title")); [|discriminate Hshape].
      destruct (Shape.as_ProductionDesign (field fs "production_design"));
        [|discriminate Hshape].
      destruct (field fs "scenes") as [[| | | |items|]|];
        try discriminate Hshape; discriminate Hfalsy.
    + destruct Hsorted as (fs & items & sorted & -> & Hitems & Hsort & ->).
      unfold Shape.as_Storyboard in Hshape.
      rewrite !field_set_field_other in Hshape by discriminate.
      rewrite (field_set_field_same fs "scenes" _ _ Hitems) in Hshape.
      destruct (Shape.as_string (field fs "title")) as [ttl|] eqn:Httl;
        [|discriminate Hshape].
      destruct (Shape.as_ProductionDesign (field fs "production_design"))
        as [design|] eqn:Hdesign; [|discriminate Hshape].
      destruct (Shape.all_of Shape.as_Scene sorted) as [scs|] eqn:Hscs;
        [|discriminate Hshape].
      injection Hshape as <-. simpl.
      pose proof (sort_permutation coerce items sorted Hsort) as Hperm.
      assert (Hmembers : Forall (fun j => exists t, scene_timestamp j = Some t) items).
      { eapply Permutation_Forall; [apply Permutation_sym; exact Hperm|].
        eapply all_of_scenes_members. exact Hscs. }
      split.
      * apply strongly_sorted_by_index.
        change (StronglySorted by_timestamp scs).
        apply (all_of_scenes_sorted sorted); [exact Hscs|].
        apply Sorted_StronglySorted; [exact json_by_timestamp_trans|].
        eapply sort_sorts; eassumption.
      * destruct (all_of_permutation Shape.as_Scene sorted items
                    (Permutation_sym Hperm) scs Hscs) as [scs0 [Hscs0 Hp0]].
        destruct (text r) as [[|body]|] eqn:Htext; simpl in Hparse;
          try discriminate Hparse.
        -- injection Hparse as ->.
           exists r, (JObject fs), (Storyboard.mk ttl design scs0).
           split; [reflexivity|]. split; [exact Htext|]. split.
           ++ unfold Shape.as_Storyboard.
              rewrite Httl, Hdesign, Hitems, Hscs0. reflexivity.
           ++ simpl. split; [apply Permutation_sym; exact Hp0|]. auto.
        -- injection Hparse as <-. discriminate Hitems.
  - eexists. eexists. eexists. split; [reflexivity|].
    split; [reflexivity|]. reflexivity.
Qed.

Lemma analyzeAudio_sorts_scenes_witness :
  exists (w' : World) (result : json) (sb : Storyboard.t),
    analyzeAudio no_coercion (replies_with scenario_body)
      "SUQzBAA" "audio/mpeg" fresh_world = (w', Ok result)
    /\ Shape.as_Storyboard result = Some sb
    /\ (forall (i j : nat) (a b : Scene.t),
           (i < j)%nat ->
           nth_error (Storyboard.scenes sb) i = Some a ->
           nth_error (Storyboard.scenes sb) j = Some b ->
           number_le (Scene.timestamp a) (Scene.timestamp b)).
Proof.
  eexists. eexists. eexists.
  split; [reflexivity|]. split; [reflexivity|].
  exact (proj1 (proj1 analyzeAudio_sorts_scenes no_coercion
                  (replies_with scenario_body) "SUQzBAA" "audio/mpeg"
                  fresh_world _ _ _ eq_refl eq_refl)).
Defined.

(** As stated, C3 fails: a body that parses but has none of the required
    fields (here the empty object) is returned, not rejected. *)
Lemma analyzeAudio_accepts_missing_fields :
  analyzeAudio no_coercion (replies_with (JObject []))
    "SUQzBAA" "audio/mpeg" fresh_world
  = (mkWorld [AnalyzeRequest "SUQzBAA" "audio/mpeg"] [] 0, Ok (JObject []))
  /\ Shape.has_required_fields (JObject []) = false
  /\ Shape.as_Storyboard (JObject []) = None.
Proof. repeat split. Qed.

(** C3, amended.  [analyzeAudio] never retries: whatever the response, it
    sends exactly one request and sleeps through no delay; a rejected
    request fails with the rejection itself.  On a received response,
    every failure is the analysis error.  It fails when the text is
    malformed JSON, and, when the text parses, exactly in three cases:
    the body is [null]; its [scenes] is truthy and not an array; its
    [scenes] is an array of two or more elements one of which cannot be
    compared, because it is [null] or because its [timestamp] is an
    array or object that cannot be converted to a number.  In every
    other case the body is returned, unchecked against the Storyboard
    shape: as it is when [scenes] is falsy (so an absent or empty text,
    read as the empty object, is returned as the empty object), and else
    with its [scenes] array rearranged.  What is returned has every
    property other than [scenes] as the body had it, and has [scenes]
    exactly when the body had it; so each of the required fields is
    there exactly when it was received. *)
Theorem analyzeAudio_rejects_malformed_json_only :
  forall (coerce : json -> numeric) (service : nat -> Reply)
         (audioBase64 mimeType : string) (w : World),
    let run := analyzeAudio coerce service audioBase64 mimeType w in
    let reply := service (List.length (requests w)) in
    let failed : Completion json :=
      Throw (mkError "Failed to interpret audio storyboard.") in
    fst run
    = mkWorld (requests w ++ [AnalyzeRequest audioBase64 mimeType])
        (timers w) (objectURLs w)
    /\ (forall e : JsError, reply = Rejected e -> snd run = Throw e)
    /\ (forall r : Response,
           reply = Resolved r ->
           (text r = Some Unparseable -> snd run = failed)
           /\ (text r = None -> snd run = Ok (JObject []))
           /\ (forall e : JsError, snd run = Throw e -> snd run = failed)
           /\ (forall body : json,
                  JSON_parse_text (text r) = Ok body ->
                  (snd run = failed
                   <-> body = JNull
                       \/ (exists v, member body "scenes" = Ok (Some v)
                                     /\ truthy (Some v) = true
                                     /\ forall items, v <> JArray items)
                       \/ (exists items,
                              member body "scenes" = Ok (Some (JArray items))
                              /\ (2 <= List.length items)%nat
                              /\ Exists (fun j => incomparable j = true)
                                   items))
                  /\ (forall v : option json,
                         member body "scenes" = Ok v -> truthy v = false ->
                         snd run = Ok body)
                  /\ (forall items : list json,
                         member body "scenes" = Ok (Some (JArray items)) ->
                         (List.length items < 2)%nat
                         \/ Forall (fun j => incomparable j = false) items ->
                         exists sorted,
                           Permutation items sorted
                           /\ snd run
                              = Ok (with_member body "scenes" (JArray sorted)))
                  /\ (forall result : json,
                         snd run = Ok result ->
                         (forall key : string,
                             key <> "scenes" ->
                             member result key = member body key)
                         /\ (exists v v' : option json,
                                member body "scenes" = Ok v
                                /\ member result "scenes" = Ok v'
                                /\ Shape.is_present v' = Shape.is_present v)
                         /\ Shape.has_required_fields result
                            = Shape.has_required_fields body))).
Proof.
  intros coerce service audioBase64 mimeType w run reply failed.
  subst run reply failed. rewrite analyzeAudio_run. simpl fst. simpl snd.
  split; [reflexivity|]. split; [intros e ->; reflexivity|].
  intros r ->. split; [|split; [|split]].
  - intros Htext. unfold interpret. rewrite Htext. reflexivity.
  - intros Htext. unfold interpret. rewrite Htext. reflexivity.
  - intros e H. destruct (interpret coerce (text r)); [discriminate H|reflexivity].
  - intros body Hparse.
    assert (Hfalsy : forall v, member body "scenes" = Ok v -> truthy v = false ->
                               interpret coerce (text r) = Ok body).
    { intros v Hm Ht. unfold interpret. rewrite Hparse, Hm, Ht. reflexivity. }
    assert (Harray : forall items sorted,
               member body "scenes" = Ok (Some (JArray items)) ->
               sort coerce items = Ok sorted ->
               interpret coerce (text r)
               = Ok (with_member body "scenes" (JArray sorted))).
    { intros items sorted Hm Hs. unfold interpret.
      rewrite Hparse, Hm. simpl truthy. cbv iota. rewrite Hs. reflexivity. }
    split; [|split; [|split]].
    + split.
      * intros Hfail.
        destruct (interpret coerce (text r)) as [res|e] eqn:Hint;
          [discriminate Hfail|]. clear Hfail.
        unfold interpret in Hint. rewrite Hparse in Hint.
        destruct (member body "scenes") as [scenes|e'] eqn:Hm.
        -- destruct (truthy scenes) eqn:Ht; [|discriminate Hint].
           destruct scenes as [v|]; [|discriminate Ht]. right.
           destruct v as [| | | |items|];
             try (left; eexists; split; [reflexivity|];
                  split; [exact Ht|]; discriminate).
           right. exists items. split; [reflexivity|].
           destruct (sort coerce items) as [sorted|e''] eqn:Hs;
             [discriminate Hint|].
           eapply sort_throws. exact Hs.
        -- left. destruct body; simpl in Hm; try discriminate Hm. reflexivity.
      * intros [-> | [(v & Hm & Ht & Hnot) | (items & Hm & Hlen & Hbad)]];
          unfold interpret; rewrite Hparse.
        -- reflexivity.
        -- rewrite Hm, Ht.
           destruct v as [| | | |items|]; try reflexivity.
           exfalso. apply (Hnot items). reflexivity.
        -- rewrite Hm. simpl truthy. cbv iota.
           destruct (sort_with_incomparable_throws coerce items Hbad Hlen)
             as [e ->].
           reflexivity.
    + intros v Hm Ht. rewrite (Hfalsy v Hm Ht). reflexivity.
    + intros items Hm Hcan.
      destruct (sort_returns coerce items Hcan) as [sorted [Hs Hperm]].
      exists sorted. split; [exact Hperm|].
      rewrite (Harray items sorted Hm Hs). reflexivity.
    + intros result H.
      destruct (interpret coerce (text r)) as [res|e] eqn:Hint; [|discriminate H].
      injection H as ->. apply interpret_returns in Hint.
      destruct Hint as [body' [Hparse' Hcases]].
      rewrite Hparse in Hparse'. injection Hparse' as <-.
      destruct Hcases
        as [[scenes [Hm [_ ->]]] | (fs & items & sorted & -> & Hitems & _ & ->)].
      * split; [reflexivity|]. split; [|reflexivity].
        exists scenes, scenes. auto.
      * split; [|split].
        -- intros key Hkey. simpl.
           rewrite field_set_field_other by assumption. reflexivity.
        -- exists (Some (JArray items)), (Some (JArray sorted)). simpl.
           rewrite Hitems, (field_set_field_same fs "scenes" _ _ Hitems). auto.
        -- unfold Shape.has_required_fields.
           rewrite !(field_set_field_present fs "scenes" _ _ _ Hitems).
           reflexivity.
Qed.

Lemma analyzeAudio_rejects_malformed_json_only_witness :
  analyzeAudio no_coercion
    (fun _ => Resolved (mkResponse (Some Unparseable) []))
    "SUQzBAA" "audio/mpeg" fresh_world
  = (mkWorld [AnalyzeRequest "SUQzBAA" "audio/mpeg"] [] 0,
     Throw (mkError "Failed to interpret audio storyboard."))
  /\ snd (analyzeAudio no_coercion (replies_with JNull)
            "SUQzBAA" "audio/mpeg" fresh_world)
     = Throw (mkError "Failed to interpret audio storyboard.")
  /\ exists sorted,
       Permutation [scene_json 5 "late"; scene_json 0 "early"] sorted
       /\ snd (analyzeAudio no_coercion (replies_with scenario_body)
                 "SUQzBAA" "audio/mpeg" fresh_world)
          = Ok (with_member scenario_body "scenes" (JArray sorted)).
Proof.
  split; [|split].
  - destruct (analyzeAudio_rejects_malformed_json_only no_coercion
                (fun _ => Resolved (mkResponse (Some Unparseable) []))
                "SUQzBAA" "audio/mpeg" fresh_world) as (Hworld & _ & Hreply).
    destruct (Hreply _ eq_refl) as (Hbad & _).
    rewrite (surjective_pairing (analyzeAudio _ _ _ _ _)).
    rewrite Hworld, (Hbad eq_refl). reflexivity.
  - destruct (analyzeAudio_rejects_malformed_json_only no_coercion
                (replies_with JNull)
                "SUQzBAA" "audio/mpeg" fresh_world) as (_ & _ & Hreply).
    destruct (Hreply _ eq_refl) as (_ & _ & _ & Hbody).
    destruct (Hbody JNull eq_refl) as (Hiff & _).
    apply Hiff. left. reflexivity.
  - destruct (analyzeAudio_rejects_malformed_json_only no_coercion
                (replies_with scenario_body)
                "SUQzBAA" "audio/mpeg" fresh_world) as (_ & _ & Hreply).
    destruct (Hreply _ eq_refl) as (_ & _ & _ & Hbody).
    destruct (Hbody scenario_body eq_refl) as (_ & _ & Hsorted & _).
    destruct (Hsorted [scene_json 5 "late"; scene_json 0 "early"] eq_refl)
      as (sorted & Hperm & Hrun).
    + right. repeat constructor.
    + exists sorted. split; [exact Hperm|exact Hrun].
Defined.

(* ===================================================================== *)
(** ** The orchestrator: how a run unfolds                                *)
(* ===================================================================== *)

Lemma is_state_refl (a : AppState) : is_state a a = true.
Proof. destruct a; reflexivity. Qed.

Lemma is_state_eq (a b : AppState) : is_state a b = true -> a = b.
Proof. destruct a, b; simpl; congruence. Qed.

(** A setter that leaves the pipeline state alone adds no phase. *)
Lemma compress_same_head (a : AppState) (l : list AppState) :
  compress (a :: a :: l) = compress (a :: l).
Proof. simpl. rewrite is_state_refl. reflexivity. Qed.

Lemma compress_new_head (a b : AppState) (l : list AppState) :
  is_state a b = false -> compress (a :: b :: l) = a :: compress (b :: l).
Proof. intros H. simpl. rewrite H. reflexivity. Qed.

Lemma keeps_images_same_storyboard (sb : Storyboard.t) (old new : Snapshot) :
  storyboard new = storyboard old -> keeps_images sb old new.
Proof.
  intros H. unfold keeps_images, element_image, scene_image.
  rewrite H. split; auto.
Qed.

Lemma keeps_images_from_nothing (sb : Storyboard.t) (old new : Snapshot) :
  storyboard old = None -> keeps_images sb old new.
Proof.
  intros H. unfold keeps_images, element_image, scene_image.
  rewrite H. split; discriminate.
Qed.

Lemma kept_since_trans (sb : Storyboard.t) :
  Relations_1.Transitive (kept_since sb).
Proof.
  intros a b c [Hab1 Hab2] [Hbc1 Hbc2]. split; intros k u Hk Hu.
  - apply Hab1; auto.
  - apply Hab2; auto.
Qed.

Lemma sorted_cons2 {A : Type} (R : A -> A -> Prop) (x y : A) (l : list A) :
  R x y -> Sorted R (y :: l) -> Sorted R (x :: y :: l).
Proof. intros HR Hs. constructor; [exact Hs|]. constructor. exact HR. Qed.

Lemma with_elements_stored (sb : Storyboard.t) (u u' : list VisualElement.t) :
  with_elements u' (stored_in_phase2 sb u) = with_elements u' sb.
Proof. destruct u; reflexivity. Qed.

Lemma stored_in_phase2_snoc (sb : Storyboard.t) (u : list VisualElement.t)
  (x : VisualElement.t) :
  stored_in_phase2 sb (u ++ [x]) = with_elements (u ++ [x]) sb.
Proof. destruct u; reflexivity. Qed.

Lemma stored_in_phase2_scenes (sb : Storyboard.t) (u : list VisualElement.t) :
  Storyboard.scenes (stored_in_phase2 sb u) = Storyboard.scenes sb.
Proof. destruct u; reflexivity. Qed.

(** Publishing one more completed element keeps every image published
    before. *)
Lemma keeps_images_phase2 (sb : Storyboard.t) (u : list VisualElement.t)
  (x : VisualElement.t) (old new : Snapshot) :
  storyboard old = Some (stored_in_phase2 sb u) ->
  storyboard new = Some (with_elements (u ++ [x]) sb) ->
  keeps_images sb old new.
Proof.
  intros Hold Hnew. unfold keeps_images, element_image, scene_image.
  rewrite Hold, Hnew. split; intros k img Horig Himg.
  - destruct u as [|y u].
    + simpl in Himg. congruence.
    + unfold elements_of in *. simpl in Himg |- *.
      unfold image_of_element in *.
      destruct (nth_error (y :: u) k) as [el|] eqn:Hk; [|discriminate Himg].
      change (y :: u ++ [x]) with ((y :: u) ++ [x]).
      rewrite nth_error_app1; [rewrite Hk; exact Himg|].
      apply nth_error_Some. congruence.
  - rewrite stored_in_phase2_scenes in Himg. congruence.
Qed.

(** Publishing one more rendered scene keeps every image published
    before. *)
Lemma keeps_images_phase3 (sb b : Storyboard.t) (u : list Scene.t)
  (x : Scene.t) (old new : Snapshot) :
  storyboard old = Some b ->
  Storyboard.scenes b = u ++ skipn (List.length u) (Storyboard.scenes sb) ->
  storyboard new
  = Some (with_scenes ((u ++ [x]) ++ skipn (List.length u + 1) (Storyboard.scenes sb)) b) ->
  keeps_images sb old new.
Proof.
  intros Hold Hscenes Hnew. unfold keeps_images, element_image, scene_image.
  rewrite Hold, Hnew. split; intros k img Horig Himg.
  - exact Himg.
  - simpl. rewrite Hscenes in Himg. unfold image_of_scene in *.
    destruct (Nat.lt_ge_cases k (List.length u)) as [Hlt|Hge].
    + rewrite nth_error_app1 in Himg by assumption.
      rewrite nth_error_app1 by (rewrite length_app; simpl; lia).
      rewrite nth_error_app1 by assumption. exact Himg.
    + rewrite nth_error_app2 in Himg by assumption.
      rewrite nth_error_skipn in Himg.
      replace (List.length u + (k - List.length u))%nat with k in Himg by lia.
      congruence.
Qed.

Section Orchestrator.

Variable analyzeAudio : string -> string -> Async Storyboard.t.
Variable service : nat -> Reply.

(** The four ways a run of [processAudio] goes. *)
Lemma processAudio_cases (s : Snapshot) (w : World) (f : File.t) :
  audioFile s = Some f ->
  processAudio analyzeAudio service s w =
  match analyzeAudio (File.base64 f) (File.type f) w with
  | (w1, Throw e) => fail_with e (at_world (begun s w) w1)
  | (w1, Ok sb) =>
      match design_elements service sb (List.length (elements_of sb))
              (elements_of sb) 0 [] (designing sb (at_world (begun s w) w1)) with
      | (r2, Throw e) => fail_with e r2
      | (r2, Ok updatedElements) =>
          match generate_scenes service sb (present_images updatedElements)
                  (List.length (Storyboard.scenes sb)) (Storyboard.scenes sb) 0 []
                  (push (setState GENERATING_IMAGES) r2) with
          | (r3, Throw e) => fail_with e r3
          | (r3, Ok _) => push (setState READY) r3
          end
      end
  end.
Proof.
  intros Hf. unfold processAudio, pipeline. rewrite Hf.
  unfold and_then at 1. unfold update at 1.
  unfold and_then at 1. unfold update at 1.
  unfold and_then at 1. unfold update at 1.
  unfold and_then at 1. unfold await at 1.
  change (world (push (setProgress 5)
            (push (setError None) (push (setState ANALYZING) (mkRun s [] w)))))
    with w.
  destruct (analyzeAudio (File.base64 f) (File.type f) w) as [w1 [sb|e]];
    [|reflexivity].
  unfold and_then at 1. unfold update at 1.
  unfold and_then at 1. unfold update at 1.
  unfold and_then at 1.
  change (push (setState DESIGNING_ELEMENTS) (push (setStoryboard (fun _ => Some sb)) _))
    with (designing sb (at_world (begun s w) w1)).
  fold (elements_of sb).
  destruct (design_elements service sb (List.length (elements_of sb))
              (elements_of sb) 0 [] (designing sb (at_world (begun s w) w1)))
    as [r2 [updatedElements|e]]; [|reflexivity].
  unfold and_then at 1. unfold update at 1.
  unfold and_then at 1.
  destruct (generate_scenes service sb (present_images updatedElements)
              (List.length (Storyboard.scenes sb)) (Storyboard.scenes sb) 0 []
              (push (setState GENERATING_IMAGES) r2)) as [r3 [u|e]];
    reflexivity.
Qed.

End Orchestrator.

Section Loops.

Variable service : nat -> Reply.
Variable sb : Storyboard.t.

(** Phase 2, from any point of the loop: the pipeline state is not
    touched; images published before stay; the state holds the elements
    completed so far and nothing of the pending ones; and when the loop
    throws, the progress is the one set for the element that failed. *)
Lemma design_elements_run (total : nat) (pending : list VisualElement.t) :
  forall (i : nat) (updated : list VisualElement.t) (r r' : Run)
         (res : Completion (list VisualElement.t)),
    storyboard (now r) = Some (stored_in_phase2 sb updated) ->
    design_elements service sb total pending i updated r = (r', res) ->
    state (now r') = state (now r)
    /\ compress (map state (now r' :: past r'))
       = compress (map state (now r :: past r))
    /\ (Sorted (kept_since sb) (now r :: past r) ->
        Sorted (kept_since sb) (now r' :: past r'))
    /\ exists completed : list VisualElement.t,
         Forall2 attached (firstn (List.length completed) pending) completed
         /\ storyboard (now r') = Some (stored_in_phase2 sb (updated ++ completed))
         /\ match res with
            | Ok updatedElements =>
                updatedElements = updated ++ completed
                /\ List.length completed = List.length pending
            | Throw _ =>
                (List.length completed < List.length pending)%nat
                /\ progress (now r')
                   = percent (i + List.length completed + 1) total
            end.
Proof.
  induction pending as [|el rest IH]; intros i updated r r' res Hst Hrun.
  - simpl in Hrun. unfold done in Hrun. injection Hrun as <- <-.
    split; [reflexivity|]. split; [reflexivity|]. split; [auto|].
    exists []. rewrite app_nil_r. split; [constructor|]. auto.
  - simpl in Hrun. unfold and_then at 1 in Hrun. unfold update at 1 in Hrun.
    unfold and_then at 1 in Hrun. unfold await at 1 in Hrun.
    set (p := percent (i + 1) total) in *.
    change (world (push (setProgress p) r)) with (world r) in Hrun.
    destruct (generateImage service (element_prompt sb el) [] (integer 2) (world r))
      as [w' [url|e]].
    + unfold and_then at 1 in Hrun. unfold update at 1 in Hrun.
      set (el' := element_with_image el url) in *.
      set (r2 := push (setStoryboard (option_map (with_elements (updated ++ [el']))))
                   (mkRun (now (push (setProgress p) r))
                      (past (push (setProgress p) r)) w')) in *.
      assert (Hst2 : storyboard (now r2) = Some (stored_in_phase2 sb (updated ++ [el']))).
      { unfold r2, push. simpl. rewrite Hst. simpl.
        rewrite with_elements_stored, stored_in_phase2_snoc. reflexivity. }
      destruct (IH (i + 1)%nat (updated ++ [el']) r2 r' res Hst2 Hrun)
        as (Hstate & Hcomp & Hsorted & completed & Hatt & Hstored & Hres).
      split; [rewrite Hstate; reflexivity|].
      split.
      { rewrite Hcomp. unfold r2, push.
        cbn [map now past state setStoryboard setProgress].
        rewrite !compress_same_head. reflexivity. }
      split.
      { intros Hs. apply Hsorted. unfold r2, push. cbn [now past].
        apply sorted_cons2.
        - apply (keeps_images_phase2 sb updated el'); [exact Hst|].
          simpl. rewrite Hst. simpl. rewrite with_elements_stored. reflexivity.
        - apply sorted_cons2; [|exact Hs].
          apply keeps_images_same_storyboard. reflexivity. }
      exists (el' :: completed). split.
      { simpl. constructor; [exists url; reflexivity | exact Hatt]. }
      split.
      { rewrite Hstored. rewrite <- app_assoc. reflexivity. }
      destruct res as [upd|e].
      * destruct Hres as [-> Hlen]. split.
        -- rewrite <- app_assoc. reflexivity.
        -- simpl. lia.
      * destruct Hres as [Hlen Hprog]. split.
        -- simpl. lia.
        -- rewrite Hprog. f_equal. simpl. lia.
    + injection Hrun as <- <-. unfold push. cbn [now past].
      split; [reflexivity|]. split.
      { cbn [map state setProgress]. apply compress_same_head. }
      split.
      { intros Hs. apply sorted_cons2; [|exact Hs].
        apply keeps_images_same_storyboard. reflexivity. }
      exists []. split; [constructor|]. split.
      { rewrite app_nil_r. exact Hst. }
      split; [simpl; lia|].
      simpl. rewrite Nat.add_0_r. reflexivity.
Qed.

(** Phase 3, from any point of the loop: the pipeline state is not
    touched, images published before stay, and the production design is
    the one Phase 2 left. *)
Lemma generate_scenes_run (refImages : list string) (total : nat)
  (pending : list Scene.t) :
  forall (i : nat) (updated : list Scene.t) (r r' : Run)
         (res : Completion unit) (b : Storyboard.t),
    storyboard (now r) = Some b ->
    Storyboard.scenes b = updated ++ skipn i (Storyboard.scenes sb) ->
    List.length updated = i ->
    generate_scenes service sb refImages total pending i updated r = (r', res) ->
    state (now r') = state (now r)
    /\ compress (map state (now r' :: past r'))
       = compress (map state (now r :: past r))
    /\ (Sorted (kept_since sb) (now r :: past r) ->
        Sorted (kept_since sb) (now r' :: past r'))
    /\ exists b' : Storyboard.t,
         storyboard (now r') = Some b'
         /\ Storyboard.production_design b' = Storyboard.production_design b
         /\ Storyboard.title b' = Storyboard.title b.
Proof.
  induction pending as [|scene rest IH]; intros i updated r r' res b Hst Hsc Hlen Hrun.
  - simpl in Hrun. unfold done in Hrun. injection Hrun as <- <-.
    split; [reflexivity|]. split; [reflexivity|]. split; [auto|].
    exists b. auto.
  - simpl in Hrun. unfold and_then at 1 in Hrun. unfold update at 1 in Hrun.
    unfold and_then at 1 in Hrun. unfold await at 1 in Hrun.
    set (p := percent (i + 1) total) in *.
    change (world (push (setProgress p) r)) with (world r) in Hrun.
    destruct (generateImage service (scene_prompt sb scene) refImages (integer 2) (world r))
      as [w' [url|e]].
    + unfold and_then at 1 in Hrun. unfold update at 1 in Hrun.
      set (sc' := scene_with_image scene url) in *.
      set (next := (updated ++ [sc']) ++ skipn (i + 1) (Storyboard.scenes sb)) in *.
      set (r2 := push (setStoryboard (option_map (with_scenes next)))
                   (mkRun (now (push (setProgress p) r))
                      (past (push (setProgress p) r)) w')) in *.
      assert (Hst2 : storyboard (now r2) = Some (with_scenes next b)).
      { unfold r2, push. simpl. rewrite Hst. reflexivity. }
      assert (Hlen2 : List.length (updated ++ [sc']) = (i + 1)%nat).
      { rewrite length_app. simpl. lia. }
      destruct (IH (i + 1)%nat (updated ++ [sc']) r2 r' res (with_scenes next b)
                  Hst2 eq_refl Hlen2 Hrun)
        as (Hstate & Hcomp & Hsorted & b' & Hb' & Hdesign & Htitle).
      split; [rewrite Hstate; reflexivity|].
      split.
      { rewrite Hcomp. unfold r2, push.
        cbn [map now past state setStoryboard setProgress].
        rewrite !compress_same_head. reflexivity. }
      split.
      { intros Hs. apply Hsorted. unfold r2, push. cbn [now past].
        apply sorted_cons2.
        - apply (keeps_images_phase3 sb b updated sc'); [exact Hst| |].
          + rewrite Hlen. exact Hsc.
          + simpl. rewrite Hst. simpl. rewrite Hlen. reflexivity.
        - apply sorted_cons2; [|exact Hs].
          apply keeps_images_same_storyboard. reflexivity. }
      exists b'. split; [exact Hb'|]. split; [rewrite Hdesign; reflexivity|].
      rewrite Htitle. reflexivity.
    + injection Hrun as <- <-. unfold push. cbn [now past].
      split; [reflexivity|]. split.
      { cbn [map state setProgress]. apply compress_same_head. }
      split.
      { intros Hs. apply sorted_cons2; [|exact Hs].
        apply keeps_images_same_storyboard. reflexivity. }
      exists b. auto.
Qed.

End Loops.

Lemma compress_fail_with (e : JsError) (r : Run) :
  is_state ERROR (state (now r)) = false ->
  compress (map state (now (fail_with e r) :: past (fail_with e r)))
  = ERROR :: compress (map state (now r :: past r)).
Proof.
  intros H. unfold fail_with, push.
  cbn [map now past state setState setError].
  rewrite compress_new_head by exact H.
  rewrite compress_same_head. reflexivity.
Qed.

Lemma sorted_fail_with (sb : Storyboard.t) (e : JsError) (r : Run) :
  Sorted (kept_since sb) (now r :: past r) ->
  Sorted (kept_since sb) (now (fail_with e r) :: past (fail_with e r)).
Proof.
  intros H. unfold fail_with, push. cbn [now past].
  apply sorted_cons2; [apply keeps_images_same_storyboard; reflexivity|].
  apply sorted_cons2; [apply keeps_images_same_storyboard; reflexivity|].
  exact H.
Qed.

Lemma compress_begun (s : Snapshot) (w w1 : World) :
  state s = IDLE ->
  compress (map state (now (at_world (begun s w) w1) :: past (at_world (begun s w) w1)))
  = [ANALYZING; IDLE].
Proof. intros H. simpl. rewrite H. reflexivity. Qed.

Lemma compress_designing (sb : Storyboard.t) (r : Run) :
  is_state DESIGNING_ELEMENTS (state (now r)) = false ->
  compress (map state (now (designing sb r) :: past (designing sb r)))
  = DESIGNING_ELEMENTS :: compress (map state (now r :: past r)).
Proof.
  intros H. unfold designing, push.
  cbn [map now past state setState setStoryboard].
  rewrite compress_new_head by exact H.
  rewrite compress_same_head. reflexivity.
Qed.

Lemma sorted_begun (sb : Storyboard.t) (s : Snapshot) (w w1 : World) :
  Sorted (kept_since sb)
    (now (at_world (begun s w) w1) :: past (at_world (begun s w) w1)).
Proof.
  unfold at_world, begun, push. cbn [now past].
  repeat (apply sorted_cons2;
          [apply keeps_images_same_storyboard; reflexivity|]).
  repeat constructor.
Qed.

Lemma sorted_designing (sb : Storyboard.t) (r : Run) :
  storyboard (now r) = None ->
  Sorted (kept_since sb) (now r :: past r) ->
  Sorted (kept_since sb) (now (designing sb r) :: past (designing sb r)).
Proof.
  intros Hnone H. unfold designing, push. cbn [now past].
  apply sorted_cons2; [apply keeps_images_same_storyboard; reflexivity|].
  apply sorted_cons2; [|exact H].
  apply keeps_images_from_nothing. exact Hnone.
Qed.

(** Positions in the timeline against positions in [now :: past]. *)
Lemma timeline_pairs (R : Snapshot -> Snapshot -> Prop) (r : Run) :
  (forall x, R x x) ->
  StronglySorted R (now r :: past r) ->
  forall (a b : nat) (earlier later : Snapshot),
    (a <= b)%nat ->
    nth_error (timeline r) a = Some earlier ->
    nth_error (timeline r) b = Some later ->
    R later earlier.
Proof.
  intros Hrefl Hs a b earlier later Hab Ha Hb. unfold timeline in *.
  rewrite nth_error_rev in Ha, Hb.
  destruct (Nat.ltb a (List.length (now r :: past r))) eqn:Hla; [|discriminate Ha].
  destruct (Nat.ltb b (List.length (now r :: past r))) eqn:Hlb; [|discriminate Hb].
  apply Nat.ltb_lt in Hla, Hlb.
  destruct (Nat.eq_dec a b) as [->|Hne].
  - rewrite Ha in Hb. injection Hb as <-. apply Hrefl.
  - eapply (strongly_sorted_by_index R _ Hs); [|exact Hb|exact Ha]. lia.
Qed.

Lemma rendered_start (s : Snapshot) :
  rendered s StartProduction = true ->
  state s = IDLE /\ exists f, audioFile s = Some f.
Proof.
  unfold rendered. intros H. apply andb_prop in H. destruct H as [H1 H2].
  split; [apply is_state_eq; exact H1|].
  destruct (audioFile s) as [f|]; [eauto|discriminate H2].
Qed.


Section Runs.

Variable analyzeAudio : string -> string -> Async Storyboard.t.
Variable service : nat -> Reply.

Lemma compress_push_state (v : AppState) (r : Run) :
  is_state v (state (now r)) = false ->
  compress (map state (now (push (setState v) r) :: past (push (setState v) r)))
  = v :: compress (map state (now r :: past r)).
Proof.
  intros H. unfold push. cbn [map now past state setState].
  apply compress_new_head. exact H.
Qed.

Lemma sorted_push_state (sb : Storyboard.t) (v : AppState) (r : Run) :
  Sorted (kept_since sb) (now r :: past r) ->
  Sorted (kept_since sb)
    (now (push (setState v) r) :: past (push (setState v) r)).
Proof.
  intros H. unfold push. cbn [now past].
  apply sorted_cons2; [apply keeps_images_same_storyboard; reflexivity|].
  exact H.
Qed.

(** Every run started from the Idle state with a file goes one of the
    four ways. *)
Lemma processAudio_outcome (s : Snapshot) (w : World) (f : File.t) :
  state s = IDLE ->
  audioFile s = Some f ->
  Outcome analyzeAudio service s w (processAudio analyzeAudio service s w).
Proof.
  intros Hidle Hf. rewrite (processAudio_cases analyzeAudio service s w f Hf).
  destruct (analyzeAudio (File.base64 f) (File.type f) w) as [w1 [sb|e]] eqn:Han.
  - set (r0 := at_world (begun s w) w1).
    assert (Hc0 : compress (map state (now r0 :: past r0)) = [ANALYZING; IDLE])
      by (apply compress_begun; exact Hidle).
    assert (Hs0 : state (now r0) = ANALYZING) by reflexivity.
    assert (Hst1 : storyboard (now (designing sb r0)) = Some (stored_in_phase2 sb []))
      by reflexivity.
    assert (Hc1 : compress (map state (now (designing sb r0) :: past (designing sb r0)))
                  = [DESIGNING_ELEMENTS; ANALYZING; IDLE]).
    { rewrite compress_designing by (rewrite Hs0; reflexivity).
      rewrite Hc0. reflexivity. }
    assert (Hsorted1 : storyboard s = None ->
                       Sorted (kept_since sb)
                         (now (designing sb r0) :: past (designing sb r0))).
    { intros Hnone. apply sorted_designing; [exact Hnone|]. apply sorted_begun. }
    destruct (design_elements service sb (List.length (elements_of sb))
                (elements_of sb) 0 [] (designing sb r0)) as [r2 res2] eqn:Hd.
    destruct (design_elements_run service sb _ _ _ _ _ _ _ Hst1 Hd)
      as (Hs2 & Hc2 & Hsorted2 & completed & Hatt & Hst2 & Hres2).
    change (state (now (designing sb r0))) with DESIGNING_ELEMENTS in Hs2.
    rewrite Hc1 in Hc2. simpl app in Hst2.
    destruct res2 as [updatedElements|e].
    + destruct Hres2 as [-> Hlen]. change ([] ++ completed) with completed in *.
      set (r3 := push (setState GENERATING_IMAGES) r2).
      assert (Hc3 : compress (map state (now r3 :: past r3))
                    = [GENERATING_IMAGES; DESIGNING_ELEMENTS; ANALYZING; IDLE]).
      { unfold r3. rewrite compress_push_state by (rewrite Hs2; reflexivity).
        rewrite Hc2. reflexivity. }
      assert (Hst3 : storyboard (now r3) = Some (stored_in_phase2 sb completed))
        by exact Hst2.
      destruct (generate_scenes service sb (present_images completed)
                  (List.length (Storyboard.scenes sb)) (Storyboard.scenes sb)
                  0 [] r3) as [r4 res4] eqn:Hg.
      destruct (generate_scenes_run service sb _ _ _ 0%nat [] _ _ _ _ Hst3
                  (stored_in_phase2_scenes sb completed) eq_refl Hg)
        as (Hs4 & Hc4 & Hsorted4 & _).
      change (state (now r3)) with GENERATING_IMAGES in Hs4.
      rewrite Hc3 in Hc4.
      assert (Hsorted : storyboard s = None -> Sorted (kept_since sb) (now r4 :: past r4)).
      { intros Hnone. apply Hsorted4. unfold r3. apply sorted_push_state.
        apply Hsorted2. apply Hsorted1. exact Hnone. }
      destruct res4 as [u|e].
      * apply (Completed _ _ _ _ _ f w1 sb); [exact Hf|exact Han| |].
        -- unfold phases.
           rewrite compress_push_state by (rewrite Hs4; reflexivity).
           rewrite Hc4. reflexivity.
        -- intros Hnone. apply sorted_push_state. apply Hsorted. exact Hnone.
      * apply (ScenesFailed _ _ _ _ _ f w1 sb); [exact Hf|exact Han| |].
        -- unfold phases.
           rewrite compress_fail_with by (rewrite Hs4; reflexivity).
           rewrite Hc4. reflexivity.
        -- intros Hnone. apply sorted_fail_with. apply Hsorted. exact Hnone.
    + destruct Hres2 as [Hlen Hprog].
      apply (DesignFailed _ _ _ _ _ f w1 sb completed);
        [exact Hf|exact Han| | |exact Hatt|exact Hlen|exact Hst2|exact Hprog].
      * unfold phases.
        rewrite compress_fail_with by (rewrite Hs2; reflexivity).
        rewrite Hc2. reflexivity.
      * intros Hnone. apply sorted_fail_with. apply Hsorted2, Hsorted1, Hnone.
  - apply (AnalysisFailed _ _ _ _ _ f w1 e); [exact Hf|exact Han| |].
    + unfold phases. rewrite compress_fail_with by reflexivity.
      rewrite compress_begun by exact Hidle. reflexivity.
    + intros x Hin. simpl in Hin.
      repeat (destruct Hin as [<-|Hin]; [reflexivity|]). contradiction.
Qed.

End Runs.

Lemma compress_head (a : AppState) (l : list AppState) :
  exists t, compress (a :: l) = a :: t.
Proof.
  revert a. induction l as [|b l IH]; intros a.
  - exists []. reflexivity.
  - destruct (is_state a b) eqn:Hab.
    + apply is_state_eq in Hab. subst b. rewrite compress_same_head. apply IH.
    + rewrite compress_new_head by exact Hab. eauto.
Qed.

(** The last phase of a run is the pipeline state it is in. *)
Lemma phases_end (r : Run) :
  exists before, phases r = before ++ [state (now r)].
Proof.
  unfold phases. cbn [map].
  destruct (compress_head (state (now r)) (map state (past r))) as [t Ht].
  rewrite Ht. simpl. eauto.
Qed.

Lemma run_ends_ready_or_error
  (analyzeAudio : string -> string -> Async Storyboard.t)
  (service : nat -> Reply) (s : Snapshot) (w : World) :
  rendered s StartProduction = true ->
  state (now (processAudio analyzeAudio service s w)) = READY
  \/ state (now (processAudio analyzeAudio service s w)) = ERROR.
Proof.
  intros Hr. destruct (rendered_start s Hr) as [Hidle [f Hf]].
  destruct (phases_end (processAudio analyzeAudio service s w)) as [before Hend].
  destruct (processAudio_outcome analyzeAudio service s w f Hidle Hf)
    as [? ? ? _ _ Hph _ | ? ? ? ? _ _ Hph _ _ _ _ _ | ? ? ? _ _ Hph _ | ? ? ? _ _ Hph _];
    rewrite Hph in Hend.
  - right. change [IDLE; ANALYZING; ERROR] with ([IDLE; ANALYZING] ++ [ERROR]) in Hend.
    apply app_inj_tail in Hend. symmetry. apply Hend.
  - right.
    change [IDLE; ANALYZING; DESIGNING_ELEMENTS; ERROR]
      with ([IDLE; ANALYZING; DESIGNING_ELEMENTS] ++ [ERROR]) in Hend.
    apply app_inj_tail in Hend. symmetry. apply Hend.
  - right.
    change [IDLE; ANALYZING; DESIGNING_ELEMENTS; GENERATING_IMAGES; ERROR]
      with ([IDLE; ANALYZING; DESIGNING_ELEMENTS; GENERATING_IMAGES] ++ [ERROR]) in Hend.
    apply app_inj_tail in Hend. symmetry. apply Hend.
  - left.
    change [IDLE; ANALYZING; DESIGNING_ELEMENTS; GENERATING_IMAGES; READY]
      with ([IDLE; ANALYZING; DESIGNING_ELEMENTS; GENERATING_IMAGES] ++ [READY]) in Hend.
    apply app_inj_tail in Hend. symmetry. apply Hend.
Qed.

Lemma onTimeUpdate_state (time : number) (s : Snapshot) :
  state (onTimeUpdate time s) = state s.
Proof.
  unfold onTimeUpdate. destruct (storyboard s) as [b|]; [|reflexivity].
  destruct (Nat.eqb _ _); reflexivity.
Qed.

Lemma handleFileUpload_keeps (file : option File.t) (s : Snapshot) (w : World) :
  state (fst (handleFileUpload file s w)) = state s
  /\ storyboard (fst (handleFileUpload file s w)) = storyboard s.
Proof.
  unfold handleFileUpload. destruct file as [f|]; [|auto].
  destruct (negb (String.prefix "audio/" (File.type f))); auto.
Qed.

(** In a reachable state the pipeline is Idle, Ready or in Error, and an
    Idle state holds no storyboard: every run starts without one. *)
Lemma reachable_idle_has_no_storyboard (s : Snapshot) :
  reachable s ->
  (state s = IDLE -> storyboard s = None)
  /\ (state s = IDLE \/ state s = READY \/ state s = ERROR).
Proof.
  induction 1 as [|analyzeAudio service s e w Hreach [IHsb IHst] Hr].
  - split; auto.
  - destruct e as [file| | |time]; cbn [dispatch fst].
    + destruct (handleFileUpload_keeps file s w) as [Hs Hb].
      rewrite Hs, Hb. auto.
    + destruct (run_ends_ready_or_error analyzeAudio service s w Hr) as [H|H];
        rewrite H; split; auto; discriminate.
    + split; auto.
    + rewrite onTimeUpdate_state. split; [|exact IHst].
      intros Hidle. unfold rendered in Hr. rewrite Hidle in Hr. discriminate Hr.
Qed.

(* ===================================================================== *)
(** ** The pipeline                                                       *)
(* ===================================================================== *)

(** C7. A run started from the interface goes through the pipeline states
    in the order Idle, Analyzing, DesigningElements, GeneratingImages,
    Ready, or leaves that order for Error from one of the three working
    states and stops there; no state is skipped or visited twice.  In
    Ready and in Error the only event that changes the pipeline state is
    the reset, which leads to Idle; in the working states no control is
    rendered at all. *)
Theorem pipeline_state_order :
  forall (analyzeAudio : string -> string -> Async Storyboard.t)
         (service : nat -> Reply),
    (forall (s : Snapshot) (w : World),
        rendered s StartProduction = true ->
        let run := processAudio analyzeAudio service s w in
        phases run
        = [IDLE; ANALYZING; DESIGNING_ELEMENTS; GENERATING_IMAGES; READY]
        \/ phases run = [IDLE; ANALYZING; ERROR]
        \/ phases run = [IDLE; ANALYZING; DESIGNING_ELEMENTS; ERROR]
        \/ phases run
           = [IDLE; ANALYZING; DESIGNING_ELEMENTS; GENERATING_IMAGES; ERROR])
    /\ (forall (s : Snapshot) (e : Event) (w : World),
           state s = READY \/ state s = ERROR ->
           rendered s e = true ->
           let after := fst (dispatch analyzeAudio service e s w) in
           state after = state s \/ (e = ResetClicked /\ state after = IDLE))
    /\ (forall (s : Snapshot) (e : Event),
           state s = ANALYZING \/ state s = DESIGNING_ELEMENTS
           \/ state s = GENERATING_IMAGES ->
           rendered s e = false).
Proof.
  intros analyzeAudio service. split; [|split].
  - intros s w Hr run. destruct (rendered_start s Hr) as [Hidle [f Hf]].
    destruct (processAudio_outcome analyzeAudio service s w f Hidle Hf)
      as [? ? ? _ _ Hph _ | ? ? ? ? _ _ Hph _ _ _ _ _ | ? ? ? _ _ Hph _ | ? ? ? _ _ Hph _];
      subst run; rewrite Hph; auto.
  - intros s e w Hs Hr after. subst after.
    destruct e as [file| | |time]; cbn [dispatch fst].
    + exfalso. unfold rendered in Hr. destruct Hs as [Hs|Hs]; rewrite Hs in Hr;
        discriminate Hr.
    + exfalso. unfold rendered in Hr. destruct Hs as [Hs|Hs]; rewrite Hs in Hr;
        discriminate Hr.
    + right. split; reflexivity.
    + left. apply onTimeUpdate_state.
  - intros s e Hs. unfold rendered.
    destruct Hs as [Hs|[Hs|Hs]]; rewrite Hs; destruct e; reflexivity.
Qed.

Lemma pipeline_state_order_witness :
  rendered ready_to_start StartProduction = true
  /\ phases (processAudio (analysis_returns two_element_board) always_draws
               ready_to_start fresh_world)
     = [IDLE; ANALYZING; DESIGNING_ELEMENTS; GENERATING_IMAGES; READY]
  /\ phases (processAudio (analysis_returns two_element_board) always_rejects
               ready_to_start fresh_world)
     = [IDLE; ANALYZING; DESIGNING_ELEMENTS; ERROR].
Proof.
  split; [reflexivity|].
  pose proof (proj1 (pipeline_state_order (analysis_returns two_element_board)
                       always_draws) ready_to_start fresh_world eq_refl) as Hgood.
  pose proof (proj1 (pipeline_state_order (analysis_returns two_element_board)
                       always_rejects) ready_to_start fresh_world eq_refl) as Hbad.
  split.
  - destruct Hgood as [H|[H|[H|H]]]; [exact H| | |];
      exfalso; vm_compute in H; discriminate H.
  - destruct Hbad as [H|[H|[H|H]]]; [| |exact H|];
      exfalso; vm_compute in H; discriminate H.
Defined.

Lemma keeps_images_refl (sb : Storyboard.t) (x : Snapshot) : keeps_images sb x x.
Proof. split; auto. Qed.

(** C6. Along the states published by one run, images only accumulate:
    an element or scene that Phase 1 delivered without an image and that
    carries an image in some published state carries that same image in
    every later state of the run.  (A run whose analysis fails publishes
    no storyboard at all.) *)
Theorem published_images_are_kept :
  forall (analyzeAudio : string -> string -> Async Storyboard.t)
         (service : nat -> Reply) (s : Snapshot) (w : World),
    reachable s ->
    rendered s StartProduction = true ->
    let run := processAudio analyzeAudio service s w in
    forall (f : File.t) (w1 : World),
      audioFile s = Some f ->
      (forall (sb : Storyboard.t),
          analyzeAudio (File.base64 f) (File.type f) w = (w1, Ok sb) ->
          forall (a b : nat) (earlier later : Snapshot),
            (a <= b)%nat ->
            nth_error (timeline run) a = Some earlier ->
            nth_error (timeline run) b = Some later ->
            (forall (k : nat) (u : string),
                image_of_element (elements_of sb) k = None ->
                element_image earlier k = Some u ->
                element_image later k = Some u)
            /\ (forall (k : nat) (u : string),
                   image_of_scene (Storyboard.scenes sb) k = None ->
                   scene_image earlier k = Some u ->
                   scene_image later k = Some u))
      /\ (forall (e : JsError),
             analyzeAudio (File.base64 f) (File.type f) w = (w1, Throw e) ->
             forall x : Snapshot, In x (timeline run) -> storyboard x = None).
Proof.
  intros analyzeAudio service s w Hreach Hr run f w1 Hf.
  destruct (rendered_start s Hr) as [Hidle _].
  destruct (reachable_idle_has_no_storyboard s Hreach) as [Hnone _].
  specialize (Hnone Hidle).
  pose proof (processAudio_outcome analyzeAudio service s w f Hidle Hf) as Hout.
  fold run in Hout. split.
  - intros sb Han a b earlier later Hab Ha Hb.
    assert (Hsorted : Sorted (kept_since sb) (now run :: past run)).
    { destruct Hout as [f' w' e Hf' Han' _ _
                       | f' w' sb' completed Hf' Han' _ Hs _ _ _ _
                       | f' w' sb' Hf' Han' _ Hs
                       | f' w' sb' Hf' Han' _ Hs];
        rewrite Hf in Hf'; injection Hf' as <-; rewrite Han in Han';
        try discriminate Han'; injection Han' as <- <-; apply Hs; exact Hnone. }
    apply (timeline_pairs (kept_since sb) run (keeps_images_refl sb)
             (Sorted_StronglySorted (kept_since_trans sb) Hsorted)
             a b earlier later Hab Ha Hb).
  - intros e Han x Hin.
    destruct Hout as [f' w' e' Hf' Han' _ Hall
                     | f' w' sb' completed Hf' Han' _ _ _ _ _ _
                     | f' w' sb' Hf' Han' _ _
                     | f' w' sb' Hf' Han' _ _];
      rewrite Hf in Hf'; injection Hf' as <-; rewrite Han in Han';
      try discriminate Han'.
    rewrite <- Hnone. apply Hall. unfold timeline in Hin.
    apply in_rev. exact Hin.
Qed.

Lemma published_images_are_kept_witness :
  reachable ready_to_start
  /\ rendered ready_to_start StartProduction = true
  /\ (let run := processAudio (analysis_returns two_element_board) always_draws
                   ready_to_start fresh_world in
      forall (earlier later : Snapshot),
        nth_error (timeline run) 7 = Some earlier ->
        nth_error (timeline run) 15 = Some later ->
        element_image earlier 0 = Some "data:image/png;base64,AAAA" ->
        element_image later 0 = Some "data:image/png;base64,AAAA").
Proof.
  assert (Hreach : reachable ready_to_start).
  { exact (reachable_event (analysis_returns two_element_board) always_draws
             initial (FileChosen (Some song)) fresh_world
             reachable_initial eq_refl). }
  split; [exact Hreach|]. split; [reflexivity|].
  intros run earlier later Ha Hb Himg.
  exact (proj1 (proj1 (published_images_are_kept
                         (analysis_returns two_element_board) always_draws
                         ready_to_start fresh_world Hreach eq_refl
                         song _ eq_refl)
                  two_element_board eq_refl 7%nat 15%nat earlier later
                  ltac:(lia) Ha Hb)
           0%nat _ eq_refl Himg).
Defined.

(** As stated, C5 fails.  One element, every attempt rejected: the run
    ends in Error with the element's image absent, but the progress is
    100, set when the element's processing began, not the 5 it was at
    before. *)
Lemma progress_moves_before_generation :
  let run := processAudio (analysis_returns one_element_board) always_rejects
               ready_to_start fresh_world in
  state (now run) = ERROR
  /\ storyboard (now run) = Some one_element_board
  /\ element_image (now run) 0 = None
  /\ List.length (requests (world run)) = 4%nat
  /\ progress (now run) = 100%Z
  /\ (exists before : Snapshot,
         nth_error (timeline run) 5 = Some before
         /\ state before = DESIGNING_ELEMENTS
         /\ progress before = 5%Z)
  /\ progress (now run) <> 5%Z.
Proof.
  vm_compute. repeat split; try discriminate.
  eexists. repeat split.
Qed.

(** C5, amended.  In Phase 2 the progress is set to
    [Math.round(((i + 1) / total) * 100)] when the processing of element
    [i] begins, before its image is requested.  So when a run fails in
    Phase 2 with [k] elements completed (their images attached and
    published), the progress holds the value of the element that failed,
    [round(100 (k + 1) / total)].  With a single element, the pipeline
    ends in Error with the storyboard as Phase 1 delivered it (the
    element's image absent) and the progress at 100. *)
Theorem progress_on_element_failure :
  forall (analyzeAudio : string -> string -> Async Storyboard.t)
         (service : nat -> Reply) (s : Snapshot) (w : World),
    rendered s StartProduction = true ->
    let run := processAudio analyzeAudio service s w in
    phases run = [IDLE; ANALYZING; DESIGNING_ELEMENTS; ERROR] ->
    exists (f : File.t) (w1 : World) (sb : Storyboard.t)
           (completed : list VisualElement.t),
      audioFile s = Some f
      /\ analyzeAudio (File.base64 f) (File.type f) w = (w1, Ok sb)
      /\ state (now run) = ERROR
      /\ (List.length completed < List.length (elements_of sb))%nat
      /\ Forall2 attached
           (firstn (List.length completed) (elements_of sb)) completed
      /\ storyboard (now run) = Some (stored_in_phase2 sb completed)
      /\ progress (now run)
         = percent (List.length completed + 1) (List.length (elements_of sb))
      /\ (List.length (elements_of sb) = 1%nat ->
          storyboard (now run) = Some sb /\ progress (now run) = 100%Z).
Proof.
  intros analyzeAudio service s w Hr run Hph.
  destruct (rendered_start s Hr) as [Hidle [f Hf]].
  destruct (run_ends_ready_or_error analyzeAudio service s w Hr) as [Hend|Hend].
  { exfalso. destruct (phases_end run) as [before Hb]. fold run in Hend.
    rewrite Hend, Hph in Hb.
    change [IDLE; ANALYZING; DESIGNING_ELEMENTS; ERROR]
      with ([IDLE; ANALYZING; DESIGNING_ELEMENTS] ++ [ERROR]) in Hb.
    apply app_inj_tail in Hb. destruct Hb as [_ Hb]. discriminate Hb. }
  pose proof (processAudio_outcome analyzeAudio service s w f Hidle Hf) as Hout.
  fold run in Hout, Hend.
  destruct Hout as [f' w' e Hf' Han' Hph' _
                   | f' w' sb completed Hf' Han Hph' _ Hatt Hlen Hst Hprog
                   | f' w' sb' Hf' Han' Hph' _
                   | f' w' sb' Hf' Han' Hph' _];
    rewrite Hph in Hph'; try discriminate Hph'.
  exists f', w', sb, completed.
  repeat (split; [assumption|]).
  intros Hone. rewrite Hone in Hlen, Hprog.
  destruct completed as [|c completed]; [|simpl in Hlen; lia].
  split; [exact Hst|]. rewrite Hprog. vm_compute. reflexivity.
Qed.

Lemma progress_on_element_failure_witness :
  rendered ready_to_start StartProduction = true
  /\ phases (processAudio (analysis_returns one_element_board) always_rejects
               ready_to_start fresh_world)
     = [IDLE; ANALYZING; DESIGNING_ELEMENTS; ERROR]
  /\ progress (now (processAudio (analysis_returns one_element_board)
                      always_rejects ready_to_start fresh_world)) = 100%Z.
Proof.
  split; [reflexivity|]. split; [vm_compute; reflexivity|].
  destruct (progress_on_element_failure (analysis_returns one_element_board)
              always_rejects ready_to_start fresh_world eq_refl
              ltac:(vm_compute; reflexivity))
    as (f & w1 & sb & completed & _ & Han & _ & _ & _ & _ & _ & Hone).
  injection Han as _ <-. exact (proj2 (Hone eq_refl)).
Defined.

(** C4, on the code.  With two recurring elements, the state published
    while the second element's image is being generated holds a
    storyboard whose [recurring_elements] is the first element alone: the
    pending element is absent, not present without an image.  Phase 3,
    at the same point, does hold both scenes, the pending one without an
    image; and both phases leave the rest of the storyboard as it was. *)
Theorem phase2_publishes_completed_elements_only :
  let run := processAudio (analysis_returns two_element_board) always_draws
               ready_to_start fresh_world in
  (exists (published : Snapshot) (b : Storyboard.t),
      nth_error (timeline run) 8 = Some published
      /\ state published = DESIGNING_ELEMENTS
      /\ storyboard published = Some b
      /\ map VisualElement.name (elements_of two_element_board) = ["Hero"; "Villain"]
      /\ map VisualElement.name (elements_of b) = ["Hero"]
      /\ element_image published 0 = Some "data:image/png;base64,AAAA"
      /\ nth_error (elements_of b) 1 = None
      /\ Storyboard.title b = Storyboard.title two_element_board
      /\ Storyboard.scenes b = Storyboard.scenes two_element_board)
  /\ (exists (published : Snapshot) (b : Storyboard.t),
         nth_error (timeline run) 13 = Some published
         /\ state published = GENERATING_IMAGES
         /\ storyboard published = Some b
         /\ map Scene.description (Storyboard.scenes b) = ["rain"; "chase"]
         /\ scene_image published 0 = Some "data:image/png;base64,AAAA"
         /\ nth_error (Storyboard.scenes b) 1 = Some chase
         /\ Storyboard.title b = Storyboard.title two_element_board).
Proof.
  vm_compute. split; eexists; eexists; repeat split.
Qed.

(** The scenario, through the orchestrator: whatever the typed view of
    the client, the storyboard stored when Phase 1 completes has its
    scenes in the order 0, 5. *)
Lemma scenario_is_stored_in_order :
  forall typed : string -> string -> Async Storyboard.t,
    typed_view (analyzeAudio no_coercion (replies_with scenario_body)) typed ->
    exists (stored : Snapshot) (b : Storyboard.t),
      nth_error (timeline (processAudio typed (replies_with scenario_body)
                             ready_to_start fresh_world)) 4 = Some stored
      /\ storyboard stored = Some b
      /\ map Scene.timestamp (Storyboard.scenes b)
         = [Finite (inject_Z 0); Finite (inject_Z 5)].
Proof.
  intros typed Hview.
  specialize (Hview (File.base64 song) (File.type song) fresh_world).
  vm_compute in Hview. specialize (Hview _ eq_refl).
  rewrite (processAudio_cases typed (replies_with scenario_body)
             ready_to_start fresh_world song eq_refl).
  match type of Hview with
  | _ = ?result =>
      assert (Han : typed (File.base64 song) (File.type song) fresh_world = result)
        by exact Hview
  end.
  rewrite Han. vm_compute. eexists. eexists. repeat split.
Qed.

(* ===================================================================== *)
(** ** More on [generateImage]                                            *)
(* ===================================================================== *)

Section RetryBounds.

Variable service : nat -> Reply.
Variable prompt : string.
Variable referenceImages : list string.
Variable retries : Z.

(** Whatever the attempts give, the loop sends between one request and
    one per attempt left, and sleeps the backoff delays between them. *)
Lemma retry_loop_bounded (fuel : nat) :
  forall (attempt : Z) (w w' : World) (exit : Exit),
    (0 <= attempt <= retries)%Z ->
    (iterations_left retries attempt <= fuel)%nat ->
    retry_loop service prompt referenceImages (integer retries) fuel attempt w
    = (w', exit) ->
    exists n : nat,
      (1 <= n <= Z.to_nat (retries - attempt) + 1)%nat
      /\ w' = after_attempts w
                (ImageRequest (map reference_data referenceImages) prompt) n
                (map (fun j => (1500 * (attempt + Z.of_nat j + 1))%Z)
                   (seq 0 (n - 1))).
Proof.
  induction fuel as [|fuel IH]; intros attempt w w' exit Ha Hfuel Hrun.
  - unfold iterations_left in Hfuel. lia.
  - destruct (attempt_result service (List.length (requests w)))
      as [image|err] eqn:Hres.
    + loop_step_in Hrun.
      replace (attempt <=? retries)%Z with true in Hrun
        by (symmetry; apply Z.leb_le; lia).
      rewrite attempt_once_run, Hres in Hrun.
      injection Hrun as <- _. exists 1%nat. split; [lia|]. reflexivity.
    + destruct (Z.eq_dec attempt retries) as [Heq|Hne].
      * loop_step_in Hrun.
        replace (attempt <=? retries)%Z with true in Hrun
          by (symmetry; apply Z.leb_le; lia).
        rewrite attempt_once_run, Hres in Hrun.
        replace (attempt =? retries)%Z with true in Hrun
          by (symmetry; apply Z.eqb_eq; exact Heq).
        injection Hrun as <- _. exists 1%nat. split; [lia|]. reflexivity.
      * rewrite (retry_loop_failed_step service prompt referenceImages retries
                   fuel attempt w err) in Hrun by (assumption || lia).
        apply IH in Hrun; [| lia | unfold iterations_left in *; lia].
        destruct Hrun as [n [Hn ->]]. exists (S n). split.
        { replace (retries - attempt)%Z
            with (Z.succ (retries - (attempt + 1)))%Z by lia.
          rewrite Z2Nat.inj_succ by lia. lia. }
        rewrite after_attempts_compose. f_equal.
        replace (S n - 1)%nat with (S (n - 1)) by lia.
        change ([(1500 * (attempt + 1))%Z]
                  ++ map (fun j => (1500 * (attempt + 1 + Z.of_nat j + 1))%Z)
                       (seq 0 (n - 1)))
          with ((1500 * (attempt + 1))%Z
                  :: map (fun j => (1500 * (attempt + 1 + Z.of_nat j + 1))%Z)
                       (seq 0 (n - 1))).
        apply backoff_from_shift.
Qed.

End RetryBounds.

Lemma extract_image_data_url (r : Response) (image : string) :
  extract_image r = Ok image -> exists data, image = data_url data.
Proof.
  unfold extract_image. intros H.
  destruct (candidates r) as [|candidate others]; [discriminate H|].
  destruct (find has_inlineData (parts candidate)) as [[[data|]]|];
    try discriminate H.
  injection H as <-. exists data. reflexivity.
Qed.

(** The loop tests at any number: [attempt <= retries] compares with the
    floor of [retries], and [attempt === retries] holds of the floor of a
    whole [retries] only. *)
Lemma within_floor (attempt : Z) (q : Q) :
  within attempt (Exactly q) = (attempt <=? Qfloor q)%Z.
Proof.
  unfold within. apply eq_true_iff_eq. rewrite Qle_bool_iff, Z.leb_le. split.
  - intros H. apply Qfloor_resp_le in H. rewrite Qfloor_Z in H. exact H.
  - intros H. apply Qle_trans with (inject_Z (Qfloor q)); [|apply Qfloor_le].
    rewrite <- Zle_Qle. exact H.
Qed.

Lemma is_last_floor (attempt : Z) (q : Q) :
  is_last attempt (Exactly q) = true <-> attempt = Qfloor q /\ whole q.
Proof.
  unfold is_last, whole. rewrite Qeq_bool_iff. split.
  - intros H. pose proof (Qfloor_comp _ _ H) as Hf. rewrite Qfloor_Z in Hf.
    subst attempt. split; [reflexivity|exact H].
  - intros [-> H]. exact H.
Qed.

Lemma floor_of_negative (q : Q) : q < 0 -> (Qfloor q < 0)%Z.
Proof.
  intros H. rewrite Zlt_Qlt.
  apply Qle_lt_trans with q; [apply Qfloor_le|exact H].
Qed.

Lemma floor_of_nonnegative (q : Q) : 0 <= q -> (0 <= Qfloor q)%Z.
Proof. intros H. apply Qfloor_resp_le in H. exact H. Qed.

Lemma after_no_attempt (w : World) (req : Request) :
  after_attempts w req 0 [] = w.
Proof.
  unfold after_attempts. destruct w as [rs ts n]. simpl.
  rewrite !app_nil_r. reflexivity.
Qed.

Lemma delays_from_shift (attempt : Z) (k : nat) :
  (1500 * (attempt + 1))%Z :: delays_from (attempt + 1) k
  = delays_from attempt (S k).
Proof. apply backoff_from_shift. Qed.

Lemma after_failed_attempt (w : World) (req : Request) (attempt : Z) (n k : nat) :
  after_attempts (after_attempts w req 1 [(1500 * (attempt + 1))%Z]) req n
    (delays_from (attempt + 1) k)
  = after_attempts w req (S n) (delays_from attempt (S k)).
Proof.
  rewrite after_attempts_compose. rewrite <- delays_from_shift. reflexivity.
Qed.

Lemma all_fail_shift (service : nat -> Reply) (first n : nat) (e : JsError) :
  attempt_result service first = Throw e ->
  all_fail service (first + 1) n ->
  all_fail service first (S n).
Proof.
  intros He Hrest [|j] Hj.
  - exists e. rewrite Nat.add_0_r. exact He.
  - destruct (Hrest j ltac:(lia)) as [e' He']. exists e'.
    rewrite <- He'. f_equal. lia.
Qed.

Section AnyRetries.

Variable service : nat -> Reply.
Variable prompt : string.
Variable referenceImages : list string.
Variable retries : Retries.

Let req : Request := ImageRequest (map reference_data referenceImages) prompt.

Lemma within_iterations (attempt : Z) :
  within attempt retries = true <-> (1 <= iterations_from retries attempt)%nat.
Proof.
  destruct retries as [| |q]; cbn [iterations_from];
    try (cbn [within]; split; [discriminate|lia]).
  rewrite within_floor, Z.leb_le. lia.
Qed.

Lemma iterations_from_next (attempt : Z) :
  within attempt retries = true ->
  iterations_from retries attempt = S (iterations_from retries (attempt + 1)).
Proof.
  intros H. apply within_iterations in H.
  destruct retries as [| |q]; simpl in *; lia.
Qed.

Lemma is_last_iterations (attempt : Z) :
  is_last attempt retries = true -> iterations_from retries attempt = 1%nat.
Proof.
  destruct retries as [| |q]; try discriminate.
  intros H. apply is_last_floor in H. destruct H as [-> _]. simpl. lia.
Qed.

(** The three ways the loop is left, each with what the service did and
    with the world it leaves: by [return] at the first attempt that
    succeeds; by [throw err] at the attempt that is [=== retries], when
    every attempt failed; by the loop condition, when every attempt that
    passed it failed and the last of them was not [=== retries] (then the
    call has slept after that attempt too). *)
Lemma retry_loop_outcome (fuel : nat) :
  forall (attempt : Z) (w : World),
    (iterations_from retries attempt < fuel)%nat ->
    let first := List.length (requests w) in
    let n := iterations_from retries attempt in
    let run := retry_loop service prompt referenceImages retries fuel attempt w in
    (exists (k : nat) (image : string),
        (k < n)%nat
        /\ all_fail service first k
        /\ attempt_result service (first + k) = Ok image
        /\ run = (after_attempts w req (k + 1) (delays_from attempt k),
                  Returned image))
    \/ (exists err : JsError,
           (1 <= n)%nat
           /\ is_last (attempt + Z.of_nat n - 1) retries = true
           /\ all_fail service first (n - 1)
           /\ attempt_result service (first + (n - 1)) = Throw err
           /\ run = (after_attempts w req n (delays_from attempt (n - 1)),
                     Rethrown (attempt + Z.of_nat n - 1) err))
    \/ ((n = 0%nat \/ is_last (attempt + Z.of_nat n - 1) retries = false)
        /\ all_fail service first n
        /\ run = (after_attempts w req n (delays_from attempt n), FellThrough)).
Proof.
  induction fuel as [|fuel IH]; intros attempt w Hfuel first n run; [lia|].
  subst run. cbn [retry_loop].
  destruct (within attempt retries) eqn:Hin.
  - pose proof (iterations_from_next attempt Hin) as Hn. fold n in Hn.
    rewrite attempt_once_run. fold req. fold first.
    destruct (attempt_result service first) as [image|err] eqn:Hres.
    + left. exists 0%nat, image. split; [lia|]. split; [intros j Hj; lia|].
      split; [rewrite Nat.add_0_r; exact Hres|reflexivity].
    + destruct (is_last attempt retries) eqn:Hlast.
      * right. left. exists err.
        pose proof (is_last_iterations attempt Hlast) as H1. fold n in H1.
        rewrite H1. replace (attempt + Z.of_nat 1 - 1)%Z with attempt by lia.
        split; [lia|]. split; [exact Hlast|]. split; [intros j Hj; lia|].
        split; [rewrite Nat.add_0_r; exact Hres|reflexivity].
      * assert (Hsleep : sleep (1500 * (attempt + 1)) (after_attempts w req 1 [])
                         = (after_attempts w req 1 [(1500 * (attempt + 1))%Z], Ok tt)).
        { unfold sleep, after_attempts. simpl. rewrite app_nil_r. reflexivity. }
        rewrite Hsleep.
        set (w1 := after_attempts w req 1 [(1500 * (attempt + 1))%Z]).
        assert (Hfirst : List.length (requests w1) = (first + 1)%nat)
          by (unfold w1; rewrite after_attempts_requests; reflexivity).
        assert (Hfuel' : (iterations_from retries (attempt + 1) < fuel)%nat) by lia.
        specialize (IH (attempt + 1)%Z w1 Hfuel'). cbv zeta in IH.
        rewrite Hfirst in IH.
        set (m := iterations_from retries (attempt + 1)) in *.
        destruct IH as [(k & image & Hk & Hfail & Hok & Hrun)
                       | [(e & Hm & Hl & Hfail & Herr & Hrun)
                         | (Hl & Hfail & Hrun)]].
        -- left. exists (S k), image. split; [lia|].
           split; [eapply all_fail_shift; eassumption|].
           split; [rewrite <- Hok; f_equal; lia|].
           rewrite Hrun. unfold w1. rewrite after_failed_attempt. reflexivity.
        -- right. left. exists e. rewrite Hn.
           replace (attempt + Z.of_nat (S m) - 1)%Z
             with (attempt + 1 + Z.of_nat m - 1)%Z by lia.
           split; [lia|]. split; [exact Hl|].
           replace (S m - 1)%nat with (S (m - 1)) by lia.
           split; [eapply all_fail_shift; eassumption|].
           split; [rewrite <- Herr; f_equal; lia|].
           rewrite Hrun. unfold w1. rewrite after_failed_attempt. reflexivity.
        -- right. right. rewrite Hn. split.
           { right. destruct Hl as [H0|Hl].
             - rewrite H0. replace (attempt + Z.of_nat 1 - 1)%Z with attempt by lia.
               exact Hlast.
             - replace (attempt + Z.of_nat (S m) - 1)%Z
                 with (attempt + 1 + Z.of_nat m - 1)%Z by lia.
               exact Hl. }
           split; [eapply all_fail_shift; eassumption|].
           rewrite Hrun. unfold w1. rewrite after_failed_attempt. reflexivity.
  - right. right.
    assert (H0 : n = 0%nat).
    { destruct n as [|n'] eqn:Hn; [reflexivity|].
      assert (H : within attempt retries = true)
        by (apply within_iterations; fold n; lia).
      congruence. }
    rewrite H0. split; [left; reflexivity|]. split; [intros j Hj; lia|].
    unfold delays_from. simpl. rewrite after_no_attempt. reflexivity.
Qed.

(** What the loop returns is what the last request's reply held. *)
Lemma retry_loop_returned (fuel : nat) :
  forall (attempt : Z) (w w' : World) (image : string),
    retry_loop service prompt referenceImages retries fuel attempt w
    = (w', Returned image) ->
    attempt_result service (List.length (requests w') - 1) = Ok image.
Proof.
  induction fuel as [|fuel IH]; intros attempt w w' image Hrun.
  - discriminate Hrun.
  - cbn [retry_loop] in Hrun.
    destruct (within attempt retries); [|discriminate Hrun].
    rewrite attempt_once_run in Hrun.
    destruct (attempt_result service (List.length (requests w)))
      as [img|err] eqn:Hres.
    + injection Hrun as <- <-. rewrite after_attempts_requests.
      replace (List.length (requests w) + 1 - 1)%nat
        with (List.length (requests w)) by lia.
      exact Hres.
    + destruct (is_last attempt retries); [discriminate Hrun|].
      destruct (sleep (1500 * (attempt + 1))
                  (after_attempts w
                     (ImageRequest (map reference_data referenceImages) prompt)
                     1 [])) as [w'' u].
      eapply IH. exact Hrun.
Qed.

End AnyRetries.

(** X1. For a finite [retries >= 0], whole or not, and whatever the
    service does, a call sends at least one and at most
    [floor(retries) + 1] requests, all of them the same image request,
    and touches nothing else of the world but the timers.  Either it
    ends at its n-th attempt, with the outcome of that attempt, having
    slept the backoff delays 1500, ..., 1500 (n - 1) between the
    attempts; or [retries] is not a whole number, all
    [floor(retries) + 1] attempts failed, the call slept after the last
    of them as well, and it throws the generic error.  With a whole
    [retries] only the first happens. *)
Theorem generateImage_bounded_attempts :
  forall (service : nat -> Reply) (prompt : string)
         (referenceImages : list string) (retries : Q)
         (w w' : World) (res : Completion string),
    0 <= retries ->
    generateImage service prompt referenceImages (Exactly retries) w = (w', res) ->
    let req := ImageRequest (map reference_data referenceImages) prompt in
    let first := List.length (requests w) in
    exists n : nat,
      (1 <= n <= Z.to_nat (Qfloor retries) + 1)%nat
      /\ all_fail service first (n - 1)
      /\ ((w' = after_attempts w req n (backoff (n - 1))
           /\ res = attempt_result service (first + (n - 1)))
          \/ (~ whole retries
              /\ n = (Z.to_nat (Qfloor retries) + 1)%nat
              /\ all_fail service first n
              /\ w' = after_attempts w req n (backoff n)
              /\ res = Throw (mkError "Generation failed.")))
      /\ (whole retries -> w' = after_attempts w req n (backoff (n - 1))).
Proof.
  intros service prompt referenceImages retries w w' res Hpos Hrun req first.
  pose proof (floor_of_nonnegative retries Hpos) as Hfloor.
  unfold generateImage, generateImage_exit in Hrun.
  assert (Hiter : iterations_from (Exactly retries) 0 = iterations (Exactly retries))
    by (simpl; f_equal; lia).
  assert (Hn : iterations (Exactly retries) = (Z.to_nat (Qfloor retries) + 1)%nat)
    by (simpl; lia).
  destruct (retry_loop_outcome service prompt referenceImages (Exactly retries)
              (S (iterations (Exactly retries))) 0%Z w ltac:(rewrite Hiter; lia))
    as [(k & image & Hk & Hfail & Hok & Hloop)
       | [(e & H1 & Hl & Hfail & Herr & Hloop)
         | (Hl & Hfail & Hloop)]];
    rewrite Hiter, ?Hn in *; rewrite Hloop in Hrun; injection Hrun as <- <-.
  - exists (k + 1)%nat. replace (k + 1 - 1)%nat with k by lia.
    split; [lia|]. split; [exact Hfail|].
    split; [left; split; [reflexivity|symmetry; exact Hok]|].
    intros _. reflexivity.
  - exists (Z.to_nat (Qfloor retries) + 1)%nat.
    split; [lia|]. split; [exact Hfail|].
    split; [left; split; [reflexivity|symmetry; exact Herr]|].
    intros _. reflexivity.
  - assert (Hnot : ~ whole retries).
    { destruct Hl as [H0|Hl]; [lia|]. intros Hw.
      assert (Ht : is_last (Qfloor retries) (Exactly retries) = true)
        by (apply is_last_floor; split; [reflexivity|exact Hw]).
      replace (0 + Z.of_nat (Z.to_nat (Qfloor retries) + 1) - 1)%Z
        with (Qfloor retries) in Hl by lia.
      congruence. }
    exists (Z.to_nat (Qfloor retries) + 1)%nat.
    split; [lia|].
    split; [intros j Hj; apply Hfail; lia|].
    split; [right; repeat split; assumption|].
    intros Hw. contradiction.
Qed.

Lemma generateImage_bounded_attempts_witness :
  0 <= 5 # 2
  /\ generateImage always_rejects "a lighthouse" [] (Exactly (5 # 2))
       fresh_world
     = (after_attempts fresh_world (ImageRequest [] "a lighthouse") 3
          [1500; 3000; 4500]%Z,
        Throw (mkError "Generation failed."))
  /\ exists n : nat,
       (1 <= n <= Z.to_nat (Qfloor (5 # 2)) + 1)%nat
       /\ all_fail always_rejects 0 (n - 1)
       /\ ((fst (generateImage always_rejects "a lighthouse" []
                   (Exactly (5 # 2)) fresh_world)
            = after_attempts fresh_world (ImageRequest [] "a lighthouse") n
                (backoff (n - 1))
            /\ snd (generateImage always_rejects "a lighthouse" []
                      (Exactly (5 # 2)) fresh_world)
               = attempt_result always_rejects (0 + (n - 1)))
           \/ (~ whole (5 # 2)
               /\ n = (Z.to_nat (Qfloor (5 # 2)) + 1)%nat
               /\ all_fail always_rejects 0 n
               /\ fst (generateImage always_rejects "a lighthouse" []
                         (Exactly (5 # 2)) fresh_world)
                  = after_attempts fresh_world
                      (ImageRequest [] "a lighthouse") n (backoff n)
               /\ snd (generateImage always_rejects "a lighthouse" []
                         (Exactly (5 # 2)) fresh_world)
                  = Throw (mkError "Generation failed.")))
       /\ (whole (5 # 2) ->
           fst (generateImage always_rejects "a lighthouse" []
                  (Exactly (5 # 2)) fresh_world)
           = after_attempts fresh_world (ImageRequest [] "a lighthouse") n
               (backoff (n - 1))).
Proof.
  split; [discriminate|]. split; [reflexivity|].
  exact (generateImage_bounded_attempts always_rejects "a lighthouse" []
           (5 # 2) fresh_world _ _ ltac:(discriminate)
           (surjective_pairing
              (generateImage always_rejects "a lighthouse" []
                 (Exactly (5 # 2)) fresh_world))).
Defined.

(** X2. An image returned by [generateImage] is always a PNG data URL
    around an inline payload, the one found in the reply to the last
    request sent; in particular it is never the empty string.  This holds
    of every value of [retries]. *)
Theorem generateImage_returns_data_url :
  forall (service : nat -> Reply) (prompt : string)
         (referenceImages : list string) (retries : Retries)
         (w w' : World) (image : string),
    generateImage service prompt referenceImages retries w = (w', Ok image) ->
    (exists data, image = data_url data)
    /\ attempt_result service (List.length (requests w') - 1) = Ok image
    /\ image <> EmptyString.
Proof.
  intros service prompt referenceImages retries w w' image Hrun.
  unfold generateImage in Hrun.
  destruct (generateImage_exit service prompt referenceImages retries w)
    as [w1 [img|a err|]] eqn:Hexit; try discriminate Hrun.
  injection Hrun as -> ->.
  pose proof (retry_loop_returned service prompt referenceImages retries
                _ _ _ _ _ Hexit) as Hlast.
  assert (Hurl : exists data, image = data_url data).
  { unfold attempt_result in Hlast.
    destruct (service (List.length (requests w') - 1)%nat) as [e|r];
      [discriminate Hlast|].
    eapply extract_image_data_url. exact Hlast. }
  split; [exact Hurl|]. split; [exact Hlast|].
  destruct Hurl as [data ->]. discriminate.
Qed.

Lemma generateImage_returns_data_url_witness :
  generateImage always_draws "a lighthouse" [] (integer 2) fresh_world
  = (mkWorld [ImageRequest [] "a lighthouse"] [] 0, Ok (data_url "AAAA"))
  /\ data_url "AAAA" <> EmptyString.
Proof.
  split; [reflexivity|].
  exact (proj2 (proj2 (generateImage_returns_data_url always_draws
                         "a lighthouse" [] (integer 2) fresh_world _ _ eq_refl))).
Defined.

(* ===================================================================== *)
(** ** Reference images                                                   *)
(* ===================================================================== *)

Lemma split_comma_without_comma (s : string) :
  has_comma s = false -> split_comma s = [s].
Proof.
  induction s as [|c s IH]; intros H; [reflexivity|].
  simpl in H. apply orb_false_iff in H. destruct H as [Hc Hs].
  simpl. rewrite Hc, (IH Hs). reflexivity.
Qed.

Lemma split_comma_at_first_comma (before after : string) :
  has_comma before = false ->
  split_comma (before ++ String ","%char after)%string
  = before :: split_comma after.
Proof.
  induction before as [|c s IH]; intros H.
  - reflexivity.
  - simpl in H. apply orb_false_iff in H. destruct H as [Hc Hs].
    simpl. rewrite Hc, (IH Hs). reflexivity.
Qed.

(** X21. [img.split(',')[1] || img] undoes the wrapping of [generateImage].
    Of the data URL of a payload that is not empty and holds no comma (as
    base64 never does) it gives back the payload; a string without a
    comma, and the data URL of the empty payload, are sent as they are. *)
Theorem reference_data_unwraps_data_url :
  (forall data : string,
      has_comma data = false -> data <> EmptyString ->
      reference_data (data_url data) = data)
  /\ (forall img : string, has_comma img = false -> reference_data img = img)
  /\ reference_data (data_url EmptyString) = data_url EmptyString.
Proof.
  split; [|split].
  - intros data Hcomma Hne. unfold reference_data, data_url.
    change ("data:image/png;base64," ++ data)%string
      with ("data:image/png;base64" ++ String ","%char data)%string.
    rewrite split_comma_at_first_comma by reflexivity.
    rewrite (split_comma_without_comma data Hcomma). simpl.
    destruct (String.eqb data EmptyString) eqn:He; [|reflexivity].
    apply String.eqb_eq in He. contradiction.
  - intros img Hcomma. unfold reference_data.
    rewrite (split_comma_without_comma img Hcomma). reflexivity.
  - reflexivity.
Qed.

Lemma reference_data_unwraps_data_url_witness :
  has_comma "iVBORw0KGgo" = false
  /\ "iVBORw0KGgo" <> EmptyString
  /\ reference_data (data_url "iVBORw0KGgo") = "iVBORw0KGgo".
Proof.
  split; [reflexivity|]. split; [discriminate|].
  apply (proj1 reference_data_unwraps_data_url); [reflexivity | discriminate].
Defined.

(* ===================================================================== *)
(** ** More on [analyzeAudio]                                             *)
(* ===================================================================== *)

Lemma set_field_same_value (fs : list (string * json)) (k : string) (v : json) :
  field fs k = Some v -> set_field fs k v = fs.
Proof.
  induction fs as [|[k' v'] fs IH]; simpl; [reflexivity|].
  destruct (String.eqb k' k) eqn:Hk.
  - intros H. injection H as ->. reflexivity.
  - intros H. rewrite (IH H). reflexivity.
Qed.

Section SortingMore.

Variable coerce : json -> numeric.

(** Scenes that are in order are not exchanged. *)
Lemma comparefn_in_order (a b : json) :
  json_by_timestamp a b ->
  exists c, comparefn coerce a b = Ok c /\ c <> Gt.
Proof.
  unfold json_by_timestamp. intros H.
  destruct (scene_timestamp a) as [x|] eqn:Ha; [|contradiction].
  destruct (scene_timestamp b) as [y|] eqn:Hb; [|contradiction].
  unfold comparefn.
  rewrite (scene_timestamp_member a x Ha), (scene_timestamp_member b y Hb).
  simpl ToNumber.
  destruct x as [|p|], y as [|q|]; simpl in H |- *; try contradiction;
    try (eexists; split; [reflexivity|discriminate]).
  exists (p ?= q)%Q. split; [reflexivity|].
  apply Qle_alt. exact H.
Qed.

Lemma sort_of_sorted (l : list json) :
  Sorted json_by_timestamp l -> sort coerce l = Ok l.
Proof.
  induction 1 as [|x l Hs IH Hhd]; [reflexivity|].
  simpl. rewrite IH. destruct Hhd as [|y l' Hxy]; [reflexivity|].
  simpl. destruct (comparefn_in_order x y Hxy) as [c [-> Hc]].
  destruct c; congruence.
Qed.

End SortingMore.

Lemma all_of_scenes_sorted_back (l : list json) (scs : list Scene.t) :
  Shape.all_of Shape.as_Scene l = Some scs ->
  Sorted by_timestamp scs ->
  Sorted json_by_timestamp l.
Proof.
  revert scs. induction l as [|j l IH]; intros scs H Hs; [constructor|].
  simpl in H. destruct (Shape.as_Scene j) as [sc|] eqn:Hj; [|discriminate H].
  destruct (Shape.all_of Shape.as_Scene l) as [rest|] eqn:Hl; [|discriminate H].
  injection H as <-. inversion Hs as [|? ? Hrest Hhd]; subst.
  constructor; [eapply IH; [reflexivity|exact Hrest]|].
  destruct l as [|j' l']; [constructor|].
  simpl in Hl. destruct (Shape.as_Scene j') as [sc'|] eqn:Hj'; [|discriminate Hl].
  destruct (Shape.all_of Shape.as_Scene l'); [|discriminate Hl].
  injection Hl as <-. inversion Hhd; subst. constructor.
  unfold json_by_timestamp, scene_timestamp. rewrite Hj, Hj'. assumption.
Qed.

(** X3. A response that is a Storyboard with its scenes already in
    ascending order of timestamp is returned exactly as received. *)
Theorem analyzeAudio_keeps_sorted_storyboard :
  forall (coerce : json -> numeric) (service : nat -> Reply)
         (audioBase64 mimeType : string) (w : World)
         (r : Response) (body : json) (sb : Storyboard.t),
    service (List.length (requests w)) = Resolved r ->
    text r = Some (Parsed body) ->
    Shape.as_Storyboard body = Some sb ->
    Sorted by_timestamp (Storyboard.scenes sb) ->
    snd (analyzeAudio coerce service audioBase64 mimeType w) = Ok body.
Proof.
  intros coerce service audioBase64 mimeType w r body sb Hsvc Htext Hshape Hsorted.
  rewrite analyzeAudio_run, Hsvc. simpl snd.
  unfold interpret. rewrite Htext. simpl JSON_parse_text.
  unfold Shape.as_Storyboard in Hshape.
  destruct body as [| | | | |fs]; try discriminate Hshape.
  destruct (Shape.as_string (field fs "title")); [|discriminate Hshape].
  destruct (Shape.as_ProductionDesign (field fs "production_design"));
    [|discriminate Hshape].
  destruct (field fs "scenes") as [[| | | |items|]|] eqn:Hitems;
    try discriminate Hshape.
  destruct (Shape.all_of Shape.as_Scene items) as [scs|] eqn:Hscs;
    [|discriminate Hshape].
  injection Hshape as <-. simpl in Hsorted.
  simpl member. rewrite Hitems. simpl truthy. cbv iota.
  rewrite (sort_of_sorted coerce items
             (all_of_scenes_sorted_back items scs Hscs Hsorted)).
  simpl with_member. rewrite (set_field_same_value fs "scenes" _ Hitems).
  reflexivity.
Qed.

Lemma analyzeAudio_keeps_sorted_storyboard_witness :
  snd (analyzeAudio no_coercion
         (replies_with
            (JObject [("title", JString "X");
                      ("production_design",
                        JObject [("art_style", JString "noir");
                                 ("recurring_elements", JArray [])]);
                      ("scenes", JArray [scene_json 0 "early"; scene_json 5 "late"])]))
         "SUQzBAA" "audio/mpeg" fresh_world)
  = Ok (JObject [("title", JString "X");
                 ("production_design",
                   JObject [("art_style", JString "noir");
                            ("recurring_elements", JArray [])]);
                 ("scenes", JArray [scene_json 0 "early"; scene_json 5 "late"])]).
Proof.
  eapply (analyzeAudio_keeps_sorted_storyboard no_coercion _ "SUQzBAA"
            "audio/mpeg" fresh_world).
  - reflexivity.
  - reflexivity.
  - reflexivity.
  - repeat constructor. simpl. unfold by_timestamp. simpl. discriminate.
Defined.

(** X4. Sorting twice changes nothing more.  A Storyboard that
    [analyzeAudio] returned, received again as a response, is returned as
    it is. *)
Theorem analyzeAudio_is_idempotent :
  forall (coerce : json -> numeric) (service service' : nat -> Reply)
         (audioBase64 mimeType : string) (w w1 w2 : World)
         (result : json) (sb : Storyboard.t),
    analyzeAudio coerce service audioBase64 mimeType w = (w1, Ok result) ->
    Shape.as_Storyboard result = Some sb ->
    service' (List.length (requests w2))
    = Resolved (mkResponse (Some (Parsed result)) []) ->
    snd (analyzeAudio coerce service' audioBase64 mimeType w2) = Ok result.
Proof.
  intros coerce service service' audioBase64 mimeType w w1 w2 result sb
         Hrun Hshape Hsvc'.
  rewrite analyzeAudio_run in Hrun. injection Hrun as _ Hres.
  destruct (service (List.length (requests w))) as [e|r]; [discriminate Hres|].
  destruct (interpret coerce (text r)) as [res|e] eqn:Hint; [|discriminate Hres].
  injection Hres as ->.
  apply interpret_returns in Hint.
  destruct Hint as [body [_ [[scenes [Hm [Hfalsy ->]]] | Hsorted]]].
  - (* a value with falsy [scenes] is no Storyboard *)
    exfalso. unfold Shape.as_Storyboard in Hshape.
    destruct body as [| | | | |fs]; try discriminate Hshape.
    simpl in Hm. injection Hm as <-.
    destruct (Shape.as_string (field fs "title")); [|discriminate Hshape].
    destruct (Shape.as_ProductionDesign (field fs "production_design"));
      [|discriminate Hshape].
    destruct (field fs "scenes") as [[| | | |items|]|];
      try discriminate Hshape; discriminate Hfalsy.
  - destruct Hsorted as (fs & items & sorted & -> & Hitems & Hsort & ->).
    pose proof Hshape as Hshape'. unfold Shape.as_Storyboard in Hshape'.
    rewrite !field_set_field_other in Hshape' by discriminate.
    rewrite (field_set_field_same fs "scenes" _ _ Hitems) in Hshape'.
    destruct (Shape.as_string (field fs "title")); [|discriminate Hshape'].
    destruct (Shape.as_ProductionDesign (field fs "production_design"));
      [|discriminate Hshape'].
    destruct (Shape.all_of Shape.as_Scene sorted) as [scs|] eqn:Hscs;
      [|discriminate Hshape'].
    clear Hshape'.
    assert (Hmembers : Forall (fun j => exists t, scene_timestamp j = Some t) items).
    { eapply Permutation_Forall;
        [apply Permutation_sym, (sort_permutation coerce items sorted Hsort)|].
      eapply all_of_scenes_members. exact Hscs. }
    pose proof (sort_sorts coerce items sorted Hmembers Hsort) as Hs.
    rewrite analyzeAudio_run, Hsvc'. simpl snd.
    unfold interpret. cbn [JSON_parse_text text member].
    rewrite (field_set_field_same fs "scenes" _ _ Hitems). cbn [truthy].
    rewrite (sort_of_sorted coerce sorted Hs).
    cbn [with_member].
    rewrite (set_field_same_value _ "scenes" _
               (field_set_field_same fs "scenes" _ _ Hitems)).
    reflexivity.
Qed.

Lemma analyzeAudio_is_idempotent_witness :
  exists (w1 : World) (result : json),
    analyzeAudio no_coercion (replies_with scenario_body)
      "SUQzBAA" "audio/mpeg" fresh_world = (w1, Ok result)
    /\ snd (analyzeAudio no_coercion (replies_with result)
              "SUQzBAA" "audio/mpeg" fresh_world) = Ok result.
Proof.
  eexists. eexists. split; [reflexivity|].
  eapply (analyzeAudio_is_idempotent no_coercion (replies_with scenario_body)
            _ "SUQzBAA" "audio/mpeg" fresh_world _ fresh_world).
  - reflexivity.
  - reflexivity.
  - reflexivity.
Defined.

(** X5. A response that parses but whose scenes cannot be sorted fails
    with the analysis error: the value [null]; a [scenes] that is truthy
    and not an array (a non-empty string, a non-zero number, [true], an
    object); an array of two or more elements one of which is [null]. *)
Theorem analyzeAudio_fails_on_unsortable_scenes :
  forall (coerce : json -> numeric) (service : nat -> Reply)
         (audioBase64 mimeType : string) (w : World)
         (r : Response) (body : json),
    service (List.length (requests w)) = Resolved r ->
    JSON_parse_text (text r) = Ok body ->
    body = JNull
    \/ (exists v, member body "scenes" = Ok (Some v)
                  /\ truthy (Some v) = true
                  /\ forall items, v <> JArray items)
    \/ (exists items, member body "scenes" = Ok (Some (JArray items))
                      /\ In JNull items /\ (2 <= List.length items)%nat) ->
    snd (analyzeAudio coerce service audioBase64 mimeType w)
    = Throw (mkError "Failed to interpret audio storyboard.").
Proof.
  intros coerce service audioBase64 mimeType w r body Hsvc Hparse Hcase.
  rewrite analyzeAudio_run, Hsvc. simpl snd.
  unfold interpret. rewrite Hparse.
  destruct Hcase as [-> | [(v & Hm & Ht & Hnot) | (items & Hm & Hin & Hlen)]].
  - reflexivity.
  - rewrite Hm, Ht.
    destruct v as [| | | |items|]; try reflexivity.
    exfalso. apply (Hnot items). reflexivity.
  - rewrite Hm. simpl truthy. cbv iota.
    destruct (sort_with_null_throws coerce items Hin Hlen) as [e ->].
    reflexivity.
Qed.

Lemma analyzeAudio_fails_on_unsortable_scenes_witness :
  snd (analyzeAudio no_coercion
         (replies_with (JObject [("scenes", JString "none")]))
         "SUQzBAA" "audio/mpeg" fresh_world)
  = Throw (mkError "Failed to interpret audio storyboard.")
  /\ snd (analyzeAudio no_coercion
            (replies_with (JObject [("scenes", JArray [scene_json 5 "late"; JNull])]))
            "SUQzBAA" "audio/mpeg" fresh_world)
     = Throw (mkError "Failed to interpret audio storyboard.").
Proof.
  split.
  - eapply (analyzeAudio_fails_on_unsortable_scenes no_coercion _ "SUQzBAA"
              "audio/mpeg" fresh_world); [reflexivity|reflexivity|].
    right. left. exists (JString "none").
    split; [reflexivity|]. split; [reflexivity|]. discriminate.
  - eapply (analyzeAudio_fails_on_unsortable_scenes no_coercion _ "SUQzBAA"
              "audio/mpeg" fresh_world); [reflexivity|reflexivity|].
    right. right. exists [scene_json 5 "late"; JNull].
    split; [reflexivity|]. split; [simpl; auto | simpl; lia].
Defined.

(* ===================================================================== *)
(** ** The file input and the playback position                           *)
(* ===================================================================== *)

(** X6. A file whose declared type starts with [audio/] is accepted: it
    becomes the chosen file (replacing any earlier one), a fresh object
    URL for it becomes the audio URL, a pending validation error is
    cleared, nothing else of the state changes and no request is sent;
    in the Idle state the start button is rendered afterwards.  With no
    file in the event, nothing happens. *)
Theorem audio_file_is_accepted :
  forall (f : File.t) (s : Snapshot) (w : World),
    String.prefix "audio/" (File.type f) = true ->
    let result := handleFileUpload (Some f) s w in
    audioFile (fst result) = Some f
    /\ audioUrl (fst result) = Some (mkObjectURL f (objectURLs w))
    /\ error (fst result) = None
    /\ state (fst result) = state s
    /\ storyboard (fst result) = storyboard s
    /\ progress (fst result) = progress s
    /\ currentSceneIndex (fst result) = currentSceneIndex s
    /\ requests (snd result) = requests w
    /\ timers (snd result) = timers w
    /\ objectURLs (snd result) = S (objectURLs w)
    /\ (state s = IDLE -> rendered (fst result) StartProduction = true)
    /\ handleFileUpload None s w = (s, w).
Proof.
  intros f s w Htype. unfold handleFileUpload. rewrite Htype. simpl.
  repeat split. intros Hidle. unfold rendered. simpl. rewrite Hidle. reflexivity.
Qed.

Lemma audio_file_is_accepted_witness :
  String.prefix "audio/" (File.type song) = true
  /\ rendered (fst (handleFileUpload (Some song) initial fresh_world))
       StartProduction = true
  /\ fst (handleFileUpload (Some song) initial fresh_world) = ready_to_start.
Proof.
  split; [reflexivity|].
  destruct (audio_file_is_accepted song initial fresh_world eq_refl)
    as (_ & _ & _ & _ & _ & _ & _ & _ & _ & _ & Hstart & _).
  split; [exact (Hstart eq_refl) | reflexivity].
Defined.

Lemma number_leb_le (a b : number) : number_leb a b = true <-> number_le a b.
Proof.
  destruct a as [|x|], b as [|y|]; simpl; try tauto;
    try (split; [discriminate | contradiction]).
  apply Qle_bool_iff.
Qed.

(** The [reduce] of [onTimeUpdate], from any index and default: either no
    scene has started and the default is kept, or the result is the last
    scene that has started. *)
Lemma scene_at_last_started (time : number) (scenes : list Scene.t) :
  forall (i p : nat),
    ((forall k sc, nth_error scenes k = Some sc ->
                   ~ number_le (Scene.timestamp sc) time)
     /\ scene_at time scenes i p = p)
    \/ (exists k sc,
           nth_error scenes k = Some sc
           /\ number_le (Scene.timestamp sc) time
           /\ scene_at time scenes i p = (i + k)%nat
           /\ forall k' sc', (k < k')%nat -> nth_error scenes k' = Some sc' ->
                             ~ number_le (Scene.timestamp sc') time).
Proof.
  induction scenes as [|c rest IH]; intros i p.
  - left. split; [|reflexivity]. intros k sc H. destruct k; discriminate H.
  - simpl.
    destruct (IH (i + 1)%nat
                (if number_leb (Scene.timestamp c) time then i else p))
      as [[Hnone Hres] | (k & sc & Hk & Hle & Hres & Hlater)].
    + destruct (number_leb (Scene.timestamp c) time) eqn:Hc.
      * right. exists 0%nat, c. split; [reflexivity|].
        split; [apply number_leb_le; exact Hc|].
        split; [rewrite Hres; lia|].
        intros k' sc' Hk' Hnth. destruct k' as [|k']; [lia|].
        apply (Hnone k' sc'). exact Hnth.
      * left. split; [|exact Hres].
        intros k sc Hnth. destruct k as [|k].
        -- injection Hnth as <-. intros Hle. apply number_leb_le in Hle.
           congruence.
        -- apply (Hnone k sc). exact Hnth.
    + right. exists (S k), sc. split; [exact Hk|]. split; [exact Hle|].
      split; [rewrite Hres; lia|].
      intros k' sc' Hk' Hnth. destruct k' as [|k']; [lia|].
      apply (Hlater k' sc'); [lia | exact Hnth].
Qed.

Lemma onTimeUpdate_index (time : number) (s : Snapshot) (b : Storyboard.t) :
  storyboard s = Some b ->
  currentSceneIndex (onTimeUpdate time s)
  = scene_at time (Storyboard.scenes b) 0 0.
Proof.
  intros Hb. unfold onTimeUpdate. rewrite Hb.
  destruct (Nat.eqb (scene_at time (Storyboard.scenes b) 0 0)
              (currentSceneIndex s)) eqn:He.
  - apply Nat.eqb_eq in He. symmetry. exact He.
  - reflexivity.
Qed.

(** X7. When the audio reports a playback time, the scene shown becomes
    the last scene whose timestamp is not after that time: if any scene
    has started, the index points at a scene that has started and no
    scene after it has; if none has, the index is 0.  With scenes, the
    index is always within them. *)
Theorem onTimeUpdate_shows_last_started_scene :
  forall (time : number) (s : Snapshot) (b : Storyboard.t),
    storyboard s = Some b ->
    let idx := currentSceneIndex (onTimeUpdate time s) in
    (forall k sc, (idx < k)%nat -> nth_error (Storyboard.scenes b) k = Some sc ->
                  ~ number_le (Scene.timestamp sc) time)
    /\ (forall k sc, nth_error (Storyboard.scenes b) k = Some sc ->
                     number_le (Scene.timestamp sc) time ->
                     (k <= idx)%nat
                     /\ exists shown, nth_error (Storyboard.scenes b) idx = Some shown
                                      /\ number_le (Scene.timestamp shown) time)
    /\ ((forall k sc, nth_error (Storyboard.scenes b) k = Some sc ->
                      ~ number_le (Scene.timestamp sc) time) -> idx = 0%nat)
    /\ (Storyboard.scenes b <> [] -> (idx < List.length (Storyboard.scenes b))%nat).
Proof.
  intros time s b Hb idx. subst idx.
  rewrite (onTimeUpdate_index time s b Hb).
  destruct (scene_at_last_started time (Storyboard.scenes b) 0 0)
    as [[Hnone Hres] | (k & sc & Hk & Hle & Hres & Hlater)]; rewrite Hres.
  - split; [intros k sc _ Hnth; apply (Hnone k sc Hnth)|].
    split; [intros k sc Hnth Hle; exfalso; apply (Hnone k sc Hnth Hle)|].
    split; [reflexivity|].
    intros Hne. destruct (Storyboard.scenes b); [contradiction|simpl; lia].
  - simpl Nat.add. split; [exact Hlater|]. split; [|split].
    + intros k' sc' Hnth Hle'. split.
      * destruct (Nat.le_gt_cases k' k) as [H|H]; [exact H|].
        exfalso. apply (Hlater k' sc' H Hnth Hle').
      * exists sc. auto.
    + intros Hnone. exfalso. apply (Hnone k sc Hk Hle).
    + intros _. apply nth_error_Some. congruence.
Qed.

Lemma onTimeUpdate_shows_last_started_scene_witness :
  storyboard (setStoryboard (fun _ => Some two_element_board) initial)
  = Some two_element_board
  /\ (currentSceneIndex
        (onTimeUpdate (Finite (11 # 2))
           (setStoryboard (fun _ => Some two_element_board) initial))
      < List.length (Storyboard.scenes two_element_board))%nat.
Proof.
  split; [reflexivity|].
  apply (proj2 (proj2 (proj2
           (onTimeUpdate_shows_last_started_scene (Finite (11 # 2))
              (setStoryboard (fun _ => Some two_element_board) initial)
              two_element_board eq_refl)))).
  discriminate.
Defined.

(** X8. Seeking to the timestamp of scene [i] shows scene [i], provided no
    later scene starts at or before that timestamp (as when timestamps
    strictly increase). *)
Theorem seeking_to_a_scene_shows_it :
  forall (s : Snapshot) (b : Storyboard.t) (i : nat) (scene : Scene.t),
    storyboard s = Some b ->
    nth_error (Storyboard.scenes b) i = Some scene ->
    (forall k sc, (i < k)%nat -> nth_error (Storyboard.scenes b) k = Some sc ->
                  ~ number_le (Scene.timestamp sc) (Scene.timestamp scene)) ->
    currentSceneIndex (onTimeUpdate (Scene.timestamp scene) s) = i.
Proof.
  intros s b i scene Hb Hi Hlater.
  rewrite (onTimeUpdate_index (Scene.timestamp scene) s b Hb).
  destruct (scene_at_last_started (Scene.timestamp scene) (Storyboard.scenes b) 0 0)
    as [[Hnone _] | (k & sc & Hk & Hle & Hres & Hafter)].
  - exfalso. apply (Hnone i scene Hi). apply number_le_refl.
  - rewrite Hres. simpl Nat.add.
    destruct (Nat.lt_trichotomy k i) as [Hlt | [Heq | Hgt]].
    + exfalso. apply (Hafter i scene Hlt Hi). apply number_le_refl.
    + exact Heq.
    + exfalso. apply (Hlater k sc Hgt Hk Hle).
Qed.

Lemma seeking_to_a_scene_shows_it_witness :
  currentSceneIndex
    (onTimeUpdate (Scene.timestamp chase)
       (setStoryboard (fun _ => Some two_element_board) initial)) = 1%nat.
Proof.
  apply (seeking_to_a_scene_shows_it
           (setStoryboard (fun _ => Some two_element_board) initial)
           two_element_board 1 chase eq_refl eq_refl).
  intros k sc Hk Hnth. destruct k as [|[|k]]; [lia|lia|].
  destruct k; discriminate Hnth.
Defined.

(** X9. A time update changes nothing but the scene index, and reporting
    the same time again changes nothing at all. *)
Theorem onTimeUpdate_only_moves_the_index :
  forall (time : number) (s : Snapshot),
    state (onTimeUpdate time s) = state s
    /\ audioFile (onTimeUpdate time s) = audioFile s
    /\ audioUrl (onTimeUpdate time s) = audioUrl s
    /\ storyboard (onTimeUpdate time s) = storyboard s
    /\ progress (onTimeUpdate time s) = progress s
    /\ error (onTimeUpdate time s) = error s
    /\ onTimeUpdate time (onTimeUpdate time s) = onTimeUpdate time s.
Proof.
  intros time s.
  assert (Hcases :
            onTimeUpdate time s = s
            \/ exists b, storyboard s = Some b
                         /\ onTimeUpdate time s
                            = setCurrentSceneIndex
                                (scene_at time (Storyboard.scenes b) 0 0) s).
  { unfold onTimeUpdate. destruct (storyboard s) as [b|]; [|left; reflexivity].
    destruct (Nat.eqb _ _); [left; reflexivity|right; eauto]. }
  destruct Hcases as [Hsame | [b [Hb Hmoved]]].
  - rewrite !Hsame. repeat split.
  - rewrite Hmoved. repeat split.
    unfold onTimeUpdate at 1. cbn [storyboard setCurrentSceneIndex currentSceneIndex].
    rewrite Hb, Nat.eqb_refl. reflexivity.
Qed.

(* ===================================================================== *)
(** ** What a run publishes                                               *)
(* ===================================================================== *)

Lemma generateImage_ok_data_url (service : nat -> Reply) (prompt : string)
  (referenceImages : list string) (retries : Retries) (w w' : World)
  (image : string) :
  generateImage service prompt referenceImages retries w = (w', Ok image) ->
  exists data, image = data_url data.
Proof.
  intros Hrun. unfold generateImage in Hrun.
  destruct (generateImage_exit service prompt referenceImages retries w)
    as [w1 [img|a err|]] eqn:Hexit; try discriminate Hrun.
  injection Hrun as -> ->.
  pose proof (retry_loop_returned service prompt referenceImages retries
                _ _ _ _ _ Hexit) as Hlast.
  unfold attempt_result in Hlast.
  destruct (service (List.length (requests w') - 1)%nat) as [e|r];
    [discriminate Hlast|].
  eapply extract_image_data_url. exact Hlast.
Qed.

Lemma scene_progress_refl (l : list Scene.t) : Forall2 scene_progress l l.
Proof. induction l; constructor; [left; reflexivity | assumption]. Qed.

Lemma scene_drawn_progress (l l' : list Scene.t) :
  Forall2 scene_drawn l l' -> Forall2 scene_progress l l'.
Proof. induction 1; constructor; [right; assumption | assumption]. Qed.

Lemma skipn_past {A : Type} (l1 : list A) (x : A) (l2 : list A) :
  skipn (List.length l1 + 1) (l1 ++ x :: l2) = l2.
Proof. induction l1 as [|y l1 IH]; [reflexivity | exact IH]. Qed.

Lemma published_shape_same (s : Snapshot) (sb : Storyboard.t) (x y : Snapshot) :
  published_shape s sb x ->
  audioFile y = audioFile x ->
  audioUrl y = audioUrl x ->
  currentSceneIndex y = currentSceneIndex x ->
  storyboard y = storyboard x ->
  published_shape s sb y.
Proof.
  intros [[H1 [H2 H3]] Hsb] Ha Hu Hi Hb. split.
  - unfold same_frame. rewrite Ha, Hu, Hi. auto.
  - rewrite Hb. exact Hsb.
Qed.

Lemma published_shape_storyboard (s : Snapshot) (sb b : Storyboard.t)
  (x y : Snapshot) :
  published_shape s sb x ->
  audioFile y = audioFile x ->
  audioUrl y = audioUrl x ->
  currentSceneIndex y = currentSceneIndex x ->
  storyboard y = Some b ->
  evolved sb b ->
  published_shape s sb y.
Proof.
  intros [[H1 [H2 H3]] _] Ha Hu Hi Hb He. split.
  - unfold same_frame. rewrite Ha, Hu, Hi. auto.
  - right. eauto.
Qed.

Lemma design_kept_stored (sb : Storyboard.t) (drawn_from pending updated : list VisualElement.t) :
  elements_of sb = drawn_from ++ pending ->
  Forall2 element_drawn drawn_from updated ->
  design_kept sb (stored_in_phase2 sb updated).
Proof.
  intros Hsplit Hdrawn. destruct updated as [|u updated].
  - simpl. repeat split. left. reflexivity.
  - simpl. repeat split. right. exists drawn_from, pending. auto.
Qed.

Section Shapes.

Variable service : nat -> Reply.
Variable s : Snapshot.
Variable sb : Storyboard.t.

(** Phase 2: every state it publishes has the shape of a published
    state, the error is not touched, and when the loop completes every
    element of Phase 1 has its data URL. *)
Lemma design_elements_shapes (total : nat) (pending : list VisualElement.t) :
  forall (drawn_from : list VisualElement.t) (i : nat)
         (updated : list VisualElement.t) (r r' : Run)
         (res : Completion (list VisualElement.t)),
    elements_of sb = drawn_from ++ pending ->
    Forall2 element_drawn drawn_from updated ->
    storyboard (now r) = Some (stored_in_phase2 sb updated) ->
    Forall (published_shape s sb) (now r :: past r) ->
    design_elements service sb total pending i updated r = (r', res) ->
    Forall (published_shape s sb) (now r' :: past r')
    /\ error (now r') = error (now r)
    /\ match res with
       | Ok updatedElements =>
           Forall2 element_drawn (elements_of sb) updatedElements
           /\ storyboard (now r') = Some (stored_in_phase2 sb updatedElements)
       | Throw _ => True
       end.
Proof.
  induction pending as [|el rest IH];
    intros drawn_from i updated r r' res Hsplit Hdrawn Hst Hall Hrun.
  - simpl in Hrun. unfold done in Hrun. injection Hrun as <- <-.
    rewrite app_nil_r in Hsplit. rewrite Hsplit. auto.
  - simpl in Hrun. unfold and_then at 1 in Hrun. unfold update at 1 in Hrun.
    unfold and_then at 1 in Hrun. unfold await at 1 in Hrun.
    set (p := percent (i + 1) total) in *.
    change (world (push (setProgress p) r)) with (world r) in Hrun.
    assert (Hhead : published_shape s sb (now r)) by (inversion Hall; assumption).
    assert (Hx1 : published_shape s sb (setProgress p (now r))).
    { exact (published_shape_same s sb (now r) (setProgress p (now r)) Hhead
               eq_refl eq_refl eq_refl eq_refl). }
    destruct (generateImage service (element_prompt sb el) [] (integer 2) (world r))
      as [w' [url|e]] eqn:Hgen.
    + destruct (generateImage_ok_data_url _ _ _ _ _ _ _ Hgen) as [data ->].
      unfold and_then at 1 in Hrun. unfold update at 1 in Hrun.
      set (el' := element_with_image el (data_url data)) in *.
      set (r2 := push (setStoryboard (option_map (with_elements (updated ++ [el']))))
                   (mkRun (now (push (setProgress p) r))
                      (past (push (setProgress p) r)) w')) in *.
      assert (Hdrawn2 : Forall2 element_drawn (drawn_from ++ [el]) (updated ++ [el'])).
      { apply Forall2_app; [exact Hdrawn|]. constructor; [|constructor].
        exists data. reflexivity. }
      assert (Hsplit2 : elements_of sb = (drawn_from ++ [el]) ++ rest).
      { rewrite <- app_assoc. exact Hsplit. }
      assert (Hst2 : storyboard (now r2) = Some (stored_in_phase2 sb (updated ++ [el']))).
      { unfold r2, push. simpl. rewrite Hst. simpl.
        rewrite with_elements_stored, stored_in_phase2_snoc. reflexivity. }
      assert (Hall2 : Forall (published_shape s sb) (now r2 :: past r2)).
      { unfold r2, push. cbn [now past].
        constructor; [|constructor; assumption].
        assert (Hev : evolved sb (stored_in_phase2 sb (updated ++ [el']))).
        { split; [eapply design_kept_stored; eassumption|].
          rewrite stored_in_phase2_scenes. apply scene_progress_refl. }
        exact (published_shape_storyboard s sb _ (now r) (now r2) Hhead
                 eq_refl eq_refl eq_refl Hst2 Hev). }
      destruct (IH (drawn_from ++ [el]) (i + 1)%nat (updated ++ [el']) r2 r' res
                  Hsplit2 Hdrawn2 Hst2 Hall2 Hrun) as (Hall' & Herr & Hres).
      split; [exact Hall'|]. split; [rewrite Herr; reflexivity | exact Hres].
    + injection Hrun as <- <-. unfold push. cbn [now past].
      split; [constructor; assumption|]. split; [reflexivity | exact I].
Qed.

(** Phase 3: every state it publishes has the shape of a published
    state, the error is not touched, and when the loop completes every
    scene of Phase 1 has its data URL, the production design being the
    one Phase 2 left. *)
Lemma generate_scenes_shapes (refImages : list string) (total : nat)
  (pending : list Scene.t) :
  forall (drawn_from : list Scene.t) (i : nat) (updated : list Scene.t)
         (r r' : Run) (res : Completion unit) (b : Storyboard.t),
    Storyboard.scenes sb = drawn_from ++ pending ->
    List.length drawn_from = i ->
    Forall2 scene_drawn drawn_from updated ->
    storyboard (now r) = Some b ->
    design_kept sb b ->
    Storyboard.scenes b = updated ++ pending ->
    Forall (published_shape s sb) (now r :: past r) ->
    generate_scenes service sb refImages total pending i updated r = (r', res) ->
    Forall (published_shape s sb) (now r' :: past r')
    /\ error (now r') = error (now r)
    /\ match res with
       | Ok _ =>
           exists b', storyboard (now r') = Some b'
                      /\ design_kept sb b'
                      /\ Storyboard.production_design b'
                         = Storyboard.production_design b
                      /\ Forall2 scene_drawn (Storyboard.scenes sb)
                           (Storyboard.scenes b')
       | Throw _ => True
       end.
Proof.
  induction pending as [|scene rest IH];
    intros drawn_from i updated r r' res b Hsplit Hlen Hdrawn Hst Hkept Hsc Hall Hrun.
  - simpl in Hrun. unfold done in Hrun. injection Hrun as <- <-.
    split; [exact Hall|]. split; [reflexivity|].
    exists b. rewrite app_nil_r in Hsplit, Hsc. rewrite Hsplit, Hsc. auto.
  - simpl in Hrun. unfold and_then at 1 in Hrun. unfold update at 1 in Hrun.
    unfold and_then at 1 in Hrun. unfold await at 1 in Hrun.
    set (p := percent (i + 1) total) in *.
    change (world (push (setProgress p) r)) with (world r) in Hrun.
    assert (Hhead : published_shape s sb (now r)) by (inversion Hall; assumption).
    assert (Hx1 : published_shape s sb (setProgress p (now r))).
    { exact (published_shape_same s sb (now r) (setProgress p (now r)) Hhead
               eq_refl eq_refl eq_refl eq_refl). }
    destruct (generateImage service (scene_prompt sb scene) refImages (integer 2) (world r))
      as [w' [url|e]] eqn:Hgen.
    + destruct (generateImage_ok_data_url _ _ _ _ _ _ _ Hgen) as [data ->].
      unfold and_then at 1 in Hrun. unfold update at 1 in Hrun.
      set (sc' := scene_with_image scene (data_url data)) in *.
      assert (Hnext : (updated ++ [sc']) ++ skipn (i + 1) (Storyboard.scenes sb)
                      = (updated ++ [sc']) ++ rest).
      { rewrite Hsplit, <- Hlen, skipn_past. reflexivity. }
      rewrite Hnext in Hrun.
      set (next := (updated ++ [sc']) ++ rest) in *.
      set (r2 := push (setStoryboard (option_map (with_scenes next)))
                   (mkRun (now (push (setProgress p) r))
                      (past (push (setProgress p) r)) w')) in *.
      assert (Hst2 : storyboard (now r2) = Some (with_scenes next b)).
      { unfold r2, push. simpl. rewrite Hst. reflexivity. }
      assert (Hdrawn2 : Forall2 scene_drawn (drawn_from ++ [scene]) (updated ++ [sc'])).
      { apply Forall2_app; [exact Hdrawn|]. constructor; [|constructor].
        exists data. reflexivity. }
      assert (Hsplit2 : Storyboard.scenes sb = (drawn_from ++ [scene]) ++ rest).
      { rewrite <- app_assoc. exact Hsplit. }
      assert (Hlen2 : List.length (drawn_from ++ [scene]) = (i + 1)%nat).
      { rewrite length_app. simpl. lia. }
      assert (Hkept2 : design_kept sb (with_scenes next b)) by exact Hkept.
      assert (Hall2 : Forall (published_shape s sb) (now r2 :: past r2)).
      { unfold r2, push. cbn [now past].
        constructor; [|constructor; assumption].
        assert (Hev : evolved sb (with_scenes next b)).
        { split; [exact Hkept2|]. simpl. rewrite Hsplit2. unfold next.
          apply Forall2_app; [apply scene_drawn_progress; exact Hdrawn2|].
          apply scene_progress_refl. }
        exact (published_shape_storyboard s sb _ (now r) (now r2) Hhead
                 eq_refl eq_refl eq_refl Hst2 Hev). }
      destruct (IH (drawn_from ++ [scene]) (i + 1)%nat (updated ++ [sc']) r2 r' res
                  (with_scenes next b) Hsplit2 Hlen2 Hdrawn2 Hst2 Hkept2 eq_refl
                  Hall2 Hrun) as (Hall' & Herr & Hres).
      split; [exact Hall'|]. split; [rewrite Herr; reflexivity|].
      destruct res as [u|e]; [|exact I].
      destruct Hres as (b' & Hb' & Hk' & Hd' & Hs'). exists b'. auto.
    + injection Hrun as <- <-. unfold push. cbn [now past].
      split; [constructor; assumption|]. split; [reflexivity | exact I].
Qed.

End Shapes.

Lemma published_shape_untouched (s : Snapshot) (sb : Storyboard.t) (x : Snapshot) :
  untouched s x -> published_shape s sb x.
Proof. intros [Hf Hb]. split; [exact Hf | left; exact Hb]. Qed.

Lemma begun_untouched (s : Snapshot) (w w1 : World) :
  Forall (untouched s)
    (now (at_world (begun s w) w1) :: past (at_world (begun s w) w1)).
Proof.
  unfold at_world, begun, push. cbn [now past].
  repeat constructor.
Qed.

Lemma fail_with_shapes (P : Snapshot -> Prop) (e : JsError) (r : Run) :
  (forall x y, P x -> audioFile y = audioFile x -> audioUrl y = audioUrl x ->
               currentSceneIndex y = currentSceneIndex x ->
               storyboard y = storyboard x -> P y) ->
  Forall P (now r :: past r) ->
  Forall P (now (fail_with e r) :: past (fail_with e r)).
Proof.
  intros Hsame Hall. unfold fail_with, push. cbn [now past].
  assert (Hhead : P (now r)) by (inversion Hall; assumption).
  assert (H1 : P (setError (Some (error_text e)) (now r))).
  { apply (Hsame (now r)); auto. }
  constructor; [|constructor; assumption].
  apply (Hsame (setError (Some (error_text e)) (now r))); auto.
Qed.

Lemma untouched_same (s x y : Snapshot) :
  untouched s x -> audioFile y = audioFile x -> audioUrl y = audioUrl x ->
  currentSceneIndex y = currentSceneIndex x ->
  storyboard y = storyboard x -> untouched s y.
Proof.
  intros [[H1 [H2 H3]] H4] Ha Hu Hi Hb. unfold untouched, same_frame.
  rewrite Ha, Hu, Hi, Hb. auto.
Qed.

Lemma error_text_not_empty (e : JsError) : error_text e <> EmptyString.
Proof.
  unfold error_text. destruct (String.eqb (message e) EmptyString) eqn:H.
  - discriminate.
  - apply String.eqb_neq. exact H.
Qed.

Lemma stored_elements_drawn (sb : Storyboard.t) (updated : list VisualElement.t) :
  Forall2 element_drawn (elements_of sb) updated ->
  Forall2 element_drawn (elements_of sb) (elements_of (stored_in_phase2 sb updated)).
Proof.
  intros H. destruct updated as [|u updated]; [|exact H].
  simpl. inversion H. constructor.
Qed.

Section Reports.

Variable analyzeAudio : string -> string -> Async Storyboard.t.
Variable service : nat -> Reply.

(** What a run leaves, by the way its analysis went. *)
Lemma run_report (s : Snapshot) (w : World) (f : File.t) :
  audioFile s = Some f ->
  let run := processAudio analyzeAudio service s w in
  match analyzeAudio (File.base64 f) (File.type f) w with
  | (_, Throw e) =>
      Forall (untouched s) (now run :: past run)
      /\ state (now run) = ERROR
      /\ error (now run) = Some (error_text e)
  | (_, Ok sb) =>
      Forall (published_shape s sb) (now run :: past run)
      /\ ((state (now run) = READY
           /\ error (now run) = None
           /\ exists b, storyboard (now run) = Some b
                        /\ design_kept sb b
                        /\ Forall2 element_drawn (elements_of sb) (elements_of b)
                        /\ Forall2 scene_drawn (Storyboard.scenes sb)
                             (Storyboard.scenes b))
          \/ (state (now run) = ERROR
              /\ exists e, error (now run) = Some (error_text e)))
  end.
Proof.
  intros Hf run. subst run.
  rewrite (processAudio_cases analyzeAudio service s w f Hf).
  destruct (analyzeAudio (File.base64 f) (File.type f) w) as [w1 [sb|e]].
  - set (r0 := at_world (begun s w) w1).
    assert (Hall0 : Forall (published_shape s sb) (now r0 :: past r0)).
    { eapply Forall_impl; [|apply begun_untouched].
      intros x. apply published_shape_untouched. }
    assert (Hhead0 : published_shape s sb (now r0)) by (inversion Hall0; assumption).
    assert (Hall1 : Forall (published_shape s sb)
                      (now (designing sb r0) :: past (designing sb r0))).
    { unfold designing, push. cbn [now past].
      assert (Hev : evolved sb sb).
      { split; [repeat split; left; reflexivity | apply scene_progress_refl]. }
      assert (Hx : published_shape s sb (setStoryboard (fun _ => Some sb) (now r0))).
      { exact (published_shape_storyboard s sb sb (now r0)
                 (setStoryboard (fun _ => Some sb) (now r0)) Hhead0
                 eq_refl eq_refl eq_refl eq_refl Hev). }
      constructor; [|constructor; assumption].
      exact (published_shape_same s sb _
               (setState DESIGNING_ELEMENTS
                  (setStoryboard (fun _ => Some sb) (now r0)))
               Hx eq_refl eq_refl eq_refl eq_refl). }
    destruct (design_elements service sb (List.length (elements_of sb))
                (elements_of sb) 0 [] (designing sb r0)) as [r2 res2] eqn:Hd.
    destruct (design_elements_shapes service s sb _ (elements_of sb) [] 0%nat []
                (designing sb r0) _ _
                eq_refl (Forall2_nil _) eq_refl Hall1 Hd)
      as (Hall2 & Herr2 & Hres2).
    change (error (now (designing sb r0))) with (@None string) in Herr2.
    destruct res2 as [updatedElements|e].
    + destruct Hres2 as [Hdrawn Hst2].
      set (r3 := push (setState GENERATING_IMAGES) r2).
      assert (Hhead2 : published_shape s sb (now r2)) by (inversion Hall2; assumption).
      assert (Hall3 : Forall (published_shape s sb) (now r3 :: past r3)).
      { unfold r3, push. cbn [now past]. constructor; [|exact Hall2].
        exact (published_shape_same s sb _ (setState GENERATING_IMAGES (now r2))
                 Hhead2 eq_refl eq_refl eq_refl eq_refl). }
      assert (Hkept : design_kept sb (stored_in_phase2 sb updatedElements)).
      { apply (design_kept_stored sb (elements_of sb) [] updatedElements);
          [rewrite app_nil_r; reflexivity | exact Hdrawn]. }
      destruct (generate_scenes service sb (present_images updatedElements)
                  (List.length (Storyboard.scenes sb)) (Storyboard.scenes sb)
                  0 [] r3) as [r4 res4] eqn:Hg.
      destruct (generate_scenes_shapes service s sb _ _ (Storyboard.scenes sb)
                  [] 0%nat [] r3 _ _
                  (stored_in_phase2 sb updatedElements)
                  eq_refl eq_refl (Forall2_nil _) Hst2 Hkept
                  (stored_in_phase2_scenes sb updatedElements) Hall3 Hg)
        as (Hall4 & Herr4 & Hres4).
      change (error (now r3)) with (error (now r2)) in Herr4.
      destruct res4 as [u|e].
      * destruct Hres4 as (b' & Hb' & Hk' & Hd' & Hs').
        assert (Hhead4 : published_shape s sb (now r4)) by (inversion Hall4; assumption).
        split.
        { unfold push. cbn [now past]. constructor; [|exact Hall4].
          exact (published_shape_same s sb _ (setState READY (now r4))
                   Hhead4 eq_refl eq_refl eq_refl eq_refl). }
        left. split; [reflexivity|].
        split; [cbn; rewrite Herr4, Herr2; reflexivity|].
        exists b'. split; [exact Hb'|]. split; [exact Hk'|]. split; [|exact Hs'].
        unfold elements_of at 2. rewrite Hd'.
        apply stored_elements_drawn. exact Hdrawn.
      * split.
        { apply fail_with_shapes; [|exact Hall4].
          intros x y. apply published_shape_same. }
        right. split; [reflexivity|]. exists e. reflexivity.
    + split.
      { apply fail_with_shapes; [|exact Hall2].
        intros x y. apply published_shape_same. }
      right. split; [reflexivity|]. exists e. reflexivity.
  - split; [|split; reflexivity].
    apply fail_with_shapes; [|apply begun_untouched].
    intros x y. apply untouched_same.
Qed.

End Reports.

Lemma scene_progress_fields (l l' : list Scene.t) :
  Forall2 scene_progress l l' ->
  map Scene.timestamp l' = map Scene.timestamp l
  /\ map Scene.description l' = map Scene.description l
  /\ map Scene.visual_prompt l' = map Scene.visual_prompt l
  /\ map Scene.timing_rationale l' = map Scene.timing_rationale l.
Proof.
  induction 1 as [|a b l l' Hab Hrest (IH1 & IH2 & IH3 & IH4)];
    [repeat split|].
  simpl. rewrite IH1, IH2, IH3, IH4.
  destruct Hab as [->|[data ->]]; repeat split.
Qed.

Lemma sorted_by_same_timestamps (l l' : list Scene.t) :
  Forall2 (fun a b => Scene.timestamp b = Scene.timestamp a) l l' ->
  Sorted by_timestamp l -> Sorted by_timestamp l'.
Proof.
  induction 1 as [|a b l l' Hab Hrest IH]; intros Hs; [constructor|].
  inversion Hs as [|? ? Hsl Hhd]; subst.
  constructor; [apply IH; exact Hsl|].
  destruct Hrest as [|a' b' l l' Ha'b' Hrest']; [constructor|].
  inversion Hhd; subst. constructor.
  unfold by_timestamp in *. rewrite Hab, Ha'b'. assumption.
Qed.

Lemma scene_progress_timestamps (l l' : list Scene.t) :
  Forall2 scene_progress l l' ->
  Forall2 (fun a b => Scene.timestamp b = Scene.timestamp a) l l'.
Proof.
  induction 1 as [|a b l l' Hab Hrest IH]; constructor; [|exact IH].
  destruct Hab as [->|[data ->]]; reflexivity.
Qed.

Lemma element_drawn_fields (l l' : list VisualElement.t) :
  Forall2 element_drawn l l' ->
  map VisualElement.name l' = map VisualElement.name l
  /\ map VisualElement.description l' = map VisualElement.description l
  /\ Forall (fun el => exists data, VisualElement.imageUrl el = Some (data_url data)) l'.
Proof.
  induction 1 as [|a b l l' [data ->] Hrest (IH1 & IH2 & IH3)];
    [repeat split; constructor|].
  simpl. rewrite IH1, IH2. repeat split. constructor; [|exact IH3].
  exists data. reflexivity.
Qed.

Lemma scene_drawn_images (l l' : list Scene.t) :
  Forall2 scene_drawn l l' ->
  Forall (fun sc => exists data, Scene.imageUrl sc = Some (data_url data)) l'.
Proof.
  induction 1 as [|a b l l' [data ->] Hrest IH]; constructor; [|exact IH].
  exists data. reflexivity.
Qed.

(** X10. A run never touches the chosen file, its URL or the scene index:
    in every state it publishes they are as they were when the run was
    started. *)
Theorem run_leaves_file_and_index_alone :
  forall (analyzeAudio : string -> string -> Async Storyboard.t)
         (service : nat -> Reply) (s : Snapshot) (w : World) (x : Snapshot),
    In x (timeline (processAudio analyzeAudio service s w)) ->
    audioFile x = audioFile s
    /\ audioUrl x = audioUrl s
    /\ currentSceneIndex x = currentSceneIndex s.
Proof.
  intros analyzeAudio service s w x Hin.
  unfold timeline in Hin. apply in_rev in Hin.
  destruct (audioFile s) as [f|] eqn:Hf.
  - pose proof (run_report analyzeAudio service s w f Hf) as Hrep.
    cbv zeta in Hrep.
    destruct (analyzeAudio (File.base64 f) (File.type f) w) as [w1 [sb|e]].
    + destruct Hrep as [Hall _]. rewrite Forall_forall in Hall.
      destruct (Hall x Hin) as [[H1 [H2 H3]] _]. rewrite <- Hf. auto.
    + destruct Hrep as [Hall _]. rewrite Forall_forall in Hall.
      destruct (Hall x Hin) as [[H1 [H2 H3]] _]. rewrite <- Hf. auto.
  - unfold processAudio in Hin. rewrite Hf in Hin. simpl in Hin.
    destruct Hin as [<-|[]]. auto.
Qed.

(** X11. Every storyboard a run publishes is the one Phase 1 delivered but
    for images: same title and art style, the same scenes in the same
    order with their timestamps, captions and prompts (so scenes that
    came sorted stay sorted up to Ready), and as recurring elements the
    first ones of Phase 1, with their names and descriptions. *)
Theorem published_storyboards_keep_phase1_content :
  forall (analyzeAudio : string -> string -> Async Storyboard.t)
         (service : nat -> Reply) (s : Snapshot) (w w1 : World)
         (f : File.t) (sb : Storyboard.t),
    audioFile s = Some f ->
    storyboard s = None ->
    analyzeAudio (File.base64 f) (File.type f) w = (w1, Ok sb) ->
    forall (x : Snapshot) (b : Storyboard.t),
      In x (timeline (processAudio analyzeAudio service s w)) ->
      storyboard x = Some b ->
      Storyboard.title b = Storyboard.title sb
      /\ ProductionDesign.art_style (Storyboard.production_design b)
         = ProductionDesign.art_style (Storyboard.production_design sb)
      /\ map Scene.timestamp (Storyboard.scenes b)
         = map Scene.timestamp (Storyboard.scenes sb)
      /\ map Scene.description (Storyboard.scenes b)
         = map Scene.description (Storyboard.scenes sb)
      /\ map Scene.visual_prompt (Storyboard.scenes b)
         = map Scene.visual_prompt (Storyboard.scenes sb)
      /\ (Sorted by_timestamp (Storyboard.scenes sb) ->
          Sorted by_timestamp (Storyboard.scenes b))
      /\ (exists pending,
             map VisualElement.name (elements_of sb)
             = map VisualElement.name (elements_of b) ++ pending)
      /\ (exists pending,
             map VisualElement.description (elements_of sb)
             = map VisualElement.description (elements_of b) ++ pending).
Proof.
  intros analyzeAudio service s w w1 f sb Hf Hnone Han x b Hin Hb.
  unfold timeline in Hin. apply in_rev in Hin.
  pose proof (run_report analyzeAudio service s w f Hf) as Hrep.
  cbv zeta in Hrep. rewrite Han in Hrep. destruct Hrep as [Hall _].
  rewrite Forall_forall in Hall.
  destruct (Hall x Hin) as [_ [Hsame | [b' [Hb' Hev]]]].
  { rewrite Hnone in Hsame. congruence. }
  rewrite Hb in Hb'. injection Hb' as <-.
  destruct Hev as [(Htitle & Hstyle & Helems) Hscenes].
  destruct (scene_progress_fields _ _ Hscenes) as (Hts & Hdesc & Hprompt & _).
  repeat (split; [assumption|]).
  split.
  { apply sorted_by_same_timestamps. apply scene_progress_timestamps.
    exact Hscenes. }
  destruct Helems as [-> | (drawn_from & pending & Hsplit & Hdrawn)].
  - split; exists []; rewrite app_nil_r; reflexivity.
  - destruct (element_drawn_fields _ _ Hdrawn) as (Hn & Hd & _).
    rewrite Hsplit, !map_app, Hn, Hd. split; eauto.
Qed.

Lemma published_storyboards_keep_phase1_content_witness :
  audioFile ready_to_start = Some song
  /\ storyboard ready_to_start = None
  /\ (forall (x : Snapshot) (b : Storyboard.t),
         In x (timeline (processAudio (analysis_returns two_element_board)
                           always_draws ready_to_start fresh_world)) ->
         storyboard x = Some b ->
         map Scene.timestamp (Storyboard.scenes b)
         = [Finite (inject_Z 0); Finite (inject_Z 5)]).
Proof.
  split; [reflexivity|]. split; [reflexivity|].
  intros x b Hin Hb.
  exact (proj1 (proj2 (proj2
           (published_storyboards_keep_phase1_content
              (analysis_returns two_element_board) always_draws
              ready_to_start fresh_world _ song two_element_board
              eq_refl eq_refl eq_refl x b Hin Hb)))).
Defined.

(** X12. A run that ends Ready holds a complete storyboard: the one
    Phase 1 delivered, with a generated data URL as the image of every
    recurring element and of every scene, and no error. *)
Theorem ready_storyboard_is_complete :
  forall (analyzeAudio : string -> string -> Async Storyboard.t)
         (service : nat -> Reply) (s : Snapshot) (w : World) (f : File.t),
    audioFile s = Some f ->
    let run := processAudio analyzeAudio service s w in
    state (now run) = READY ->
    exists (w1 : World) (sb b : Storyboard.t),
      analyzeAudio (File.base64 f) (File.type f) w = (w1, Ok sb)
      /\ storyboard (now run) = Some b
      /\ error (now run) = None
      /\ Storyboard.title b = Storyboard.title sb
      /\ ProductionDesign.art_style (Storyboard.production_design b)
         = ProductionDesign.art_style (Storyboard.production_design sb)
      /\ Forall2 element_drawn (elements_of sb) (elements_of b)
      /\ Forall2 scene_drawn (Storyboard.scenes sb) (Storyboard.scenes b)
      /\ Forall (fun el => exists data,
                     VisualElement.imageUrl el = Some (data_url data))
           (elements_of b)
      /\ Forall (fun sc => exists data,
                     Scene.imageUrl sc = Some (data_url data))
           (Storyboard.scenes b).
Proof.
  intros analyzeAudio service s w f Hf run Hready.
  pose proof (run_report analyzeAudio service s w f Hf) as Hrep.
  cbv zeta in Hrep. fold run in Hrep.
  destruct (analyzeAudio (File.base64 f) (File.type f) w) as [w1 [sb|e]].
  - destruct Hrep as [_ [(_ & Herr & b & Hb & Hkept & Hel & Hsc) | [Herror _]]].
    + exists w1, sb, b. destruct Hkept as (Htitle & Hstyle & _).
      repeat (split; [assumption || reflexivity|]).
      split; [apply (element_drawn_fields _ _ Hel)|].
      apply (scene_drawn_images _ _ Hsc).
    + rewrite Hready in Herror. discriminate Herror.
  - destruct Hrep as (_ & Herror & _). rewrite Hready in Herror.
    discriminate Herror.
Qed.

Lemma ready_storyboard_is_complete_witness :
  audioFile ready_to_start = Some song
  /\ state (now (processAudio (analysis_returns two_element_board) always_draws
                   ready_to_start fresh_world)) = READY
  /\ error (now (processAudio (analysis_returns two_element_board) always_draws
                   ready_to_start fresh_world)) = None.
Proof.
  split; [reflexivity|]. split; [vm_compute; reflexivity|].
  destruct (ready_storyboard_is_complete (analysis_returns two_element_board)
              always_draws ready_to_start fresh_world song eq_refl
              ltac:(vm_compute; reflexivity))
    as (w1 & sb & b & _ & _ & Herr & _).
  exact Herr.
Defined.



Lemma run_leaves_file_and_index_alone_witness :
  In (now (processAudio (analysis_returns two_element_board) always_draws
             ready_to_start fresh_world))
    (timeline (processAudio (analysis_returns two_element_board) always_draws
                 ready_to_start fresh_world))
  /\ audioFile (now (processAudio (analysis_returns two_element_board)
                       always_draws ready_to_start fresh_world)) = Some song.
Proof.
  assert (Hin : In (now (processAudio (analysis_returns two_element_board)
                           always_draws ready_to_start fresh_world))
                  (timeline (processAudio (analysis_returns two_element_board)
                               always_draws ready_to_start fresh_world))).
  { unfold timeline. apply -> in_rev. left. reflexivity. }
  split; [exact Hin|].
  exact (proj1 (run_leaves_file_and_index_alone
                  (analysis_returns two_element_board) always_draws
                  ready_to_start fresh_world _ Hin)).
Defined.

(* ===================================================================== *)
(** ** The states the component can be in                                 *)
(* ===================================================================== *)

Lemma scene_at_in_bounds (time : number) (scenes : list Scene.t) :
  scenes <> [] -> (scene_at time scenes 0 0 < List.length scenes)%nat.
Proof.
  intros Hne.
  destruct (scene_at_last_started time scenes 0 0)
    as [[_ ->] | (k & sc & Hk & _ & -> & _)].
  - destruct scenes; [contradiction | simpl; lia].
  - simpl. apply nth_error_Some. congruence.
Qed.

Lemma initial_consistent : consistent initial.
Proof.
  constructor; simpl; auto; try discriminate.
Qed.

Lemma handleFileUpload_consistent (file : option File.t) (s : Snapshot) (w : World) :
  state s = IDLE ->
  consistent s ->
  consistent (fst (handleFileUpload file s w)).
Proof.
  intros Hidle Hc. unfold handleFileUpload.
  destruct file as [f|]; [|exact Hc].
  destruct (String.prefix "audio/" (File.type f)) eqn:Htype; simpl.
  - constructor; simpl; rewrite ?Hidle; auto; try discriminate.
    + intros _. apply (idle_clean s Hc Hidle).
    + intros f' Hf'. injection Hf' as <-. split; [exact Htype | eauto].
  - constructor; simpl; rewrite ?Hidle; auto; try discriminate.
    + intros _. apply (idle_clean s Hc Hidle).
    + apply (file_is_audio s Hc).
    + apply (url_has_file s Hc).
Qed.

Lemma onTimeUpdate_consistent (time : number) (s : Snapshot) :
  state s = READY ->
  consistent s ->
  consistent (onTimeUpdate time s).
Proof.
  intros Hready Hc.
  destruct (ready_complete s Hc Hready) as (b & Hb & Herr & Hel & Hsc & Hidx).
  unfold onTimeUpdate. rewrite Hb.
  destruct (Nat.eqb (scene_at time (Storyboard.scenes b) 0 0) (currentSceneIndex s));
    [exact Hc|].
  constructor; simpl; rewrite ?Hready; auto; try discriminate.
  - apply (file_is_audio s Hc).
  - apply (url_has_file s Hc).
  - intros _. exists b. repeat (split; [assumption|]).
    apply scene_at_in_bounds.
Qed.

Lemma processAudio_consistent
  (analyzeAudio : string -> string -> Async Storyboard.t)
  (service : nat -> Reply) (s : Snapshot) (w : World) :
  rendered s StartProduction = true ->
  consistent s ->
  consistent (now (processAudio analyzeAudio service s w)).
Proof.
  intros Hr Hc. destruct (rendered_start s Hr) as [Hidle [f Hf]].
  destruct (idle_clean s Hc Hidle) as (_ & _ & Hindex).
  pose proof (run_report analyzeAudio service s w f Hf) as Hrep.
  cbv zeta in Hrep.
  set (run := processAudio analyzeAudio service s w) in *.
  assert (Hframe : same_frame s (now run)).
  { destruct (analyzeAudio (File.base64 f) (File.type f) w) as [w1 [sb|e]];
      destruct Hrep as [Hall _]; inversion Hall as [|? ? Hhead _];
      apply Hhead. }
  destruct Hframe as (Hfile & Hurl & Hidx).
  assert (Hend : (state (now run) = READY
                  /\ exists b, storyboard (now run) = Some b
                               /\ error (now run) = None
                               /\ Forall (fun el => exists data,
                                              VisualElement.imageUrl el
                                              = Some (data_url data))
                                    (elements_of b)
                               /\ Forall (fun sc => exists data,
                                              Scene.imageUrl sc
                                              = Some (data_url data))
                                    (Storyboard.scenes b))
                 \/ (state (now run) = ERROR
                     /\ exists e, error (now run) = Some (error_text e))).
  { destruct (analyzeAudio (File.base64 f) (File.type f) w) as [w1 [sb|e]].
    - destruct Hrep as [_ [(Hready & Herr & b & Hb & _ & Hel & Hsc) | Herror]].
      + left. split; [exact Hready|]. exists b.
        split; [exact Hb|]. split; [exact Herr|].
        split; [apply (element_drawn_fields _ _ Hel)|].
        apply (scene_drawn_images _ _ Hsc).
      + right. exact Herror.
    - destruct Hrep as (_ & Herror & He). right. eauto. }
  constructor.
  - intros H. destruct Hend as [[H' _]|[H' _]]; rewrite H' in H; discriminate H.
  - rewrite Hfile, Hurl. apply (file_is_audio s Hc).
  - rewrite Hfile, Hurl. apply (url_has_file s Hc).
  - intros H. destruct Hend as [[_ (b & Hb & Herr & Hel & Hsc)]|[H' _]];
      [|rewrite H' in H; discriminate H].
    exists b. repeat (split; [assumption|]).
    intros Hne. rewrite Hidx, Hindex.
    destruct (Storyboard.scenes b); [contradiction | simpl; lia].
  - intros H. destruct Hend as [[H' _]|[_ [e He]]];
      [rewrite H' in H; discriminate H|].
    exists (error_text e). split; [exact He | apply error_text_not_empty].
Qed.

(** Every state the component can be in is consistent. *)
Lemma reachable_consistent (s : Snapshot) : reachable s -> consistent s.
Proof.
  induction 1 as [|analyzeAudio service s e w Hreach IH Hr].
  - exact initial_consistent.
  - destruct e as [file| | |time]; cbn [dispatch fst].
    + apply handleFileUpload_consistent; [|exact IH].
      unfold rendered in Hr. apply is_state_eq. exact Hr.
    + apply processAudio_consistent; assumption.
    + exact initial_consistent.
    + apply onTimeUpdate_consistent; [|exact IH].
      unfold rendered in Hr. apply andb_prop in Hr.
      apply is_state_eq. apply Hr.
Qed.

(** X14. The pipeline only ever runs on an audio file.  In every state the
    component can be in, a chosen file has a declared type starting with
    [audio/] and the audio URL is an object URL of that very file; with
    no file there is no URL. *)
Theorem chosen_file_is_always_audio :
  forall s : Snapshot,
    reachable s ->
    (forall f, audioFile s = Some f ->
               String.prefix "audio/" (File.type f) = true
               /\ exists n, audioUrl s = Some (mkObjectURL f n))
    /\ (audioFile s = None -> audioUrl s = None)
    /\ (rendered s StartProduction = true ->
        exists f, audioFile s = Some f
                  /\ String.prefix "audio/" (File.type f) = true).
Proof.
  intros s Hreach. pose proof (reachable_consistent s Hreach) as Hc.
  split; [apply (file_is_audio s Hc)|]. split; [apply (url_has_file s Hc)|].
  intros Hr. destruct (rendered_start s Hr) as [_ [f Hf]].
  exists f. split; [exact Hf|]. apply (file_is_audio s Hc f Hf).
Qed.

Lemma chosen_file_is_always_audio_witness :
  reachable ready_to_start
  /\ exists f, audioFile ready_to_start = Some f
               /\ String.prefix "audio/" (File.type f) = true.
Proof.
  assert (Hreach : reachable ready_to_start).
  { exact (reachable_event (analysis_returns two_element_board) always_draws
             initial (FileChosen (Some song)) fresh_world
             reachable_initial eq_refl). }
  split; [exact Hreach|].
  exact (proj2 (proj2 (chosen_file_is_always_audio ready_to_start Hreach))
           eq_refl).
Defined.


(** X16. Whenever the component is Idle it is clean (no storyboard,
    progress 0, scene index 0), so every run starts from nothing.
    Whenever it is in the Error state, a message that is not empty is
    shown, and the one control rendered is the button that resets. *)
Theorem states_at_rest_are_clean :
  forall s : Snapshot,
    reachable s ->
    (state s = IDLE ->
     storyboard s = None /\ progress s = 0%Z /\ currentSceneIndex s = 0%nat)
    /\ (state s = ERROR ->
        (exists msg, error s = Some msg /\ msg <> EmptyString)
        /\ forall e : Event, rendered s e = true <-> e = ResetClicked).
Proof.
  intros s Hreach. pose proof (reachable_consistent s Hreach) as Hc.
  split; [apply (idle_clean s Hc)|].
  intros Herror. split; [apply (error_shown s Hc Herror)|].
  intros e. unfold rendered. rewrite Herror.
  destruct e; simpl; split; (reflexivity || discriminate).
Qed.


Lemma states_at_rest_are_clean_witness :
  reachable (fst (dispatch (analysis_returns one_element_board) always_rejects
                    StartProduction ready_to_start fresh_world))
  /\ state (fst (dispatch (analysis_returns one_element_board) always_rejects
                   StartProduction ready_to_start fresh_world)) = ERROR
  /\ (exists msg,
         error (fst (dispatch (analysis_returns one_element_board)
                       always_rejects StartProduction ready_to_start
                       fresh_world)) = Some msg
         /\ msg <> EmptyString).
Proof.
  assert (Hreach : reachable
                     (fst (dispatch (analysis_returns one_element_board)
                             always_rejects StartProduction ready_to_start
                             fresh_world))).
  { apply reachable_event; [|reflexivity].
    exact (reachable_event (analysis_returns one_element_board) always_rejects
             initial (FileChosen (Some song)) fresh_world
             reachable_initial eq_refl). }
  assert (Herror : state (fst (dispatch (analysis_returns one_element_board)
                                 always_rejects StartProduction ready_to_start
                                 fresh_world)) = ERROR)
    by (vm_compute; reflexivity).
  split; [exact Hreach|]. split; [exact Herror|].
  exact (proj1 (proj2 (states_at_rest_are_clean _ Hreach) Herror)).
Defined.

(* ===================================================================== *)
(** ** The requests of a run                                              *)
(* ===================================================================== *)

(** A call with the default two retries: one to three requests, the
    delays 1500 and 3000 at most. *)
Lemma generateImage_default_world (service : nat -> Reply) (prompt : string)
  (referenceImages : list string) (w w' : World) (res : Completion string) :
  generateImage service prompt referenceImages (integer 2) w = (w', res) ->
  exists (n : nat) (slept : list Z),
    (1 <= n <= 3)%nat
    /\ requests w'
       = requests w
           ++ repeat (ImageRequest (map reference_data referenceImages) prompt) n
    /\ timers w' = timers w ++ slept
    /\ Forall default_delay slept
    /\ objectURLs w' = objectURLs w.
Proof.
  intros Hrun. unfold generateImage in Hrun.
  destruct (generateImage_exit service prompt referenceImages (integer 2) w)
    as [w1 exit] eqn:Hexit.
  assert (Hw : w1 = w') by (destruct exit; congruence). subst w1.
  unfold generateImage_exit in Hexit. rewrite iterations_integer in Hexit.
  apply retry_loop_bounded in Hexit; [| lia | unfold iterations_left; lia].
  destruct Hexit as [n [Hn ->]]. exists n.
  exists (map (fun j => (1500 * (0 + Z.of_nat j + 1))%Z) (seq 0 (n - 1))).
  split; [simpl in Hn; lia|]. split; [reflexivity|]. split; [reflexivity|].
  split; [|reflexivity].
  assert (Hcases : n = 1%nat \/ n = 2%nat \/ n = 3%nat) by (simpl in Hn; lia).
  destruct Hcases as [-> | [-> | ->]]; simpl;
    repeat (apply Forall_cons; [unfold default_delay; auto|]);
    apply Forall_nil.
Qed.

Lemma present_images_drawn (els upd : list VisualElement.t) :
  Forall2 element_drawn els upd ->
  List.length (present_images upd) = List.length els.
Proof.
  induction 1 as [|el el' els upd [data ->] Hrest IH]; [reflexivity|].
  simpl. rewrite IH. reflexivity.
Qed.

Section Requests.

Variable service : nat -> Reply.
Variable sb : Storyboard.t.

(** Phase 2 sends, for the pending elements in order, one to three
    requests each, without reference images. *)
Lemma design_elements_requests (total : nat) (pending : list VisualElement.t) :
  forall (i : nat) (updated : list VisualElement.t) (r r' : Run)
         (res : Completion (list VisualElement.t)),
    design_elements service sb total pending i updated r = (r', res) ->
    exists (sent : list Request) (slept : list Z),
      requests (world r') = requests (world r) ++ sent
      /\ timers (world r') = timers (world r) ++ slept
      /\ objectURLs (world r') = objectURLs (world r)
      /\ Forall (element_request sb pending) sent
      /\ (List.length sent <= 3 * List.length pending)%nat
      /\ Forall default_delay slept
      /\ match res with
         | Ok updatedElements =>
             (List.length pending <= List.length sent)%nat
             /\ exists completed,
                  updatedElements = updated ++ completed
                  /\ Forall2 element_drawn pending completed
         | Throw _ => (1 <= List.length sent)%nat
         end.
Proof.
  induction pending as [|el rest IH]; intros i updated r r' res Hrun.
  - simpl in Hrun. unfold done in Hrun. injection Hrun as <- <-.
    exists [], []. rewrite !app_nil_r.
    split; [reflexivity|]. split; [reflexivity|]. split; [reflexivity|].
    split; [constructor|]. split; [simpl; lia|]. split; [constructor|].
    split; [simpl; lia|]. exists []. rewrite app_nil_r.
    split; [reflexivity|constructor].
  - simpl in Hrun. unfold and_then at 1 in Hrun. unfold update at 1 in Hrun.
    unfold and_then at 1 in Hrun. unfold await at 1 in Hrun.
    set (p := percent (i + 1) total) in *.
    change (world (push (setProgress p) r)) with (world r) in Hrun.
    destruct (generateImage service (element_prompt sb el) [] (integer 2) (world r))
      as [w' [url|e]] eqn:Hgen.
    + destruct (generateImage_ok_data_url _ _ _ _ _ _ _ Hgen) as [data ->].
      destruct (generateImage_default_world _ _ _ _ _ _ Hgen)
        as (n & slept1 & Hn & Hreq1 & Htim1 & Hdel1 & Hurl1).
      unfold and_then at 1 in Hrun. unfold update at 1 in Hrun.
      apply IH in Hrun.
      destruct Hrun as (sent2 & slept2 & Hreq2 & Htim2 & Hurl2 & Hall2 & Hlen2
                        & Hdel2 & Hres2).
      cbn [world push] in Hreq2, Htim2, Hurl2.
      exists (repeat (ImageRequest [] (element_prompt sb el)) n ++ sent2),
        (slept1 ++ slept2).
      split; [rewrite Hreq2, Hreq1, <- app_assoc; reflexivity|].
      split; [rewrite Htim2, Htim1, <- app_assoc; reflexivity|].
      split; [rewrite Hurl2, Hurl1; reflexivity|].
      split.
      { apply Forall_app. split.
        - apply Forall_forall. intros q Hq. apply repeat_spec in Hq. subst q.
          exists el. split; [left; reflexivity | reflexivity].
        - eapply Forall_impl; [|exact Hall2].
          intros q [el0 [Hin ->]]. exists el0. split; [right; exact Hin | reflexivity]. }
      split; [rewrite length_app, repeat_length; simpl; lia|].
      split; [apply Forall_app; split; assumption|].
      destruct res as [upd|e].
      * destruct Hres2 as (Hge & completed & -> & Hdrawn). split.
        -- rewrite length_app, repeat_length. simpl. lia.
        -- exists (element_with_image el (data_url data) :: completed).
           split; [rewrite <- app_assoc; reflexivity|].
           constructor; [exists data; reflexivity | exact Hdrawn].
      * rewrite length_app, repeat_length. lia.
    + injection Hrun as <- <-.
      destruct (generateImage_default_world _ _ _ _ _ _ Hgen)
        as (n & slept1 & Hn & Hreq1 & Htim1 & Hdel1 & Hurl1).
      exists (repeat (ImageRequest [] (element_prompt sb el)) n), slept1.
      cbn [world]. split; [exact Hreq1|]. split; [exact Htim1|].
      split; [exact Hurl1|]. split.
      { apply Forall_forall. intros q Hq. apply repeat_spec in Hq. subst q.
        exists el. split; [left; reflexivity | reflexivity]. }
      split; [rewrite repeat_length; simpl; lia|].
      split; [exact Hdel1|]. rewrite repeat_length. lia.
Qed.

(** Phase 3 sends, for the pending scenes in order, one to three
    requests each, all with the same reference payloads. *)
Lemma generate_scenes_requests (refImages : list string) (total : nat)
  (pending : list Scene.t) :
  forall (i : nat) (updated : list Scene.t) (r r' : Run) (res : Completion unit),
    generate_scenes service sb refImages total pending i updated r = (r', res) ->
    exists (sent : list Request) (slept : list Z),
      requests (world r') = requests (world r) ++ sent
      /\ timers (world r') = timers (world r) ++ slept
      /\ objectURLs (world r') = objectURLs (world r)
      /\ Forall (scene_request sb (map reference_data refImages) pending) sent
      /\ (List.length sent <= 3 * List.length pending)%nat
      /\ Forall default_delay slept
      /\ match res with
         | Ok _ => (List.length pending <= List.length sent)%nat
         | Throw _ => (1 <= List.length sent)%nat
         end.
Proof.
  induction pending as [|scene rest IH]; intros i updated r r' res Hrun.
  - simpl in Hrun. unfold done in Hrun. injection Hrun as <- <-.
    exists [], []. rewrite !app_nil_r.
    split; [reflexivity|]. split; [reflexivity|]. split; [reflexivity|].
    split; [constructor|]. split; [simpl; lia|]. split; [constructor|].
    simpl; lia.
  - simpl in Hrun. unfold and_then at 1 in Hrun. unfold update at 1 in Hrun.
    unfold and_then at 1 in Hrun. unfold await at 1 in Hrun.
    set (p := percent (i + 1) total) in *.
    change (world (push (setProgress p) r)) with (world r) in Hrun.
    destruct (generateImage service (scene_prompt sb scene) refImages (integer 2) (world r))
      as [w' [url|e]] eqn:Hgen.
    + destruct (generateImage_default_world _ _ _ _ _ _ Hgen)
        as (n & slept1 & Hn & Hreq1 & Htim1 & Hdel1 & Hurl1).
      unfold and_then at 1 in Hrun. unfold update at 1 in Hrun.
      apply IH in Hrun.
      destruct Hrun as (sent2 & slept2 & Hreq2 & Htim2 & Hurl2 & Hall2 & Hlen2
                        & Hdel2 & Hres2).
      cbn [world push] in Hreq2, Htim2, Hurl2.
      exists (repeat (ImageRequest (map reference_data refImages)
                        (scene_prompt sb scene)) n ++ sent2),
        (slept1 ++ slept2).
      split; [rewrite Hreq2, Hreq1, <- app_assoc; reflexivity|].
      split; [rewrite Htim2, Htim1, <- app_assoc; reflexivity|].
      split; [rewrite Hurl2, Hurl1; reflexivity|].
      split.
      { apply Forall_app. split.
        - apply Forall_forall. intros q Hq. apply repeat_spec in Hq. subst q.
          exists scene. split; [left; reflexivity | reflexivity].
        - eapply Forall_impl; [|exact Hall2].
          intros q [sc [Hin ->]]. exists sc. split; [right; exact Hin | reflexivity]. }
      split; [rewrite length_app, repeat_length; simpl; lia|].
      split; [apply Forall_app; split; assumption|].
      destruct res as [u|e]; rewrite length_app, repeat_length; simpl; lia.
    + injection Hrun as <- <-.
      destruct (generateImage_default_world _ _ _ _ _ _ Hgen)
        as (n & slept1 & Hn & Hreq1 & Htim1 & Hdel1 & Hurl1).
      exists (repeat (ImageRequest (map reference_data refImages)
                        (scene_prompt sb scene)) n), slept1.
      cbn [world]. split; [exact Hreq1|]. split; [exact Htim1|].
      split; [exact Hurl1|]. split.
      { apply Forall_forall. intros q Hq. apply repeat_spec in Hq. subst q.
        exists scene. split; [left; reflexivity | reflexivity]. }
      split; [rewrite repeat_length; simpl; lia|].
      split; [exact Hdel1|]. rewrite repeat_length. lia.
Qed.

End Requests.

(** X17. The requests of a run, after the analysis.  First the element
    requests: for recurring elements of the storyboard, with no
    reference image, at most three per element.  Then, only once every
    element has its image, the scene requests: for scenes of the
    storyboard, each carrying the same reference payloads, one per
    recurring element, at most three per scene.  The only delays are
    1500 and 3000 ms, and no object URL is created.  A run that ends
    Ready has sent at least one request per element and per scene; a run
    whose analysis fails sends no image request at all. *)
Theorem requests_of_a_run :
  forall (analyzeAudio : string -> string -> Async Storyboard.t)
         (service : nat -> Reply) (s : Snapshot) (w w1 : World) (f : File.t),
    audioFile s = Some f ->
    let run := processAudio analyzeAudio service s w in
    (forall e : JsError,
        analyzeAudio (File.base64 f) (File.type f) w = (w1, Throw e) ->
        world run = w1)
    /\ (forall sb : Storyboard.t,
           analyzeAudio (File.base64 f) (File.type f) w = (w1, Ok sb) ->
           exists (element_requests scene_requests : list Request)
                  (refs : list string) (slept : list Z),
             requests (world run)
             = requests w1 ++ element_requests ++ scene_requests
             /\ timers (world run) = timers w1 ++ slept
             /\ objectURLs (world run) = objectURLs w1
             /\ Forall (element_request sb (elements_of sb)) element_requests
             /\ Forall (scene_request sb refs (Storyboard.scenes sb)) scene_requests
             /\ List.length refs = List.length (elements_of sb)
             /\ (List.length element_requests
                 <= 3 * List.length (elements_of sb))%nat
             /\ (List.length scene_requests
                 <= 3 * List.length (Storyboard.scenes sb))%nat
             /\ Forall default_delay slept
             /\ (state (now run) = READY ->
                 (List.length (elements_of sb) <= List.length element_requests)%nat
                 /\ (List.length (Storyboard.scenes sb)
                     <= List.length scene_requests)%nat)).
Proof.
  intros analyzeAudio service s w w1 f Hf run. subst run.
  rewrite (processAudio_cases analyzeAudio service s w f Hf).
  split.
  - intros e Han. rewrite Han. reflexivity.
  - intros sb Han. rewrite Han.
    set (r1 := designing sb (at_world (begun s w) w1)).
    destruct (design_elements service sb (List.length (elements_of sb))
                (elements_of sb) 0 [] r1) as [r2 res2] eqn:Hd.
    destruct (design_elements_requests service sb _ _ _ _ _ _ _ Hd)
      as (sent2 & slept2 & Hreq2 & Htim2 & Hurl2 & Hall2 & Hlen2 & Hdel2 & Hres2).
    change (world r1) with w1 in Hreq2, Htim2, Hurl2.
    destruct res2 as [updatedElements|e].
    + destruct Hres2 as (Hge2 & completed & -> & Hdrawn).
      change ([] ++ completed) with completed in *.
      destruct (generate_scenes service sb (present_images completed)
                  (List.length (Storyboard.scenes sb)) (Storyboard.scenes sb)
                  0 [] (push (setState GENERATING_IMAGES) r2))
        as [r3 res3] eqn:Hg.
      destruct (generate_scenes_requests service sb _ _ _ _ _ _ _ _ Hg)
        as (sent3 & slept3 & Hreq3 & Htim3 & Hurl3 & Hall3 & Hlen3 & Hdel3 & Hres3).
      change (world (push (setState GENERATING_IMAGES) r2)) with (world r2)
        in Hreq3, Htim3, Hurl3.
      exists sent2, sent3, (map reference_data (present_images completed)),
        (slept2 ++ slept3).
      assert (Hworld : forall r : Run,
                 world r = world r3 ->
                 requests (world r) = requests w1 ++ sent2 ++ sent3
                 /\ timers (world r) = timers w1 ++ slept2 ++ slept3
                 /\ objectURLs (world r) = objectURLs w1).
      { intros r ->. rewrite Hreq3, Hreq2, Htim3, Htim2, Hurl3, Hurl2.
        rewrite <- !app_assoc. auto. }
      assert (Hrefs : List.length (map reference_data (present_images completed))
                      = List.length (elements_of sb)).
      { rewrite length_map. apply present_images_drawn. exact Hdrawn. }
      destruct res3 as [u|e].
      * destruct (Hworld (push (setState READY) r3) eq_refl) as (H1 & H2 & H3).
        split; [exact H1|]. split; [exact H2|]. split; [exact H3|].
        split; [exact Hall2|]. split; [exact Hall3|]. split; [exact Hrefs|].
        split; [exact Hlen2|]. split; [exact Hlen3|].
        split; [apply Forall_app; split; assumption|].
        intros _. split; assumption.
      * destruct (Hworld (fail_with e r3) eq_refl) as (H1 & H2 & H3).
        split; [exact H1|]. split; [exact H2|]. split; [exact H3|].
        split; [exact Hall2|]. split; [exact Hall3|]. split; [exact Hrefs|].
        split; [exact Hlen2|]. split; [exact Hlen3|].
        split; [apply Forall_app; split; assumption|].
        intros Hready. discriminate Hready.
    + exists sent2, [], (repeat EmptyString (List.length (elements_of sb))), slept2.
      change (world (fail_with e r2)) with (world r2).
      rewrite app_nil_r.
      split; [exact Hreq2|]. split; [exact Htim2|]. split; [exact Hurl2|].
      split; [exact Hall2|]. split; [constructor|].
      split; [apply repeat_length|].
      split; [exact Hlen2|]. split; [simpl; lia|]. split; [exact Hdel2|].
      intros Hready. discriminate Hready.
Qed.

Lemma requests_of_a_run_witness :
  audioFile ready_to_start = Some song
  /\ requests (world (processAudio (analysis_returns two_element_board)
                        always_draws ready_to_start fresh_world))
     = [AnalyzeRequest "SUQzBAA" "audio/mpeg";
        ImageRequest [] (element_prompt two_element_board hero);
        ImageRequest [] (element_prompt two_element_board villain);
        ImageRequest ["AAAA"; "AAAA"] (scene_prompt two_element_board opening);
        ImageRequest ["AAAA"; "AAAA"] (scene_prompt two_element_board chase)]
  /\ exists (element_requests scene_requests : list Request)
            (refs : list string),
       requests (world (processAudio (analysis_returns two_element_board)
                          always_draws ready_to_start fresh_world))
       = [AnalyzeRequest "SUQzBAA" "audio/mpeg"]
           ++ element_requests ++ scene_requests
       /\ Forall (scene_request two_element_board refs
                    (Storyboard.scenes two_element_board)) scene_requests
       /\ List.length refs = 2%nat.
Proof.
  split; [reflexivity|]. split; [vm_compute; reflexivity|].
  destruct (proj2 (requests_of_a_run (analysis_returns two_element_board)
                     always_draws ready_to_start fresh_world
                     (mkWorld [AnalyzeRequest "SUQzBAA" "audio/mpeg"] [] 0)
                     song eq_refl)
              two_element_board eq_refl)
    as (element_requests & scene_requests & refs & slept & Hreq & _ & _ & _
        & Hscenes & Hrefs & _).
  exists element_requests, scene_requests, refs.
  split; [exact Hreq|]. split; [exact Hscenes | exact Hrefs].
Defined.

(* ===================================================================== *)
(** ** Edges                                                              *)
(* ===================================================================== *)

Lemma find_skips_text_parts (texts : list Part) (tail : list Part) :
  Forall (fun p => inlineData p = None) texts ->
  find has_inlineData (texts ++ tail) = find has_inlineData tail.
Proof.
  induction 1 as [|p texts Hp Hrest IH]; [reflexivity|].
  simpl. unfold has_inlineData at 1. rewrite Hp. exact IH.
Qed.

(** X18. An attempt reads the first candidate only, and of it the first
    part that has inline data: that payload, wrapped as a data URL, is
    the image.  A first candidate without inline data is a failure ("No
    image data in response.") whatever the other candidates hold, and a
    response without candidates is a failure ("No output candidate."). *)
Theorem attempt_reads_first_inline_part :
  forall (t : option Body) (c : Candidate) (others : list Candidate),
    (forall (texts : list Part) (data : string) (rest : list Part),
        parts c = texts ++ mkPart (Some data) :: rest ->
        Forall (fun p => inlineData p = None) texts ->
        extract_image (mkResponse t (c :: others)) = Ok (data_url data))
    /\ (Forall (fun p => inlineData p = None) (parts c) ->
        extract_image (mkResponse t (c :: others))
        = Throw (mkError "No image data in response."))
    /\ extract_image (mkResponse t [])
       = Throw (mkError "No output candidate.").
Proof.
  intros t c others. split; [|split].
  - intros texts data rest Hparts Htexts. unfold extract_image. cbn [candidates].
    rewrite Hparts, (find_skips_text_parts texts _ Htexts). reflexivity.
  - intros Hnone. unfold extract_image. cbn [candidates].
    pose proof (find_skips_text_parts (parts c) [] Hnone) as Hfind.
    rewrite app_nil_r in Hfind. rewrite Hfind. reflexivity.
  - reflexivity.
Qed.

Lemma attempt_reads_first_inline_part_witness :
  extract_image
    (mkResponse None
       [mkCandidate [mkPart None; mkPart (Some "AAAA"); mkPart (Some "BBBB")];
        mkCandidate [mkPart (Some "CCCC")]])
  = Ok (data_url "AAAA")
  /\ extract_image
       (mkResponse None
          [mkCandidate [mkPart None]; mkCandidate [mkPart (Some "CCCC")]])
     = Throw (mkError "No image data in response.").
Proof.
  split.
  - apply (proj1 (attempt_reads_first_inline_part None
                    (mkCandidate [mkPart None; mkPart (Some "AAAA");
                                  mkPart (Some "BBBB")])
                    [mkCandidate [mkPart (Some "CCCC")]])
             [mkPart None] "AAAA" [mkPart (Some "BBBB")] eq_refl).
    repeat constructor.
  - apply (proj1 (proj2 (attempt_reads_first_inline_part None
                           (mkCandidate [mkPart None])
                           [mkCandidate [mkPart (Some "CCCC")]]))).
    repeat constructor.
Defined.

(** X19. A storyboard without recurring elements and without scenes
    completes at once: the run ends Ready holding that storyboard, no
    image request is sent, and the progress is still the 5 set before
    the analysis. *)
Theorem empty_storyboard_completes_at_once :
  forall (analyzeAudio : string -> string -> Async Storyboard.t)
         (service : nat -> Reply) (s : Snapshot) (w w1 : World)
         (f : File.t) (sb : Storyboard.t),
    audioFile s = Some f ->
    analyzeAudio (File.base64 f) (File.type f) w = (w1, Ok sb) ->
    elements_of sb = [] ->
    Storyboard.scenes sb = [] ->
    let run := processAudio analyzeAudio service s w in
    state (now run) = READY
    /\ storyboard (now run) = Some sb
    /\ progress (now run) = 5%Z
    /\ error (now run) = None
    /\ world run = w1.
Proof.
  intros analyzeAudio service s w w1 f sb Hf Han Hel Hsc run. subst run.
  rewrite (processAudio_cases analyzeAudio service s w f Hf), Han, Hel, Hsc.
  simpl. repeat split.
Qed.

Lemma empty_storyboard_completes_at_once_witness :
  audioFile ready_to_start = Some song
  /\ state (now (processAudio
                   (analysis_returns
                      (Storyboard.mk "X" (ProductionDesign.mk "noir" []) []))
                   always_rejects ready_to_start fresh_world)) = READY.
Proof.
  split; [reflexivity|].
  exact (proj1 (empty_storyboard_completes_at_once
                  (analysis_returns
                     (Storyboard.mk "X" (ProductionDesign.mk "noir" []) []))
                  always_rejects ready_to_start fresh_world _ song _
                  eq_refl eq_refl eq_refl eq_refl)).
Defined.

(** X20. When the loop of [generateImage] is left by its condition, so
    that the call throws the generic "Generation failed.".  It is so for
    a [retries] that is NaN, -Infinity or negative, where no attempt is
    made; and for a [retries >= 0] that is not a whole number when all
    the [floor(retries) + 1] attempts fail; and in no other case.  The
    call has then sent one request per attempt and slept after every
    one of them, the last included. *)
Theorem generic_error_iff_loop_condition_fails :
  forall (service : nat -> Reply) (prompt : string)
         (referenceImages : list string) (retries : Retries) (w : World),
    let req := ImageRequest (map reference_data referenceImages) prompt in
    let first := List.length (requests w) in
    (snd (generateImage_exit service prompt referenceImages retries w)
     = FellThrough
     <-> match retries with
         | Exactly q =>
             q < 0
             \/ (~ whole q
                 /\ all_fail service first (Z.to_nat (Qfloor q) + 1))
         | _ => True
         end)
    /\ (snd (generateImage_exit service prompt referenceImages retries w)
        = FellThrough ->
        generateImage service prompt referenceImages retries w
        = (after_attempts w req (iterations retries)
             (backoff (iterations retries)),
           Throw (mkError "Generation failed."))).
Proof.
  intros service prompt referenceImages retries w req first.
  assert (Hiter : iterations_from retries 0 = iterations retries)
    by (destruct retries; simpl; try reflexivity; f_equal; lia).
  pose proof (retry_loop_outcome service prompt referenceImages retries
                (S (iterations retries)) 0%Z w ltac:(rewrite Hiter; lia))
    as Hout.
  cbv zeta in Hout. rewrite Hiter in Hout. fold first in Hout. fold req in Hout.
  fold (generateImage_exit service prompt referenceImages retries w) in Hout.
  split.
  - split.
    + intros Hfell.
      destruct Hout as [(k & image & _ & _ & _ & Hloop)
                       | [(e & _ & _ & _ & _ & Hloop)
                         | (Hl & Hfail & _)]];
        try (rewrite Hloop in Hfell; discriminate Hfell).
      destruct retries as [| |q]; try exact I.
      destruct (Qlt_le_dec q 0) as [Hneg|Hpos]; [left; exact Hneg|right].
      pose proof (floor_of_nonnegative q Hpos) as Hfloor.
      assert (Hn : iterations (Exactly q) = (Z.to_nat (Qfloor q) + 1)%nat)
        by (simpl; lia).
      rewrite Hn in *. split; [|exact Hfail].
      destruct Hl as [H0|Hl]; [lia|]. intros Hw.
      assert (Ht : is_last (Qfloor q) (Exactly q) = true)
        by (apply is_last_floor; split; [reflexivity|exact Hw]).
      replace (0 + Z.of_nat (Z.to_nat (Qfloor q) + 1) - 1)%Z
        with (Qfloor q) in Hl by lia.
      congruence.
    + intros Hcase.
      destruct Hout as [(k & image & Hk & Hfail & Hok & _)
                       | [(e & H1 & Hl & _ & _ & _)
                         | (_ & _ & Hloop)]];
        [exfalso|exfalso|rewrite Hloop; reflexivity].
      * destruct retries as [| |q]; simpl in Hk; try lia.
        destruct Hcase as [Hneg|[_ Hall]].
        -- pose proof (floor_of_negative q Hneg). lia.
        -- destruct (Hall k ltac:(lia)) as [e He]. congruence.
      * destruct retries as [| |q]; simpl in H1; try lia.
        destruct Hcase as [Hneg|[Hnot _]].
        -- pose proof (floor_of_negative q Hneg). lia.
        -- apply is_last_floor in Hl. apply Hnot. apply Hl.
  - intros Hfell. unfold generateImage.
    destruct Hout as [(k & image & _ & _ & _ & Hloop)
                     | [(e & _ & _ & _ & _ & Hloop)
                       | (_ & _ & Hloop)]];
      rewrite Hloop in Hfell; try discriminate Hfell.
    rewrite Hloop. reflexivity.
Qed.

Lemma generic_error_iff_loop_condition_fails_witness :
  snd (generateImage_exit always_rejects "a lighthouse" [] (Exactly (1 # 2))
         fresh_world) = FellThrough
  /\ generateImage always_rejects "a lighthouse" [] (Exactly (1 # 2))
       fresh_world
     = (after_attempts fresh_world (ImageRequest [] "a lighthouse") 1 [1500%Z],
        Throw (mkError "Generation failed.")).
Proof.
  assert (Hfell : snd (generateImage_exit always_rejects "a lighthouse" []
                         (Exactly (1 # 2)) fresh_world) = FellThrough)
    by reflexivity.
  split; [exact Hfell|].
  exact (proj2 (generic_error_iff_loop_condition_fails always_rejects
                  "a lighthouse" [] (Exactly (1 # 2)) fresh_world) Hfell).
Defined.
